(** * Overlay lifecycle and projection pipeline of [src/R6/bone.client.ts]

    A shallow embedding of the script: the [Bin] disposer (a singly linked
    list of owned items with [head] and [tail] references), the rig builder
    ([constructPoints], [constructBones]), the per-frame [render] with its
    behind-the-camera cull, [updateLineFromPoints], and the registry
    [ESP.instances] driven by the spawn, ancestry and frame-tick events.

    Luau numbers are idealised as real numbers.  Objects that the script
    shares by reference (list nodes, GUI instances, attachments, overlays)
    live in stores indexed by [nat]; a reference is an index, and
    [new Instance(..)] appends to the store. *)

From Stdlib Require Import Reals Lra Lia ZArith String.
From Stdlib Require Import Zfloor Ratan Machin AltSeries.
From stdpp Require Import base option list gmap strings.

Set Default Proof Using "Type".

(* ================================================================== *)
(** * Part I: the program                                              *)
(* ================================================================== *)

(** ** Results of calls that may throw *)

Definition Error := string.

(** [Ok a]: the call returned [a].  [Raise e a]: the call threw [e]; [a] is
    the state that had been reached when it threw. *)
Inductive Result (A : Type) : Type :=
  | Ok (a : A)
  | Raise (e : Error) (a : A).
Arguments Ok {A} a.
Arguments Raise {A} e a.

(** ** class Bin *)

(** [Bin.Item]: the five kinds of item the TypeScript union admits, as a
    tagged union carrying a reference to the underlying host object. *)
Class ItemKinds := {
  callback : Type;        (* () => unknown *)
  connection : Type;      (* RBXScriptConnection *)
  thread : Type;          (* thread *)
  disposable : Type;      (* { destroy(): void } *)
  rbx_instance : Type;    (* { Destroy(): void } *)
}.

Inductive Item `{ItemKinds} : Type :=
  | ItemFunction (f : callback)
  | ItemConnection (c : connection)
  | ItemThread (t : thread)
  | ItemDestroy (o : disposable)
  | ItemInstance (o : rbx_instance).

(** What the host does when an item is released, acting on a world [W]. *)
Class Release (W : Type) `{ItemKinds} := {
  call : callback → W → Result W;               (* item() *)
  Disconnect : connection → W → Result W;       (* item.Disconnect() *)
  task_cancel : thread → W → Result W;          (* task.cancel(item) *)
  destroy_method : disposable → W → Result W;   (* item.destroy() *)
  Destroy_method : rbx_instance → W → Result W; (* item.Destroy() *)
}.

Module Bin.
Section Code.
Context `{ItemKinds}.

(** [type Node = { next?: Node; item: Bin.Item }]; a node reference is an
  index into the node store of its bin. *)
Record Node := mkNode { item : Item; next : option nat }.

Record t := mk {
nodes : list Node;
head : option nat;
tail : option nat;
}.

(** [new Bin()]: both fields undefined. *)
Definition new : t := {| nodes := []; head := None; tail := None |}.

Definition set_next (nx : option nat) (n : Node) : Node :=
{| item := item n; next := nx |}.

(** [add(item)]. *)
Definition add (it : Item) (this : t) : t :=
(* const node: Node = { item }; *)
let node := length (nodes this) in
let store := nodes this ++ [{| item := it; next := None |}] in
(* this.head ??= node; *)
let head' := match head this with Some h => Some h | None => Some node end in
(* if (this.tail) this.tail.next = node; *)
let store' := match tail this with
              | Some tl => alter (set_next (Some node)) tl store
              | None => store
              end in
(* this.tail = node; *)
{| nodes := store'; head := head'; tail := Some node |}.

(** [isEmpty()]. *)
Definition isEmpty (this : t) : bool :=
match head this with None => true | Some _ => false end.

Section Destroy.
Context {W : Type} `{!Release W}.

(** The chain of [typeIs] / [in] tests of [destroy]. *)
Definition release (it : Item) (w : W) : Result W :=
match it with
| ItemFunction f => call f w
| ItemConnection c => Disconnect c w
| ItemThread th => task_cancel th w
| ItemDestroy o => destroy_method o w
| ItemInstance o => Destroy_method o w
end.

(** The [while (head)] loop.  [hd] is the local variable [head], [this]
  the bin.  [None] stands for a loop that does not come to an end
  within [fuel] iterations, or that follows a reference outside the
  node store. *)
Fixpoint destroy_loop (fuel : nat) (hd : option nat) (this : t) (w : W)
: option (Result (t * W)) :=
match hd with
| None => Some (Ok (this, w))
| Some p =>
    match fuel with
    | O => None
    | S fuel' =>
        match nodes this !! p with
        | None => None
        | Some n =>
            (* const { item } = head;  ...release... *)
            match release (item n) w with
            | Raise e w' => Some (Raise e (this, w'))
            | Ok w' =>
                (* head = head.next; this.head = head; *)
                let hd' := next n in
                destroy_loop fuel' hd'
                  {| nodes := nodes this; head := hd'; tail := tail this |} w'
            end
        end
    end
end.

(** [destroy()]: [let head = this.head; while (head) ...].  A chain of
  distinct nodes has at most [length nodes] nodes. *)
Definition destroy (this : t) (w : W) : option (Result (t * W)) :=
destroy_loop (length (nodes this)) (head this) this w.
End Destroy.
End Code.
Arguments Node {_}.
Arguments t {_}.
End Bin.

(** ** Luau [math] and the Roblox value types *)

Module math.
Local Open Scope R_scope.

Definition deg (x : R) : R := x * (180 / PI).

(** [math.atan2(y, x)]: the angle of the point [(x, y)], in [(-PI, PI]]. *)
Definition atan2 (y x : R) : R :=
  if Rlt_dec 0 x then atan (y / x)
  else if Rlt_dec x 0 then
    (if Rle_dec 0 y then atan (y / x) + PI else atan (y / x) - PI)
  else if Rlt_dec 0 y then PI / 2
  else if Rlt_dec y 0 then - (PI / 2)
  else 0.

Definition floor (x : R) : R := IZR (Zfloor x).
End math.

Module Vector2.
Local Open Scope R_scope.
Record t := new { X : R; Y : R }.

Definition add (a b : t) : t := new (X a + X b) (Y a + Y b).
Definition sub (a b : t) : t := new (X a - X b) (Y a - Y b).
Definition div (a : t) (k : R) : t := new (X a / k) (Y a / k).
Definition Magnitude (a : t) : R := sqrt (X a * X a + Y a * Y a).
End Vector2.

Module Vector3.
Record t := new { X : R; Y : R; Z : R }.
End Vector3.

Module UDim.
Record t := new { Scale : R; Offset : R }.
End UDim.

Module UDim2.
Record t := mk { X : UDim.t; Y : UDim.t }.
(** [new UDim2(xScale, xOffset, yScale, yOffset)]. *)
Definition new (xs xo ys yo : R) : t := mk (UDim.new xs xo) (UDim.new ys yo).
End UDim2.

(** ** Instances *)

Abbreviation ModelRef := nat (only parsing).
Abbreviation AttachmentRef := nat (only parsing).
Abbreviation GuiRef := nat (only parsing).
Abbreviation ESPRef := nat (only parsing).

(** A template literal is kept as its pieces: numbers are not formatted. *)
Inductive Piece : Type :=
  | Str (s : string)
  | Num (x : R).

Inductive ClassName : Type := Frame | TextLabel | UIListLayout.

Inductive GuiParent : Type :=
  | InScreenGui
  | InGui (r : GuiRef).

(** A GUI instance ([Frame], [TextLabel] or [UIListLayout]) as the bag of the
    properties that the script reads or that decide what is on screen.
    Styling properties that are only ever written (colours, fonts, anchor
    points, border and stroke settings, paddings, alignments) are left out. *)
Module Gui.
Record t := mk {
  className : ClassName;
  Visible : bool;
  Position : UDim2.t;
  Size : UDim2.t;
  Rotation : R;
  Text : list Piece;
  Parent : option GuiParent;
  Destroyed : bool;
}.

(** [new Instance(cls)]: visible, zero geometry, no text, no parent. *)
Definition fresh (cls : ClassName) : t :=
  mk cls true (UDim2.new 0 0 0 0) (UDim2.new 0 0 0 0) 0%R [] None false.

Definition with_Visible (v : bool) (g : t) : t :=
  mk (className g) v (Position g) (Size g) (Rotation g) (Text g) (Parent g) (Destroyed g).
Definition with_Position (v : UDim2.t) (g : t) : t :=
  mk (className g) (Visible g) v (Size g) (Rotation g) (Text g) (Parent g) (Destroyed g).
Definition with_Size (v : UDim2.t) (g : t) : t :=
  mk (className g) (Visible g) (Position g) v (Rotation g) (Text g) (Parent g) (Destroyed g).
Definition with_Rotation (v : R) (g : t) : t :=
  mk (className g) (Visible g) (Position g) (Size g) v (Text g) (Parent g) (Destroyed g).
Definition with_Text (v : list Piece) (g : t) : t :=
  mk (className g) (Visible g) (Position g) (Size g) (Rotation g) v (Parent g) (Destroyed g).
Definition with_Parent (v : option GuiParent) (g : t) : t :=
  mk (className g) (Visible g) (Position g) (Size g) (Rotation g) (Text g) v (Destroyed g).

(** What [Destroy()] does to the instance itself: parent cleared and
    locked. *)
Definition destroyed (g : t) : t :=
  mk (className g) (Visible g) (Position g) (Size g) (Rotation g) (Text g) None true.

(** [under fuel store r j]: instance [j] is [r] or a descendant of [r]. *)
Fixpoint under (fuel : nat) (store : list t) (r j : GuiRef) : bool :=
  if decide (j = r) then true
  else match fuel with
       | O => false
       | S fuel' =>
           match store !! j with
           | Some g =>
               match Parent g with
               | Some (InGui p) => under fuel' store r p
               | _ => false
               end
           | None => false
           end
       end.

(** [Destroy()] on instance [r]: it and all its descendants are destroyed. *)
Definition Destroy (r : GuiRef) (store : list t) : list t :=
  imap (λ j g, if under (length store) store r j then destroyed g else g) store.
End Gui.

Inductive AttachmentParent : Type :=
  | InPart (entity : ModelRef) (name : string)
  | InAttachment (a : AttachmentRef).

Module Attachment.
Record t := mk {
  Position : Vector3.t;
  Parent : option AttachmentParent;
}.
Definition fresh : t := mk (Vector3.new 0 0 0) None.
Definition with_Position (v : Vector3.t) (a : t) : t := mk v (Parent a).
Definition with_Parent (p : option AttachmentParent) (a : t) : t := mk (Position a) p.
End Attachment.

(** The children of a character model that the script looks up by name. *)
Inductive Child : Type :=
  | Part (Size : Vector3.t)
  | Humanoid (DisplayName : string).

Module Model.
Record t := mk {
  ref : ModelRef;                     (* the identity used as Map key *)
  Name : string;
  Children : list (string * Child);
}.

(** [FindFirstChild(name)]. *)
Definition FindFirstChild (name : string) (m : t) : option Child :=
  snd <$> find (λ c, bool_decide (fst c = name)) (Children m).
End Model.

(** ** The overlay object and the world it lives in *)

Module Points.
Record t := mk { C : AttachmentRef; T : AttachmentRef; B : AttachmentRef;
                 BL : AttachmentRef; BR : AttachmentRef;
                 TL : AttachmentRef; TR : AttachmentRef }.
End Points.

Module Bones.
Record t := mk {
  face : AttachmentRef; neck : AttachmentRef; waist : AttachmentRef;
  right_shoulder : AttachmentRef; right_hand : AttachmentRef;
  right_hip : AttachmentRef; right_foot : AttachmentRef;
  left_shoulder : AttachmentRef; left_hand : AttachmentRef;
  left_hip : AttachmentRef; left_foot : AttachmentRef }.
End Bones.

Module Labels.
Record t := mk { container : GuiRef; name : GuiRef; data : GuiRef;
                 listlayout : GuiRef }.
End Labels.

(** The one closure the script stores in a bin:
    [() => instances.delete(entity)]. *)
Inductive Closure : Type :=
  | DeleteInstance (entity : ModelRef).

(** The script stores functions and instances only. *)
#[export] Instance esp_items : ItemKinds := {|
  callback := Closure;
  connection := nat;
  thread := Empty_set;
  disposable := Empty_set;
  rbx_instance := GuiRef;
|}.

Module Overlay.
Record t := mk {
  bin : Bin.t;
  instance : ModelRef;
  humanoid : ModelRef;
  points : Points.t;
  bones : Bones.t;
  box_lines : list GuiRef;
  bone_lines : list GuiRef;
  labels : Labels.t;
}.
Definition with_bin (b : Bin.t) (o : t) : t :=
  mk b (instance o) (humanoid o) (points o) (bones o) (box_lines o)
     (bone_lines o) (labels o).
End Overlay.

(** A connection made by [signal.Connect(handler)] on the [AncestryChanged]
    signal of [entity]; the handler closes over the overlay [this]. *)
Record Connection := mkConnection {
  entity : ModelRef;
  this : ESPRef;
  Connected : bool;
}.

Definition Camera := Vector3.t → Vector3.t.   (* WorldToViewportPoint *)

(** Besides the stores and the variables of the script, the world keeps a
    record of the calls the script has made to the camera service:
    [projections] lists, oldest first, the attachments whose world position
    has been handed to [WorldToViewportPoint].  The script neither reads nor
    writes that record. *)
Record World := mkWorld {
  attachments : list Attachment.t;
  gui : list Gui.t;
  objects : list Overlay.t;            (* every ESP object, by reference *)
  instances : gmap ModelRef ESPRef;    (* ESP.instances *)
  connections : list Connection;
  CurrentCamera : option Camera;
  projections : list AttachmentRef;    (* calls of WorldToViewportPoint *)
}.

(** What the engine computes and the script only reads. *)
Record Host := mkHost {
  WorldPosition : AttachmentRef → Vector3.t;
  Health : ModelRef → R;
  MaxHealth : ModelRef → R;
  AbsoluteContentSize : GuiRef → Vector2.t;
}.

Definition with_attachments (f : list Attachment.t → list Attachment.t) (w : World) : World :=
  mkWorld (f (attachments w)) (gui w) (objects w) (instances w) (connections w) (CurrentCamera w)
          (projections w).
Definition with_gui (f : list Gui.t → list Gui.t) (w : World) : World :=
  mkWorld (attachments w) (f (gui w)) (objects w) (instances w) (connections w) (CurrentCamera w)
          (projections w).
Definition with_objects (f : list Overlay.t → list Overlay.t) (w : World) : World :=
  mkWorld (attachments w) (gui w) (f (objects w)) (instances w) (connections w) (CurrentCamera w)
          (projections w).
Definition with_instances (f : gmap ModelRef ESPRef → gmap ModelRef ESPRef) (w : World) : World :=
  mkWorld (attachments w) (gui w) (objects w) (f (instances w)) (connections w) (CurrentCamera w)
          (projections w).
Definition with_connections (f : list Connection → list Connection) (w : World) : World :=
  mkWorld (attachments w) (gui w) (objects w) (instances w) (f (connections w)) (CurrentCamera w)
          (projections w).
Definition with_CurrentCamera (c : option Camera) (w : World) : World :=
  mkWorld (attachments w) (gui w) (objects w) (instances w) (connections w) c
          (projections w).
Definition with_projections (f : list AttachmentRef → list AttachmentRef) (w : World) : World :=
  mkWorld (attachments w) (gui w) (objects w) (instances w) (connections w)
          (CurrentCamera w) (f (projections w)).

(** Releasing an item of an overlay's bin.  None of the items the script
    stores calls back into the bin that holds it: a release acts on the
    world, and the bin is written by the loop of [destroy] alone. *)
#[export] Instance esp_release : Release World := {|
  call f w :=
    match f with
    | DeleteInstance e => Ok (with_instances (delete e) w)
    end;
  Disconnect c w :=
    Ok (with_connections (alter (λ k, mkConnection (entity k) (this k) false) c) w);
  task_cancel th w := match th with end;
  destroy_method o w := match o with end;
  Destroy_method r w := Ok (with_gui (Gui.Destroy r) w);
|}.

(** ** Script code as computations on the world *)

(** A call returns ([Done]), throws ([Fault]), or yields and is never
    resumed ([Blocked]); each carries the world reached. *)
Inductive Outcome (A : Type) : Type :=
  | Done (a : A) (w : World)
  | Fault (e : Error) (w : World)
  | Blocked (w : World).
Arguments Done {A} a w.
Arguments Fault {A} e w.
Arguments Blocked {A} w.

Definition M (A : Type) : Type := World → Outcome A.

#[export] Instance M_ret : MRet M := λ A a w, Done a w.
#[export] Instance M_bind : MBind M := λ A B k m w,
  match m w with
  | Done a w' => k a w'
  | Fault e w' => Fault e w'
  | Blocked w' => Blocked w'
  end.

Definition world_of {A} (o : Outcome A) : World :=
  match o with Done _ w | Fault _ w | Blocked w => w end.

Definition get : M World := λ w, Done w w.
Definition modify (f : World → World) : M unit := λ w, Done tt (f w).
Definition throw {A} (e : Error) : M A := λ w, Fault e w.
Definition block {A} : M A := λ w, Blocked w.

(** [l.forEach(f)]. *)
Fixpoint forEach {A} (l : list A) (f : A → M unit) : M unit :=
  match l with
  | [] => mret tt
  | x :: l' => f x ;; forEach l' f
  end.

(** [arr[i]] followed by a member access: indexing [nil] throws. *)
Definition index {A} (arr : list A) (i : nat) : M A :=
  match arr !! i with
  | Some x => mret x
  | None => throw "attempt to index nil"
  end.

(** *** Instances: creation, property writes and reads *)

Definition new_Attachment : M AttachmentRef := λ w,
  Done (length (attachments w)) (with_attachments (λ l, l ++ [Attachment.fresh]) w).

Definition new_Instance (cls : ClassName) : M GuiRef := λ w,
  Done (length (gui w)) (with_gui (λ l, l ++ [Gui.fresh cls]) w).

Definition set_attachment (a : AttachmentRef) (f : Attachment.t → Attachment.t) : M unit :=
  modify (with_attachments (alter f a)).

Definition set_gui (r : GuiRef) (f : Gui.t → Gui.t) : M unit :=
  modify (with_gui (alter f r)).

Definition get_gui (r : GuiRef) : M Gui.t := λ w,
  match gui w !! r with
  | Some g => Done g w
  | None => Fault "invalid instance reference" w
  end.

(** [entity.WaitForChild(name)]: yields until the child exists.  The
    children of the model are those it has when the constructor runs: a
    child that is absent then does not turn up, and the call never
    resumes. *)
Definition WaitForChild (entity : Model.t) (name : string) : M (string * Child) :=
  match Model.FindFirstChild name entity with
  | Some c => mret (name, c)
  | None => block
  end.

(** [entity.WaitForChild(name, timeOut)]: [undefined] after the time-out. *)
Definition WaitForChild_timeOut (entity : Model.t) (name : string) (timeOut : R)
  : M (option (string * Child)) :=
  mret (pair name <$> Model.FindFirstChild name entity).

(** [part.Size] after the unchecked cast [as Part]. *)
Definition Size_of (c : string * Child) : M Vector3.t :=
  match snd c with
  | Part size => mret size
  | Humanoid _ => throw "Size is not a valid member of Humanoid"
  end.

(** [humanoid.DisplayName] after the unchecked cast [as Humanoid]. *)
Definition DisplayName_of (c : string * Child) : M string :=
  match snd c with
  | Humanoid n => mret n
  | Part _ => throw "DisplayName is not a valid member of Part"
  end.

(** ** function updateLineFromPoints *)

Section updateLineFromPoints.
Local Open Scope R_scope.

Definition updateLineFromPoints (line : GuiRef) (from to : Vector2.t) : M unit :=
  let displacement := Vector2.sub to from in
  let distance := Vector2.Magnitude displacement in
  let midpoint := Vector2.add from (Vector2.div displacement 2) in
  let angle := math.deg (math.atan2 (Vector2.Y displacement) (Vector2.X displacement)) in
  set_gui line (Gui.with_Position (UDim2.new 0 (Vector2.X midpoint) 0 (Vector2.Y midpoint))) ;;
  l ← get_gui line ;
  set_gui line (Gui.with_Size (UDim2.new 0 distance 0 (UDim.Offset (UDim2.Y (Gui.Size l))))) ;;
  set_gui line (Gui.with_Rotation angle).
End updateLineFromPoints.

(** ** class ESP *)

Module ESP.
Section Code.
Local Open Scope R_scope.
Import Points Bones Labels Overlay.

(** [constructPoints()]. *)
Definition constructPoints (entity : Model.t) : M Points.t :=
C ← new_Attachment ;
T ← new_Attachment ;
B ← new_Attachment ;
BL ← new_Attachment ;
BR ← new_Attachment ;
TL ← new_Attachment ;
TR ← new_Attachment ;

head ← WaitForChild entity "Head" ;
found ← WaitForChild_timeOut entity "HumanoidRootPart" 5 ;
root ← match found with
       | Some r => mret r
       | None => WaitForChild entity "Torso"
       end ;
right_arm ← WaitForChild entity "Right Arm" ;
right_leg ← WaitForChild entity "Right Leg" ;

root_Size ← Size_of root ;
head_Size ← Size_of head ;
let U := Vector3.Y root_Size / 2 + Vector3.Y head_Size + 0.4 in
right_leg_Size ← Size_of right_leg ;
let D := - Vector3.Y root_Size / 2 - Vector3.Y right_leg_Size - 0.3 in
right_arm_Size ← Size_of right_arm ;
let LR := Vector3.X root_Size / 2 + Vector3.X right_arm_Size + 0.2 in

set_attachment T (Attachment.with_Position (Vector3.new 0 U 0)) ;;
set_attachment B (Attachment.with_Position (Vector3.new 0 D 0)) ;;

set_attachment TL (Attachment.with_Position (Vector3.new (- LR) 0 0)) ;;
set_attachment BL (Attachment.with_Position (Vector3.new (- LR) 0 0)) ;;
set_attachment TR (Attachment.with_Position (Vector3.new LR 0 0)) ;;
set_attachment BR (Attachment.with_Position (Vector3.new LR 0 0)) ;;

set_attachment T (Attachment.with_Parent (Some (InAttachment C))) ;;
set_attachment B (Attachment.with_Parent (Some (InAttachment C))) ;;
set_attachment BL (Attachment.with_Parent (Some (InAttachment B))) ;;
set_attachment BR (Attachment.with_Parent (Some (InAttachment B))) ;;
set_attachment TL (Attachment.with_Parent (Some (InAttachment T))) ;;
set_attachment TR (Attachment.with_Parent (Some (InAttachment T))) ;;
set_attachment C (Attachment.with_Parent (Some (InPart (Model.ref entity) (fst root)))) ;;

mret (Points.mk C T B BL BR TL TR).

(** [constructBones()]. *)
Definition constructBones (entity : Model.t) : M Bones.t :=
(* References: *)
head ← WaitForChild entity "Head" ;
torso ← WaitForChild entity "Torso" ;
right_arm ← WaitForChild entity "Right Arm" ;
right_leg ← WaitForChild entity "Right Leg" ;
left_arm ← WaitForChild entity "Left Arm" ;
left_leg ← WaitForChild entity "Left Leg" ;

(* Variables: *)
head_size ← Size_of head ;
torso_size ← Size_of torso ;
right_arm_size ← Size_of right_arm ;
right_leg_size ← Size_of right_leg ;

let head_y := Vector3.Y head_size / 2 in
let torso_y := Vector3.Y torso_size / 2 in
let arm_y := Vector3.Y right_arm_size / 2 in
let leg_y := Vector3.Y right_leg_size / 2 in

(* Create Bones: *)
face ← new_Attachment ;
neck ← new_Attachment ;
waist ← new_Attachment ;
right_shoulder ← new_Attachment ;
right_hand ← new_Attachment ;
right_hip ← new_Attachment ;
right_foot ← new_Attachment ;
left_shoulder ← new_Attachment ;
left_hand ← new_Attachment ;
left_hip ← new_Attachment ;
left_foot ← new_Attachment ;

set_attachment face (Attachment.with_Position (Vector3.new 0 head_y 0)) ;;
set_attachment neck (Attachment.with_Position (Vector3.new 0 torso_y 0)) ;;
set_attachment waist (Attachment.with_Position (Vector3.new 0 (- torso_y) 0)) ;;
set_attachment right_shoulder (Attachment.with_Position (Vector3.new 0 arm_y 0)) ;;
set_attachment right_hand (Attachment.with_Position (Vector3.new 0 (- arm_y) 0)) ;;
set_attachment right_hip (Attachment.with_Position (Vector3.new 0 leg_y 0)) ;;
set_attachment right_foot (Attachment.with_Position (Vector3.new 0 (- leg_y) 0)) ;;
set_attachment left_shoulder (Attachment.with_Position (Vector3.new 0 arm_y 0)) ;;
set_attachment left_hand (Attachment.with_Position (Vector3.new 0 (- arm_y) 0)) ;;
set_attachment left_hip (Attachment.with_Position (Vector3.new 0 leg_y 0)) ;;
set_attachment left_foot (Attachment.with_Position (Vector3.new 0 (- leg_y) 0)) ;;

let parent (p : string * Child) := Some (InPart (Model.ref entity) (fst p)) in
set_attachment face (Attachment.with_Parent (parent head)) ;;
set_attachment neck (Attachment.with_Parent (parent torso)) ;;
set_attachment waist (Attachment.with_Parent (parent torso)) ;;
set_attachment right_shoulder (Attachment.with_Parent (parent right_arm)) ;;
set_attachment right_hand (Attachment.with_Parent (parent right_arm)) ;;
set_attachment right_hip (Attachment.with_Parent (parent right_leg)) ;;
set_attachment right_foot (Attachment.with_Parent (parent right_leg)) ;;
set_attachment left_shoulder (Attachment.with_Parent (parent left_arm)) ;;
set_attachment left_hand (Attachment.with_Parent (parent left_arm)) ;;
set_attachment left_hip (Attachment.with_Parent (parent left_leg)) ;;
set_attachment left_foot (Attachment.with_Parent (parent left_leg)) ;;

mret (Bones.mk face neck waist right_shoulder right_hand right_hip right_foot
               left_shoulder left_hand left_hip left_foot).

(** One iteration of the two loops of [constructLines()]. *)
Definition new_line : M GuiRef :=
line ← new_Instance Frame ;
set_gui line (Gui.with_Visible false) ;;
set_gui line (Gui.with_Parent (Some InScreenGui)) ;;
mret line.

(** [for (const _ of $range(1, n))]: create a line, push it, add it to the
  bin. *)
Fixpoint new_lines (n : nat) (lines : list GuiRef) (bin : Bin.t)
: M (list GuiRef * Bin.t) :=
match n with
| O => mret (lines, bin)
| S n' =>
    line ← new_line ;
    new_lines n' (lines ++ [line]) (Bin.add (ItemInstance line) bin)
end.

(** [constructLines()]. *)
Definition constructLines (bin : Bin.t) : M (list GuiRef * list GuiRef * Bin.t) :=
'(box_lines, bin) ← new_lines 4 [] bin ;
'(bone_lines, bin) ← new_lines 10 [] bin ;
mret (box_lines, bone_lines, bin).

(** [setLabels()]. *)
Definition setLabels (labels : Labels.t) (instance : Model.t)
  (humanoid : string * Child) (bin : Bin.t) : M Bin.t :=
set_gui (container labels) (Gui.with_Visible false) ;;

set_gui (name labels) (Gui.with_Size (UDim2.new 1 0 0 14)) ;;
DisplayName ← DisplayName_of humanoid ;
set_gui (name labels)
  (Gui.with_Text [Str (Model.Name instance); Str " @"; Str DisplayName]) ;;

set_gui (data labels) (Gui.with_Size (UDim2.new 1 0 0 14)) ;;
set_gui (data labels) (Gui.with_Text [Str "[85] [100/100] [100%]"]) ;;

set_gui (name labels) (Gui.with_Parent (Some (InGui (container labels)))) ;;
set_gui (data labels) (Gui.with_Parent (Some (InGui (container labels)))) ;;
set_gui (listlayout labels) (Gui.with_Parent (Some (InGui (container labels)))) ;;
set_gui (container labels) (Gui.with_Parent (Some InScreenGui)) ;;

mret (Bin.add (ItemInstance (container labels)) bin).

(** [this.<field>]. *)
Definition self (this : ESPRef) : M Overlay.t := λ w,
match objects w !! this with
| Some o => Done o w
| None => Fault "invalid object reference" w
end.

(** [setVisible(visible)]. *)
Definition setVisible (this : ESPRef) (visible : bool) : M unit :=
o ← self this ;
set_gui (container (labels o)) (Gui.with_Visible visible) ;;
forEach (box_lines o) (λ line, set_gui line (Gui.with_Visible visible)) ;;
forEach (bone_lines o) (λ line, set_gui line (Gui.with_Visible visible)).

(** [update()]. *)
Definition update (host : Host) (this : ESPRef) : M unit :=
o ← self this ;
forEach (box_lines o) (λ line, set_gui line (Gui.with_Size (UDim2.new 0 1 0 2))) ;;
forEach (bone_lines o) (λ line, set_gui line (Gui.with_Size (UDim2.new 0 1 0 1))) ;;
set_gui (container (labels o))
  (Gui.with_Size (UDim2.new 0 300 0
     (Vector2.Y (AbsoluteContentSize host (listlayout (labels o)))))).

(** [destroy()]: [this.bin.destroy()]. *)
Definition destroy (this : ESPRef) : M unit :=
o ← self this ;
((λ w, match Bin.destroy (bin o) w with
       | Some (Ok (b, w')) =>
           Done tt (with_objects (alter (with_bin b) this) w')
       | Some (Raise e (b, w')) =>
           Fault e (with_objects (alter (with_bin b) this) w')
       | None => Blocked w
       end) : M unit).

(** [constructor(entity)], preceded by the field initialisers.  The object
    enters the store [objects] where the constructor first hands [this]
    out, at [instances.set(entity, this)]; a constructor that throws or
    blocks before that leaves no object behind. *)
Definition new (host : Host) (entity : Model.t) : M ESPRef :=
let bin := Bin.new in
container ← new_Instance Frame ;
name ← new_Instance TextLabel ;
data ← new_Instance TextLabel ;
listlayout ← new_Instance UIListLayout ;
let labels := Labels.mk container name data listlayout in

(* Set up: *)
humanoid ← WaitForChild entity "Humanoid" ;

(* Attachments: *)
points ← constructPoints entity ;
bones ← constructBones entity ;

(* Lines: *)
'(box_lines, bone_lines, bin) ← constructLines bin ;

(* User Interface: *)
bin ← setLabels labels entity humanoid bin ;

(* Initialize: *)
w ← get ;
let this := length (objects w) in
modify (with_objects (λ l, l ++ [Overlay.mk bin (Model.ref entity) (Model.ref entity)
                                   points bones box_lines bone_lines labels])) ;;
modify (with_instances <[Model.ref entity := this]>) ;;
modify (with_objects (alter (λ o, with_bin
          (Bin.add (ItemFunction (DeleteInstance (Model.ref entity))) (Overlay.bin o)) o)
          this)) ;;
modify (with_connections (λ l, l ++ [mkConnection (Model.ref entity) this true])) ;;

(* Manual Update: *)
update host this ;;
mret this.

(** [CurrentCamera.WorldToViewportPoint(a.WorldPosition)], first result.
  Indexing an undefined [CurrentCamera] throws; a call that is made is
  entered in the record of calls. *)
Definition project (host : Host) (a : AttachmentRef) : M Vector3.t := λ w,
match CurrentCamera w with
| Some WorldToViewportPoint =>
    Done (WorldToViewportPoint (WorldPosition host a))
         (with_projections (λ calls, calls ++ [a]) w)
| None => Fault "attempt to index nil with 'WorldToViewportPoint'" w
end.

(** [P.Z < 0]. *)
Definition behind (P : Vector3.t) : bool :=
if Rlt_dec (Vector3.Z P) 0 then true else false.

Definition xy (P : Vector3.t) : Vector2.t :=
Vector2.new (Vector3.X P) (Vector3.Y P).

(** [render()]. *)
Definition render (host : Host) (this : ESPRef) : M unit :=
o ← self this ;
let points := points o in
let bones := bones o in
let box_lines := box_lines o in
let bone_lines := bone_lines o in
let labels := labels o in

(* World to Viewport: *)
C_P ← project host (C points) ;
if behind C_P then setVisible this false else
T_P ← project host (T points) ;
if behind T_P then setVisible this false else
BL_P ← project host (BL points) ;
if behind BL_P then setVisible this false else
BR_P ← project host (BR points) ;
if behind BR_P then setVisible this false else
TL_P ← project host (TL points) ;
if behind TL_P then setVisible this false else
TR_P ← project host (TR points) ;
if behind TR_P then setVisible this false else

face_P ← project host (face bones) ;
if behind face_P then setVisible this false else
neck_P ← project host (neck bones) ;
if behind neck_P then setVisible this false else
waist_P ← project host (waist bones) ;
if behind waist_P then setVisible this false else
right_shoulder_P ← project host (right_shoulder bones) ;
if behind right_shoulder_P then setVisible this false else
right_hand_P ← project host (right_hand bones) ;
if behind right_hand_P then setVisible this false else
right_hip_P ← project host (right_hip bones) ;
if behind right_hip_P then setVisible this false else
right_foot_P ← project host (right_foot bones) ;
if behind right_foot_P then setVisible this false else
left_shoulder_P ← project host (left_shoulder bones) ;
if behind left_shoulder_P then setVisible this false else
left_hand_P ← project host (left_hand bones) ;
if behind left_hand_P then setVisible this false else
left_hip_P ← project host (left_hip bones) ;
if behind left_hip_P then setVisible this false else
left_foot_P ← project host (left_foot bones) ;
if behind left_foot_P then setVisible this false else

(* Update Box Lines: *)
l ← index box_lines 0 ; updateLineFromPoints l (xy TL_P) (xy TR_P) ;;
l ← index box_lines 1 ; updateLineFromPoints l (xy TR_P) (xy BR_P) ;;
l ← index box_lines 2 ; updateLineFromPoints l (xy BR_P) (xy BL_P) ;;
l ← index box_lines 3 ; updateLineFromPoints l (xy BL_P) (xy TL_P) ;;

(* Update Bone Lines: *)
l ← index bone_lines 0 ; updateLineFromPoints l (xy face_P) (xy neck_P) ;;
l ← index bone_lines 1 ; updateLineFromPoints l (xy neck_P) (xy waist_P) ;;
l ← index bone_lines 2 ; updateLineFromPoints l (xy neck_P) (xy right_shoulder_P) ;;
l ← index bone_lines 3 ; updateLineFromPoints l (xy right_shoulder_P) (xy right_hand_P) ;;
l ← index bone_lines 4 ; updateLineFromPoints l (xy waist_P) (xy right_hip_P) ;;
l ← index bone_lines 5 ; updateLineFromPoints l (xy right_hip_P) (xy right_foot_P) ;;
l ← index bone_lines 6 ; updateLineFromPoints l (xy neck_P) (xy left_shoulder_P) ;;
l ← index bone_lines 7 ; updateLineFromPoints l (xy left_shoulder_P) (xy left_hand_P) ;;
l ← index bone_lines 8 ; updateLineFromPoints l (xy waist_P) (xy left_hip_P) ;;
l ← index bone_lines 9 ; updateLineFromPoints l (xy left_hip_P) (xy left_foot_P) ;;

(* Update Labels: *)
set_gui (container labels)
  (Gui.with_Position (UDim2.new 0 (Vector3.X T_P) 0
     (Vector3.Y T_P - Vector2.Y (AbsoluteContentSize host (listlayout labels))))) ;;

let distance := math.floor (Vector3.Z C_P) in
let health := Health host (humanoid o) in
let maxHealth := MaxHealth host (humanoid o) in
set_gui (data labels)
  (Gui.with_Text [Str "["; Num distance; Str "] ["; Num health; Str "/";
                  Num maxHealth; Str "] [";
                  Num (math.floor (health / maxHealth * 100)); Str "%]"]) ;;

setVisible this true.
End Code.
End ESP.

(** ** Event listeners *)

(** What the engine signals to the script.  [CharacterAdded] stands for
    each of the places that run [new ESP(character)]: the two
    [CharacterAdded] handlers and the two [if (player.Character)] lines.
    Every event carries what the engine has computed by then. *)

Inductive Event : Type :=
  | CharacterAdded (host : Host) (character : Model.t)
  | AncestryChanged (entity : ModelRef) (parent : option nat)
  | CurrentCameraChanged (camera : option Camera)
  | RenderStepped (host : Host).

(** The handler [(_, parent) => parent === undefined && this.destroy()] of
    one connection. *)
Definition on_AncestryChanged (parent : option nat) (this : ESPRef) : M unit :=
  match parent with
  | None => ESP.destroy this
  | Some _ => mret tt
  end.

(** Firing [entity.AncestryChanged]: every connected handler of that signal
    is run, each as an invocation of its own. *)
Fixpoint fire_AncestryChanged (e : ModelRef) (parent : option nat)
    (cs : list Connection) (w : World) : World :=
  match cs with
  | [] => w
  | c :: cs' =>
      let w' := if Connected c && bool_decide (entity c = e)
                then world_of (on_AncestryChanged parent (this c) w)
                else w in
      fire_AncestryChanged e parent cs' w'
  end.

(** [for (const [_, instance] of instances) instance.render()].  The first
    component lists the overlays on which [render()] was called, in order. *)
Fixpoint render_each (host : Host) (todo : list (ModelRef * ESPRef)) (w : World)
  : list ESPRef * Outcome unit :=
  match todo with
  | [] => ([], Done tt w)
  | (_, instance) :: rest =>
      match ESP.render host instance w with
      | Done _ w' =>
          let '(called, r) := render_each host rest w' in (instance :: called, r)
      | Fault e w' => ([instance], Fault e w')
      | Blocked w' => ([instance], Blocked w')
      end
  end.

Definition on_RenderStepped (host : Host) (w : World) : list ESPRef * Outcome unit :=
  render_each host (map_to_list (instances w)) w.

(** One event.  A handler that throws or blocks leaves the world as it was
    at that point. *)
Definition step (ev : Event) (w : World) : World :=
  match ev with
  | CharacterAdded host character => world_of (ESP.new host character w)
  | AncestryChanged e parent => fire_AncestryChanged e parent (connections w) w
  | CurrentCameraChanged camera => with_CurrentCamera camera w
  | RenderStepped host => world_of (snd (on_RenderStepped host w))
  end.

Definition run (events : list Event) (w : World) : World :=
  foldl (λ w ev, step ev w) w events.

(** The world when the script starts. *)
Definition start (camera : option Camera) : World :=
  mkWorld [] [] [] ∅ [] camera [].

(** The entities for which an overlay has been constructed and whose removal
    ([AncestryChanged] with an undefined parent) has not been signalled
    since. *)
Fixpoint tracked (events : list Event) (w : World) (acc : gset ModelRef)
  : gset ModelRef :=
  match events with
  | [] => acc
  | ev :: rest =>
      let acc' :=
        match ev with
        | CharacterAdded host character =>
            match ESP.new host character w with
            | Done _ _ => {[Model.ref character]} ∪ acc
            | _ => acc
            end
        | AncestryChanged e None => acc ∖ {[e]}
        | _ => acc
        end in
      tracked rest (step ev w) acc'
  end.

(** An overlay is live until its bin has been emptied by [destroy()]. *)
Definition live (o : Overlay.t) : bool := negb (Bin.isEmpty (Overlay.bin o)).

(* ================================================================== *)
(** * Part II: vocabulary of the statements                            *)
(* ================================================================== *)

Module BinSpec.
Section Vocabulary.
Context `{ItemKinds}.

(** [chain nodes hd cells]: following [next] from [hd] visits exactly the
  nodes [cells] (reference and item) and then reaches [undefined]. *)
Inductive chain (nodes : list Bin.Node) : option nat → list (nat * Item) → Prop :=
| chain_end : chain nodes None []
| chain_node p it nx cells :
    nodes !! p = Some (Bin.mkNode it nx) →
    chain nodes nx cells →
    chain nodes (Some p) ((p, it) :: cells).

(** The representation invariant: the bin holds the items [l], oldest
  first.  When the list is not empty [tail] is its last node; when it is
  empty [tail] may be a stale reference to an old node. *)
Definition holds (b : Bin.t) (l : list Item) : Prop :=
∃ cells,
  chain (Bin.nodes b) (Bin.head b) cells ∧
  l = cells.*2 ∧
  NoDup cells.*1 ∧
  (∀ tl, last cells.*1 = Some tl → Bin.tail b = Some tl) ∧
  (∀ tl, Bin.tail b = Some tl → tl < length (Bin.nodes b)).

(** The items still in the bin, read off the list from [head]. *)
Fixpoint items_from (fuel : nat) (nodes : list Bin.Node) (hd : option nat) : list Item :=
match fuel, hd with
| S fuel', Some p =>
    match nodes !! p with
    | Some n => Bin.item n :: items_from fuel' nodes (Bin.next n)
    | None => []
    end
| _, _ => []
end.

Definition pending (b : Bin.t) : list Item :=
items_from (length (Bin.nodes b)) (Bin.nodes b) (Bin.head b).

(** [add] called once per item, in list order. *)
Definition add_all (items : list Item) (b : Bin.t) : Bin.t :=
foldl (λ b it, Bin.add it b) b items.

Section Release.
Context {W : Type} `{!Release W}.

(** Releasing items one after the other, oldest first, up to the first
  release that throws.  Returns the items not released (the one that
  threw and those after it) and the resulting world. *)
Fixpoint release_all (l : list Item) (w : W) : list Item * Result W :=
match l with
| [] => ([], Ok w)
| it :: l' =>
    match Bin.release it w with
    | Ok w' => release_all l' w'
    | Raise e w' => (it :: l', Raise e w')
    end
end.

(** Releasing every item whatever the earlier releases did: a release
  that throws is skipped over. *)
Fixpoint release_swallowing (l : list Item) (w : W) : W :=
match l with
| [] => w
| it :: l' =>
    match Bin.release it w with
    | Ok w' | Raise _ w' => release_swallowing l' w'
    end
end.

Definition attach (b : Bin.t) (r : Result W) : Result (Bin.t * W) :=
match r with
| Ok w => Ok (b, w)
| Raise e w => Raise e (b, w)
end.

(** The bin and the world that [destroy()] leaves behind, whether it
  returned or threw. *)
Definition after_destroy (r : Result (Bin.t * W)) : Bin.t * W :=
match r with
| Ok s | Raise _ s => s
end.

(** The bins a program can build: from [new Bin()] by [add] and
  [destroy], whether [destroy] returned or threw. *)
Inductive built : Bin.t → Prop :=
| built_new : built Bin.new
| built_add it b : built b → built (Bin.add it b)
| built_destroy b w r :
    built b → Bin.destroy b w = Some r →
    built (match r with Ok (b', _) | Raise _ (b', _) => b' end).
End Release.
End Vocabulary.
End BinSpec.

(** ** Overlays and worlds *)

Section WorldVocabulary.
Import Points Bones Labels Overlay.

(** The seven box points and the eleven skeleton joints of an overlay. *)
Definition box_points (o : Overlay.t) : list AttachmentRef :=
  let p := points o in [C p; T p; B p; BL p; BR p; TL p; TR p].

Definition skeleton_joints (o : Overlay.t) : list AttachmentRef :=
  let b := bones o in
  [face b; neck b; waist b; right_shoulder b; right_hand b; right_hip b;
   right_foot b; left_shoulder b; left_hand b; left_hip b; left_foot b].

Definition rig_points (o : Overlay.t) : list AttachmentRef :=
  box_points o ++ skeleton_joints o.

(** The points that [render()] passes to the camera, in that order: every
    rig point but the bottom centre [B]. *)
Definition projected_points (o : Overlay.t) : list AttachmentRef :=
  let p := points o in
  [C p; T p; BL p; BR p; TL p; TR p] ++ skeleton_joints o.

(** Depth of a rig point this frame, for a given camera. *)
Definition depth (host : Host) (camera : Camera) (a : AttachmentRef) : R :=
  Vector3.Z (camera (WorldPosition host a)).

(** The line primitives and the label container of an overlay. *)
Definition primitives (o : Overlay.t) : list GuiRef :=
  box_lines o ++ bone_lines o ++ [container (labels o)].

(** What the constructor puts into the bin, in that order. *)
Definition items_of (o : Overlay.t) : list Item :=
  (ItemInstance <$> primitives o) ++ [ItemFunction (DeleteInstance (instance o))].

(** The world after every item of the overlay has been released. *)
Definition released (o : Overlay.t) (w : World) : World :=
  with_instances (delete (instance o))
    (with_gui (λ g, foldl (λ g r, Gui.Destroy r g) g (primitives o)) w).

(** The GUI store after writing one property of each of [rs]. *)
Definition write_all (f : Gui.t → Gui.t) (rs : list GuiRef) (g : list Gui.t)
  : list Gui.t :=
  foldl (λ g r, alter f r g) g rs.

(** The geometry fields and the text of a GUI instance. *)
Definition geometry (g : Gui.t) : UDim2.t * UDim2.t * R * list Piece :=
  (Gui.Position g, Gui.Size g, Gui.Rotation g, Gui.Text g).

Record overlay_ok (w : World) (i : ESPRef) (o : Overlay.t) : Prop := {
  ok_box : length (box_lines o) = 4;
  ok_bone : length (bone_lines o) = 10;
  ok_refs : ∀ r, r ∈ data (labels o) :: primitives o → r < length (gui w);
  ok_bin : BinSpec.holds (bin o) (items_of o) ∨ BinSpec.holds (bin o) [];
  ok_conn : mkConnection (instance o) i true ∈ connections w;
}.

(** The invariant of the worlds the script can reach. *)
Record world_ok (w : World) : Prop := {
  ok_objects : ∀ i o, objects w !! i = Some o → overlay_ok w i o;
  ok_connections : ∀ c, c ∈ connections w →
    Connected c = true ∧
    ∃ o, objects w !! this c = Some o ∧ instance o = entity c;
  ok_instances : ∀ e i, instances w !! e = Some i →
    ∃ o, objects w !! i = Some o ∧ instance o = e ∧ live o = true;
}.

(** [w'] differs from [w] in the instance stores only, and no GUI instance
    has gone. *)
Record same_core (w w' : World) : Prop := {
  core_objects : objects w' = objects w;
  core_instances : instances w' = instances w;
  core_connections : connections w' = connections w;
  core_camera : CurrentCamera w' = CurrentCamera w;
  core_gui : length (gui w) ≤ length (gui w');
}.

(** A computation that touches the instance stores only, however it
    ends. *)
Definition stores_only {A} (m : M A) : Prop :=
  ∀ w, same_core w (world_of (m w)).

(** A computation that, unless it returns, has touched the instance
    stores only. *)
Definition stores_only_unless_Done {A} (m : M A) : Prop :=
  ∀ w, match m w with
       | Done _ _ => True
       | Fault _ w' | Blocked w' => same_core w w'
       end.
End WorldVocabulary.

(** ** A host that records releases *)

(** Items are numbered; a release appends the item to a log, except that
    calling callback [0] throws. *)
Module Probe.
#[export] Instance kinds : ItemKinds := {|
  callback := nat; connection := nat; thread := nat;
  disposable := nat; rbx_instance := nat;
|}.

Definition item := @Item kinds.
Definition log := list item.
Definition bin := @Bin.t kinds.
Definition fn (n : nat) : item := ItemFunction n.
Definition conn (n : nat) : item := ItemConnection n.
Definition inst (n : nat) : item := ItemInstance n.

#[export] Instance release : @Release log kinds := {|
  call f log :=
    if decide (f = 0) then Raise "callback failed" log
    else Ok (log ++ [ItemFunction f]);
  Disconnect c log := Ok (log ++ [ItemConnection c]);
  task_cancel th log := Ok (log ++ [ItemThread th]);
  destroy_method o log := Ok (log ++ [ItemDestroy o]);
  Destroy_method o log := Ok (log ++ [ItemInstance o]);
|}.

Definition destroy : bin → log → option (Result (bin * log)) := Bin.destroy.
Definition release_all : list item → log → list item * Result log :=
  BinSpec.release_all.
End Probe.

(** The reading of "release failures are swallowed": whatever the items,
    [destroy()] returns and every item has been released. *)
Definition swallows_failures (W : Type) `{Release W} : Prop :=
  ∀ (items : list Item) (w : W),
    ∃ b, Bin.destroy (BinSpec.add_all items Bin.new) w
         = Some (Ok (b, BinSpec.release_swallowing items w)).

(** The reading of "a second [destroy()] is a no-op, and after [destroy()]
    the bin is empty": whatever bin the program has built and however the
    first [destroy()] ended, the bin is empty afterwards and a second
    [destroy()] returns with bin and world as they are. *)
Definition second_destroy_always_a_no_op (W : Type) `{Release W} : Prop :=
  ∀ (b : Bin.t) (w : W) r,
    BinSpec.built (W:=W) b → Bin.destroy b w = Some r →
    let '(b1, w1) := BinSpec.after_destroy r in
    Bin.isEmpty b1 = true ∧ Bin.destroy b1 w1 = Some (Ok (b1, w1)).

(** The reading of "items added after a [destroy()] form a fresh list":
    however the [destroy()] ended, the bin then holds the items added
    since, and no others. *)
Definition added_items_always_a_fresh_list (W : Type) `{Release W} : Prop :=
  ∀ (b : Bin.t) (w : W) r (items : list Item),
    BinSpec.built (W:=W) b → Bin.destroy b w = Some r →
    BinSpec.pending (BinSpec.add_all items (BinSpec.after_destroy r).1) = items.

(** ** Reachable worlds and sample inputs *)

(** The worlds the script reaches from its start by handling events. *)
Definition reachable (w : World) : Prop :=
  ∃ events camera, w = run events (start camera).

(** A character with the parts of the classic six-part rig. *)
Definition R6_character (ref : ModelRef) (name : string) : Model.t :=
  Model.mk ref name
    [ ("Head"%string, Part (Vector3.new 2 1 1));
      ("Torso"%string, Part (Vector3.new 2 2 1));
      ("Left Arm"%string, Part (Vector3.new 1 2 1));
      ("Right Arm"%string, Part (Vector3.new 1 2 1));
      ("Left Leg"%string, Part (Vector3.new 1 2 1));
      ("Right Leg"%string, Part (Vector3.new 1 2 1));
      ("Humanoid"%string, Humanoid name);
      ("HumanoidRootPart"%string, Part (Vector3.new 2 2 1)) ].

(** An engine state with every attachment at depth [1] in front of an
    identity camera, except those listed in [behind_camera]. *)
Definition sample_host (behind_camera : list AttachmentRef) : Host :=
  mkHost (λ a, if bool_decide (a ∈ behind_camera)
               then Vector3.new 0 0 (-1) else Vector3.new 0 0 1)
         (λ _, 50%R) (λ _, 100%R) (λ _, Vector2.new 300 26).

Definition identity_camera : Camera := λ p, p.

(** The reading of "no entity has two live overlays". *)
Definition one_live_overlay_per_entity (w : World) : Prop :=
  ∀ i j oi oj,
    objects w !! i = Some oi → objects w !! j = Some oj →
    Overlay.instance oi = Overlay.instance oj →
    live oi = true → live oj = true → i = j.

(** The reading of "the subscription is cancelled by [destroy()]": no
    connection of the destroyed overlay is still connected. *)
Definition subscription_cancelled (overlay : ESPRef) (w : World) : Prop :=
  ∀ c, c ∈ connections w → this c = overlay → Connected c = false.

(** The reading of "a failing [render()] does not keep the others from being
    rendered": each frame, [render()] is called on every registered
    overlay. *)
Definition renders_every_overlay (host : Host) (w : World) : Prop :=
  (on_RenderStepped host w).1 = (map_to_list (instances w)).*2.

(** [render()] called on the overlays of a list one after the other, every
    call returning, from one world to the next. *)
Inductive rendered_in_turn (host : Host) : list ESPRef → World → World → Prop :=
  | rendered_none w : rendered_in_turn host [] w w
  | rendered_next i rest w w1 w2 :
      ESP.render host i w = Done tt w1 →
      rendered_in_turn host rest w1 w2 →
      rendered_in_turn host (i :: rest) w w2.

(** A computation that returns on every world with the given overlays and
    number of GUI instances, keeps both, and makes no call to the camera. *)
Definition keeps_shape (objs : list Overlay.t) (n : nat) (m : M unit) : Prop :=
  ∀ w, objects w = objs → length (gui w) = n →
    ∃ w', m w = Done tt w' ∧ same_core w w' ∧ length (gui w') = n ∧
          projections w' = projections w.

(** The cull of [render()] over a list of points: they are projected one
    after the other up to the first one behind the camera.  [culled] tells
    whether one is behind, [projected_until] lists the points projected. *)
Fixpoint culled (host : Host) (camera : Camera) (points : list AttachmentRef) : bool :=
  match points with
  | [] => false
  | a :: rest =>
      if ESP.behind (camera (WorldPosition host a)) then true
      else culled host camera rest
  end.

Fixpoint projected_until (host : Host) (camera : Camera)
    (points : list AttachmentRef) : list AttachmentRef :=
  match points with
  | [] => []
  | a :: rest =>
      a :: (if ESP.behind (camera (WorldPosition host a)) then []
            else projected_until host camera rest)
  end.

(** Two facts about the engine.  The corners [BL] and [BR] are children of
    the bottom centre [B] at the opposite offsets [(-LR, 0, 0)] and
    [(LR, 0, 0)], so the engine reports [B] halfway between them.  The
    depth that [WorldToViewportPoint] reports is the distance along the
    viewing direction: it is affine in the world position. *)
Definition halfway (a b : Vector3.t) : Vector3.t :=
  Vector3.new ((Vector3.X a + Vector3.X b) / 2)
              ((Vector3.Y a + Vector3.Y b) / 2)
              ((Vector3.Z a + Vector3.Z b) / 2)%R.

Definition bottom_centre_halfway (host : Host) (o : Overlay.t) : Prop :=
  let p := Overlay.points o in
  WorldPosition host (Points.B p)
  = halfway (WorldPosition host (Points.BL p)) (WorldPosition host (Points.BR p)).

Definition affine_depth (camera : Camera) : Prop :=
  ∃ nx ny nz d : R, ∀ p,
    Vector3.Z (camera p)
    = (nx * Vector3.X p + ny * Vector3.Y p + nz * Vector3.Z p + d)%R.

(** An engine state for a rig that is not rotated: the world position of
    an attachment is the position of the part at the root of its chain of
    parents plus the offsets along the chain. *)
Fixpoint chain_position (fuel : nat) (store : list Attachment.t)
    (part : ModelRef → string → Vector3.t) (a : AttachmentRef) : Vector3.t :=
  match fuel with
  | O => Vector3.new 0 0 0
  | S fuel' =>
      match store !! a with
      | Some x =>
          let base :=
            match Attachment.Parent x with
            | Some (InPart e n) => part e n
            | Some (InAttachment p) => chain_position fuel' store part p
            | None => Vector3.new 0 0 0
            end in
          let offset := Attachment.Position x in
          Vector3.new (Vector3.X base + Vector3.X offset)
                      (Vector3.Y base + Vector3.Y offset)
                      (Vector3.Z base + Vector3.Z offset)%R
      | None => Vector3.new 0 0 0
      end
  end.

Definition upright_host (part : Vector3.t) (w : World) : Host :=
  mkHost (chain_position (length (attachments w)) (attachments w) (λ _ _, part))
         (λ _, 50%R) (λ _, 100%R) (λ _, Vector2.new 300 26).

(** The reading of "[render()] projects each of the 7 box points and 11
    skeleton joints": in a frame in which no rig point is behind the
    camera, every rig point is among the points that [render()] hands to
    the camera. *)
Definition projects_every_rig_point : Prop :=
  ∀ w host i o camera w',
    reachable w → objects w !! i = Some o → CurrentCamera w = Some camera →
    (∀ a, a ∈ rig_points o → (0 <= depth host camera a)%R) →
    ESP.render host i w = Done tt w' →
    ∀ a, a ∈ rig_points o →
         a ∈ drop (length (projections w)) (projections w').

(** ** The rig *)

(** Attachment [a] has the local offset [offset] and the parent [parent]. *)
Definition attached (w : World) (a : AttachmentRef) (offset : Vector3.t)
    (parent : AttachmentParent) : Prop :=
  attachments w !! a = Some (Attachment.mk offset (Some parent)).

(** Plus or minus half the vertical extent of a part. *)
Definition half_extent (upper : bool) (size : Vector3.t) : Vector3.t :=
  Vector3.new 0 (if upper then Vector3.Y size / 2 else - (Vector3.Y size / 2))%R 0.

(** The eleven joints: the joint, the part it is attached to, the part whose
    [Size] the script reads for its offset, and whether it is the upper
    joint of its part. *)
Definition joint_table : list ((Bones.t → AttachmentRef) * string * string * bool) :=
  [ (Bones.face, "Head", "Head", true);
    (Bones.neck, "Torso", "Torso", true);
    (Bones.waist, "Torso", "Torso", false);
    (Bones.right_shoulder, "Right Arm", "Right Arm", true);
    (Bones.right_hand, "Right Arm", "Right Arm", false);
    (Bones.right_hip, "Right Leg", "Right Leg", true);
    (Bones.right_foot, "Right Leg", "Right Leg", false);
    (Bones.left_shoulder, "Left Arm", "Right Arm", true);
    (Bones.left_hand, "Left Arm", "Right Arm", false);
    (Bones.left_hip, "Left Leg", "Right Leg", true);
    (Bones.left_foot, "Left Leg", "Right Leg", false) ]%string.

(** The reading of "each joint is offset by half the vertical extent of its
    owning part". *)
Definition joints_at_half_extent_of_owning_part : Prop :=
  ∀ entity w bones w',
    ESP.constructBones entity w = Done bones w' →
    ∀ joint owner measured upper,
      (joint, owner, measured, upper) ∈ joint_table →
      ∃ size,
        Model.FindFirstChild owner entity = Some (Part size) ∧
        attached w' (joint bones) (half_extent upper size)
                 (InPart (Model.ref entity) owner).

(** A rig whose left arm is twice as long as its right arm. *)
Definition long_left_arm_character : Model.t :=
  Model.mk 9 "Lopsided"
    [ ("Head"%string, Part (Vector3.new 2 1 1));
      ("Torso"%string, Part (Vector3.new 2 2 1));
      ("Left Arm"%string, Part (Vector3.new 1 4 1));
      ("Right Arm"%string, Part (Vector3.new 1 2 1));
      ("Left Leg"%string, Part (Vector3.new 1 2 1));
      ("Right Leg"%string, Part (Vector3.new 1 2 1));
      ("Humanoid"%string, Humanoid "Lopsided");
      ("HumanoidRootPart"%string, Part (Vector3.new 2 2 1)) ].

(* ================================================================== *)
(** * Part II, continued: vocabulary of the further properties         *)
(* ================================================================== *)

(** ** Invariants of computations *)

(** [keeps I P m]: started in a world that satisfies [I], the computation
    [m] ends, however it ends, in a world that satisfies [I], and a value
    it returns satisfies [P]. *)
Definition keeps {A} (I : World → Prop) (P : A → Prop) (m : M A) : Prop :=
  ∀ w, I w →
    match m w with
    | Done a w' => I w' ∧ P a
    | Fault _ w' | Blocked w' => I w'
    end.

(** [gui_frame R w0 w]: [w] has the attachments, overlays, registry,
    connections, camera and GUI instances of [w0]; the properties of the
    GUI instance [r] may differ, as [R r] allows. *)
Record gui_frame (R : GuiRef → Gui.t → Gui.t → Prop) (w0 w : World) : Prop := {
  frame_attachments : attachments w = attachments w0;
  frame_objects : objects w = objects w0;
  frame_instances : instances w = instances w0;
  frame_connections : connections w = connections w0;
  frame_camera : CurrentCamera w = CurrentCamera w0;
  frame_length : length (gui w) = length (gui w0);
  frame_gui : ∀ r g0, gui w0 !! r = Some g0 →
                ∃ g, gui w !! r = Some g ∧ R r g0 g;
}.

(** What [updateLineFromPoints] makes of a line: position, length and
    rotation are set, the thickness is carried over. *)
Definition placed (position : UDim2.t) (length angle : R) (g : Gui.t) : Gui.t :=
  Gui.with_Rotation angle
    (Gui.with_Size
       (UDim2.new 0 length 0 (UDim.Offset (UDim2.Y (Gui.Size g))))
       (Gui.with_Position position g)).

(** Class, parent, destroyed flag and thickness of a GUI instance. *)
Definition same_structure (g0 g : Gui.t) : Prop :=
  Gui.className g = Gui.className g0 ∧
  Gui.Parent g = Gui.Parent g0 ∧
  Gui.Destroyed g = Gui.Destroyed g0 ∧
  UDim.Offset (UDim2.Y (Gui.Size g)) = UDim.Offset (UDim2.Y (Gui.Size g0)).

(** The property writes of [render()]: visibility, the placing of a line,
    the label position and the label text. *)
Inductive render_writes (g : Gui.t) : Gui.t → Prop :=
  | writes_Visible v : render_writes g (Gui.with_Visible v g)
  | writes_placed p d a : render_writes g (placed p d a g)
  | writes_Position p : render_writes g (Gui.with_Position p g)
  | writes_Text t : render_writes g (Gui.with_Text t g).

(** The GUI instances that [render()] writes to. *)
Definition written (o : Overlay.t) : list GuiRef :=
  Labels.data (Overlay.labels o) :: primitives o.

(** ** What [render()] draws *)

Section Drawing.
Import Points Bones Labels Overlay.
Local Open Scope R_scope.











End Drawing.

(** ** Removal of an entity *)

(** [removed_so_far e w w']: what [destroy()] calls for overlays of the
    entity [e] make of a world.  No GUI instance is created or removed and
    none that is destroyed comes back; the overlays keep everything but
    their bins; an overlay that is not live, or belongs to another entity,
    is as it was. *)
Record removed_so_far (e : ModelRef) (w w' : World) : Prop := {
  rs_gui_length : length (gui w') = length (gui w);
  rs_destroyed : ∀ r g, gui w !! r = Some g → Gui.Destroyed g = true →
                   ∃ g', gui w' !! r = Some g' ∧ Gui.Destroyed g' = true;
  rs_objects : ∀ i o, objects w !! i = Some o →
                 ∃ b, objects w' !! i = Some (Overlay.with_bin b o) ∧
                      (live o = false → b = Overlay.bin o);
  rs_others : ∀ i o, objects w !! i = Some o → Overlay.instance o ≠ e →
                objects w' !! i = Some o;
}.

(** ** What the constructor needs *)

(** [returns P m]: whatever the world, [m] returns, with a value that
    satisfies [P]. *)
Definition returns {A} (P : A → Prop) (m : M A) : Prop :=
  ∀ w, ∃ a w', m w = Done a w' ∧ P a.

Definition is_part (name : string) (m : Model.t) : Prop :=
  ∃ size, Model.FindFirstChild name m = Some (Part size).

(** The characters for which [new ESP(character)] returns: a humanoid; a
    head, a torso, a right arm and a right leg that are parts; a left arm
    and a left leg, of whatever kind; and a root part that is a part, when
    there is one. *)
Definition constructible (m : Model.t) : Prop :=
  (∃ displayName, Model.FindFirstChild "Humanoid" m = Some (Humanoid displayName)) ∧
  is_part "Head" m ∧ is_part "Torso" m ∧
  is_part "Right Arm" m ∧ is_part "Right Leg" m ∧
  is_Some (Model.FindFirstChild "Left Arm" m) ∧
  is_Some (Model.FindFirstChild "Left Leg" m) ∧
  (Model.FindFirstChild "HumanoidRootPart" m = None ∨ is_part "HumanoidRootPart" m).

(** A line as [constructLines()] leaves it: a hidden frame in the screen
    GUI. *)
Definition hidden_line : Gui.t :=
  Gui.with_Parent (Some InScreenGui) (Gui.with_Visible false (Gui.fresh Frame)).


(* ================================================================== *)
(** * Part III: properties                                             *)
(* ================================================================== *)

(** ** The bin *)

Section BinFacts.
Context `{ItemKinds}.
Import BinSpec.

Lemma chain_bound nodes hd cells p :
  chain nodes hd cells → p ∈ cells.*1 → p < length nodes.
Proof.
  induction 1 as [|q it nx cells Hq _ IH]; simpl; [by intros ?%elem_of_nil|].
  intros [->|?]%elem_of_cons; [by eapply lookup_lt_Some|auto].
Qed.

Lemma chain_length nodes hd cells :
  chain nodes hd cells → NoDup cells.*1 → length cells ≤ length nodes.
Proof.
  intros Hc Hnd.
  assert (cells.*1 ⊆+ seq 0 (length nodes)) as Hsub.
  { apply NoDup_submseteq; [done|].
    intros p Hp. apply elem_of_seq. split; [lia|].
    simpl. by eapply chain_bound. }
  apply submseteq_length in Hsub.
  by rewrite length_fmap, length_seq in Hsub.
Qed.

Lemma chain_suffix_nodup (cells rest : list (nat * Item)) :
  suffix rest cells → NoDup cells.*1 → NoDup rest.*1.
Proof.
  intros [pre ->]. rewrite fmap_app. by intros [_ [_ ?]]%NoDup_app.
Qed.

(** Appending a node behind the last node of a chain. *)
Lemma chain_snoc nodes hd cells tl it :
  chain nodes hd cells →
  NoDup cells.*1 →
  last cells.*1 = Some tl →
  chain (alter (Bin.set_next (Some (length nodes))) tl
               (nodes ++ [Bin.mkNode it None]))
        hd (cells ++ [(length nodes, it)]).
Proof.
  induction 1 as [|p it0 nx cells Hp Hc IH]; simpl; [done|].
  intros [Hnotin Hnd]%NoDup_cons Hlast.
  assert (p < length nodes) as Hlt by by eapply lookup_lt_Some.
  destruct cells as [|c cells].
  - inversion Hc; subst. simpl in Hlast. injection Hlast as <-.
    econstructor.
    + rewrite list_lookup_alter_eq, lookup_app_l, Hp by done. done.
    + econstructor; [|constructor].
      rewrite list_lookup_alter_ne by lia.
      by rewrite lookup_app_r, Nat.sub_diag by lia.
  - assert (last (c :: cells).*1 = Some tl) as Hlast' by done.
    econstructor; [|by apply IH].
    rewrite list_lookup_alter_ne, lookup_app_l by
      (done || intros ->; apply Hnotin; by eapply last_Some_elem_of).
    done.
Qed.

Lemma holds_new : holds Bin.new [].
Proof.
  exists []. repeat split; simpl; try done; constructor.
Qed.

Lemma holds_add b l it : holds b l → holds (Bin.add it b) (l ++ [it]).
Proof.
  destruct b as [nodes hd tail].
  intros (cells & Hc & -> & Hnd & Hlast & Htl); simpl in *.
  exists (cells ++ [(length nodes, it)]).
  assert (length nodes ∉ cells.*1) as Hfresh.
  { intros Hin. eapply chain_bound in Hin; [|done]. lia. }
  unfold Bin.add; simpl. split_and!.
  - destruct (last cells.*1) as [tl|] eqn:Hl.
    + rewrite (Hlast tl eq_refl).
      inversion Hc as [Hh|p it0 nx cs Hp Hc' Hh]; subst; [done|].
      by apply chain_snoc.
    + apply last_None in Hl. apply fmap_nil_inv in Hl as ->.
      inversion Hc as [Hh|]; subst. simpl.
      econstructor; [|constructor].
      destruct tail as [tl|].
      * rewrite list_lookup_alter_ne by (specialize (Htl _ eq_refl); lia).
        by rewrite lookup_app_r, Nat.sub_diag by lia.
      * by rewrite lookup_app_r, Nat.sub_diag by lia.
  - by rewrite fmap_app.
  - rewrite fmap_app. simpl. apply NoDup_app. split_and!; [done| |apply NoDup_singleton].
    intros p Hp ->%list_elem_of_singleton. done.
  - rewrite fmap_app. simpl. rewrite last_snoc. by intros tl [= <-].
  - intros tl [= <-].
    destruct tail; rewrite ?length_alter, length_app; simpl; lia.
Qed.

Lemma holds_add_all items b l :
  holds b l → holds (add_all items b) (l ++ items).
Proof.
  revert b l. induction items as [|it items IH]; simpl; intros b l Hb.
  - by rewrite app_nil_r.
  - replace (l ++ it :: items) with ((l ++ [it]) ++ items) by by rewrite <-app_assoc.
    apply IH. by apply holds_add.
Qed.

Lemma holds_isEmpty b l : holds b l → (Bin.isEmpty b = true ↔ l = []).
Proof.
  intros (cells & Hc & -> & _). unfold Bin.isEmpty.
  inversion Hc; simpl; split; done.
Qed.

Lemma items_from_chain fuel nodes hd cells :
  chain nodes hd cells → length cells ≤ fuel →
  items_from fuel nodes hd = cells.*2.
Proof.
  intros Hc. revert fuel.
  induction Hc as [|p it nx cells Hp _ IH]; intros [|fuel] Hf; simpl in *;
    try done; try lia.
  rewrite Hp. simpl. f_equal. apply IH. lia.
Qed.

Lemma holds_pending b l : holds b l → pending b = l.
Proof.
  intros (cells & Hc & -> & Hnd & _). unfold pending.
  eapply items_from_chain; [done|]. by eapply chain_length.
Qed.
End BinFacts.

Section BinDestroyFacts.
Context `{ItemKinds} {W : Type} `{!Release W}.
Import BinSpec.

(** A [destroy()] that returns leaves [head] undefined, whatever the bin. *)
Lemma destroy_loop_returned fuel hd b w b' w' :
  Bin.destroy_loop fuel hd b w = Some (Ok (b', w')) →
  Bin.head b = hd → Bin.head b' = None.
Proof.
  revert hd b w. induction fuel as [|fuel IH]; intros [p|] b w; simpl;
    try (intros [= <- <-] ?; done); try done.
  destruct (Bin.nodes b !! p) as [n|]; [|done].
  destruct (Bin.release (Bin.item n) w) as [w1|e w1]; [|done].
  intros Hloop _. by eapply IH.
Qed.

Lemma destroy_returned b w b' w' :
  Bin.destroy b w = Some (Ok (b', w')) → Bin.head b' = None.
Proof. intros Hd. by eapply destroy_loop_returned. Qed.

(** [destroy()] on a bin whose [head] is undefined does nothing. *)
Lemma destroy_empty b w : Bin.head b = None → Bin.destroy b w = Some (Ok (b, w)).
Proof.
  unfold Bin.destroy. intros ->. by destruct (length (Bin.nodes b)).
Qed.

(** The loop walks the chain and releases item after item until one
    release throws. *)
Lemma destroy_loop_chain nodes tl cells : ∀ fuel hd w,
  chain nodes hd cells → length cells ≤ fuel →
  ∃ hd' rest,
    Bin.destroy_loop fuel hd (Bin.mk nodes hd tl) w
    = Some (attach (Bin.mk nodes hd' tl) (release_all cells.*2 w).2) ∧
    chain nodes hd' rest ∧
    rest.*2 = (release_all cells.*2 w).1 ∧
    suffix rest cells.
Proof.
  induction cells as [|[p it] cells IH]; intros fuel hd w Hc Hf;
    inversion Hc as [|? ? nx ? Hp Hc']; subst; simpl in *.
  - exists None, []. destruct fuel; split_and!; try done; constructor.
  - destruct fuel as [|fuel]; [lia|]. simpl. rewrite Hp. simpl.
    destruct (Bin.release it w) as [w1|e w1] eqn:Hr; simpl.
    + destruct (IH fuel nx w1 Hc' ltac:(lia)) as (hd' & rest & Hd & ? & ? & ?).
      exists hd', rest. split_and!; try done. by apply suffix_cons_r.
    + exists (Some p), ((p, it) :: cells). split_and!; done.
Qed.

(** [destroy()] against the representation invariant. *)
Lemma destroy_holds b l w :
  holds b l →
  ∃ b', Bin.destroy b w = Some (attach b' (release_all l w).2) ∧
        holds b' (release_all l w).1 ∧
        Bin.nodes b' = Bin.nodes b ∧ Bin.tail b' = Bin.tail b.
Proof.
  destruct b as [nodes hd tl].
  intros (cells & Hc & -> & Hnd & Hlast & Htl); simpl in *.
  destruct (destroy_loop_chain nodes tl cells (length nodes) hd w Hc)
    as (hd' & rest & Hd & Hc' & Hrest & Hsuf); [by eapply chain_length|].
  exists (Bin.mk nodes hd' tl). split_and!; try done.
  exists rest. simpl. split_and!; try done.
  - by eapply chain_suffix_nodup.
  - intros t Ht. apply Hlast. destruct Hsuf as [pre ->].
    by rewrite fmap_app, last_app, Ht.
Qed.

Lemma built_holds b : built b → ∃ l, holds b l.
Proof.
  induction 1 as [|it b _ [l Hl]|b w r _ [l Hl] Hd].
  - eexists. apply holds_new.
  - eexists. by apply holds_add.
  - destruct (destroy_holds b l w Hl) as (b' & Hd' & Hb' & _).
    rewrite Hd' in Hd. injection Hd as <-.
    exists (release_all l w).1. by destruct (release_all l w).2.
Qed.
End BinDestroyFacts.

(** ** Computations on the world *)

Section MonadFacts.
Lemma bind_Done {A B} (m : M A) (k : A → M B) w a w' :
  m w = Done a w' → (m ≫= k) w = k a w'.
Proof. unfold mbind, M_bind. by intros ->. Qed.

Lemma bind_inv_Done {A B} (m : M A) (k : A → M B) w b w' :
  (m ≫= k) w = Done b w' → ∃ a w1, m w = Done a w1 ∧ k a w1 = Done b w'.
Proof.
  unfold mbind, M_bind. destruct (m w) as [a w1| |]; [eauto|done..].
Qed.

Lemma same_core_refl w : same_core w w.
Proof. by split. Qed.

Lemma same_core_trans w1 w2 w3 :
  same_core w1 w2 → same_core w2 w3 → same_core w1 w3.
Proof.
  intros [] []. split; try congruence. lia.
Qed.

Lemma stores_only_ret {A} (a : A) : stores_only (mret a).
Proof. intros w. apply same_core_refl. Qed.

Lemma stores_only_bind {A B} (m : M A) (k : A → M B) :
  stores_only m → (∀ a, stores_only (k a)) → stores_only (m ≫= k).
Proof.
  intros Hm Hk w. specialize (Hm w). unfold mbind, M_bind.
  destruct (m w) as [a w1|e w1|w1]; simpl in *; [|done..].
  eapply same_core_trans; [done|apply Hk].
Qed.

Lemma stores_only_throw {A} e : stores_only (throw (A:=A) e).
Proof. intros w. apply same_core_refl. Qed.

Lemma stores_only_block {A} : stores_only (block (A:=A)).
Proof. intros w. apply same_core_refl. Qed.

Lemma stores_only_get : stores_only get.
Proof. intros w. apply same_core_refl. Qed.

Lemma stores_only_new_Attachment : stores_only new_Attachment.
Proof. intros w. by split. Qed.

Lemma stores_only_new_Instance cls : stores_only (new_Instance cls).
Proof. intros w. split; simpl; try done. rewrite length_app. lia. Qed.

Lemma stores_only_set_attachment a f : stores_only (set_attachment a f).
Proof. intros w. by split. Qed.

Lemma stores_only_set_gui r f : stores_only (set_gui r f).
Proof. intros w. split; simpl; try done. by rewrite length_alter. Qed.

Lemma stores_only_get_gui r : stores_only (get_gui r).
Proof.
  intros w. unfold get_gui. destruct (gui w !! r); apply same_core_refl.
Qed.

Lemma stores_only_WaitForChild entity name : stores_only (WaitForChild entity name).
Proof.
  unfold WaitForChild. destruct (Model.FindFirstChild name entity);
    [apply stores_only_ret|apply stores_only_block].
Qed.

Lemma stores_only_WaitForChild_timeOut entity name t :
  stores_only (WaitForChild_timeOut entity name t).
Proof. apply stores_only_ret. Qed.

Lemma stores_only_Size_of c : stores_only (Size_of c).
Proof.
  unfold Size_of. destruct (snd c); [apply stores_only_ret|apply stores_only_throw].
Qed.

Lemma stores_only_DisplayName_of c : stores_only (DisplayName_of c).
Proof.
  unfold DisplayName_of. destruct (snd c); [apply stores_only_throw|apply stores_only_ret].
Qed.

Lemma stores_only_forEach {A} (l : list A) f :
  (∀ x, stores_only (f x)) → stores_only (forEach l f).
Proof.
  intros Hf. induction l as [|x l IH]; simpl.
  - apply stores_only_ret.
  - apply stores_only_bind; [apply Hf|by intros _].
Qed.

Lemma stores_only_index {A} (l : list A) i : stores_only (index l i).
Proof.
  unfold index. destruct (l !! i); [apply stores_only_ret|apply stores_only_throw].
Qed.

Lemma stores_only_self this : stores_only (ESP.self this).
Proof.
  intros w. unfold ESP.self. destruct (objects w !! this); apply same_core_refl.
Qed.

Lemma stores_only_project host a : stores_only (ESP.project host a).
Proof.
  intros w. unfold ESP.project. destruct (CurrentCamera w); [by split|apply same_core_refl].
Qed.
End MonadFacts.

Create HintDb stores discriminated.
#[export] Hint Resolve stores_only_ret stores_only_throw stores_only_block
  stores_only_get stores_only_new_Attachment stores_only_new_Instance
  stores_only_set_attachment stores_only_set_gui stores_only_get_gui
  stores_only_WaitForChild stores_only_WaitForChild_timeOut stores_only_Size_of
  stores_only_DisplayName_of stores_only_index stores_only_self
  stores_only_project : stores.

(** Walks down a computation, one bind after the other. *)
Ltac stores_only :=
  repeat first
    [ progress intros
    | apply stores_only_bind
    | apply stores_only_forEach
    | solve [auto with stores]
    | match goal with
      | |- stores_only (match ?x with _ => _ end) => destruct x
      | |- stores_only (if ?b then _ else _) => destruct b
      | |- stores_only (let '(_, _) := ?p in _) => destruct p
      end ].

Section ProcedureFrames.

Lemma stores_only_setVisible this v : stores_only (ESP.setVisible this v).
Proof. unfold ESP.setVisible. stores_only. Qed.

Lemma stores_only_update host this : stores_only (ESP.update host this).
Proof. unfold ESP.update. stores_only. Qed.

Lemma stores_only_constructPoints entity : stores_only (ESP.constructPoints entity).
Proof. unfold ESP.constructPoints. stores_only. Qed.

Lemma stores_only_constructBones entity : stores_only (ESP.constructBones entity).
Proof. unfold ESP.constructBones. stores_only. Qed.

Lemma stores_only_new_line : stores_only ESP.new_line.
Proof. unfold ESP.new_line. stores_only. Qed.

Lemma stores_only_new_lines n : ∀ lines bin, stores_only (ESP.new_lines n lines bin).
Proof.
  induction n as [|n IH]; intros lines bin; simpl.
  - apply stores_only_ret.
  - apply stores_only_bind; [apply stores_only_new_line|intros; apply IH].
Qed.

Lemma stores_only_constructLines bin : stores_only (ESP.constructLines bin).
Proof.
  unfold ESP.constructLines.
  apply stores_only_bind; [apply stores_only_new_lines|intros [? ?]].
  apply stores_only_bind; [apply stores_only_new_lines|intros [? ?]].
  apply stores_only_ret.
Qed.

Lemma stores_only_render host this : stores_only (ESP.render host this).
Proof. unfold ESP.render. stores_only; apply stores_only_setVisible. Qed.

Lemma stores_only_setLabels labels entity humanoid bin :
  stores_only (ESP.setLabels labels entity humanoid bin).
Proof. unfold ESP.setLabels. stores_only. Qed.
End ProcedureFrames.

(** ** The invariant of reachable worlds *)

Section WorldFacts.
Import Points Bones Labels Overlay BinSpec.

Lemma world_ok_same_core w w' : world_ok w → same_core w w' → world_ok w'.
Proof.
  intros [Ho Hc Hi] [Eo Ei Ec _ Hg]. split.
  - intros i o Hio. rewrite Eo in Hio. destruct (Ho i o Hio) as [? ? Hr ? ?].
    split; try done.
    + intros r Hin. specialize (Hr r Hin). lia.
    + by rewrite Ec.
  - intros c Hin. rewrite Ec in Hin. rewrite Eo. by apply Hc.
  - intros e i Hei. rewrite Ei in Hei. rewrite Eo. by apply Hi.
Qed.

Lemma world_ok_start camera : world_ok (start camera).
Proof.
  split; simpl.
  - intros i o Hio. by rewrite lookup_nil in Hio.
  - by intros c ?%elem_of_nil.
  - intros e i Hei. by rewrite lookup_empty in Hei.
Qed.

(** *** [Destroy()] on GUI instances *)

Lemma Destroy_length r store : length (Gui.Destroy r store) = length store.
Proof. unfold Gui.Destroy. by rewrite length_imap. Qed.

Lemma under_self fuel store r : Gui.under fuel store r r = true.
Proof. destruct fuel; simpl; by rewrite decide_True. Qed.

Lemma Destroy_lookup r store j :
  Gui.Destroy r store !! j
  = (λ g, if Gui.under (length store) store r j then Gui.destroyed g else g)
      <$> store !! j.
Proof. unfold Gui.Destroy. by rewrite list_lookup_imap. Qed.

Lemma Destroy_self r store g :
  store !! r = Some g →
  ∃ g', Gui.Destroy r store !! r = Some g' ∧ Gui.Destroyed g' = true.
Proof.
  intros Hr. rewrite Destroy_lookup, Hr, under_self. simpl. eauto.
Qed.

Lemma Destroy_keeps r store j g :
  store !! j = Some g → Gui.Destroyed g = true →
  ∃ g', Gui.Destroy r store !! j = Some g' ∧ Gui.Destroyed g' = true.
Proof.
  intros Hj Hd. rewrite Destroy_lookup, Hj. simpl.
  destruct (Gui.under _ _ _ _); eauto.
Qed.

Lemma Destroy_all_length rs store :
  length (foldl (λ g r, Gui.Destroy r g) store rs) = length store.
Proof.
  revert store. induction rs as [|r rs IH]; intros store; simpl; [done|].
  by rewrite IH, Destroy_length.
Qed.

Lemma Destroy_all_keeps rs : ∀ store j g,
  store !! j = Some g → Gui.Destroyed g = true →
  ∃ g', foldl (λ g r, Gui.Destroy r g) store rs !! j = Some g'
        ∧ Gui.Destroyed g' = true.
Proof.
  induction rs as [|r rs IH]; intros store j g Hj Hd; simpl; [eauto|].
  destruct (Destroy_keeps r store j g Hj Hd) as (g' & ? & ?). by eapply IH.
Qed.

Lemma Destroy_all_destroys rs : ∀ store r,
  r ∈ rs → r < length store →
  ∃ g', foldl (λ g r, Gui.Destroy r g) store rs !! r = Some g'
        ∧ Gui.Destroyed g' = true.
Proof.
  induction rs as [|r0 rs IH]; intros store r Hin Hlt; simpl.
  - by apply elem_of_nil in Hin.
  - destruct (decide (r = r0)) as [->|Hne].
    + destruct (lookup_lt_is_Some_2 store r0 Hlt) as [g Hg].
      destruct (Destroy_self r0 store g Hg) as (g' & ? & ?).
      by eapply Destroy_all_keeps.
    + apply elem_of_cons in Hin as [?|Hin]; [done|].
      apply IH; [done|]. by rewrite Destroy_length.
Qed.

(** *** Releasing the items of an overlay *)

Lemma release_all_instances rs rest w :
  release_all ((ItemInstance <$> rs) ++ rest) w
  = release_all rest (with_gui (λ g, foldl (λ g r, Gui.Destroy r g) g rs) w).
Proof.
  revert w. induction rs as [|r rs IH]; intros w; simpl.
  - by destruct w.
  - by rewrite IH.
Qed.

Lemma release_all_items_of o w :
  release_all (items_of o) w = ([], Ok (released o w)).
Proof. unfold items_of. by rewrite release_all_instances. Qed.

Lemma with_bin_id o : with_bin (bin o) o = o.
Proof. by destruct o. Qed.

End WorldFacts.

Section DestroyFacts.
Import Points Bones Labels Overlay BinSpec.

Lemma alter_same {A} (f : A → A) (l : list A) i x :
  l !! i = Some x → f x = x → alter f i l = l.
Proof.
  intros Hi Hf. apply list_eq. intros j.
  destruct (decide (i = j)) as [<-|Hne].
  - by rewrite list_lookup_alter_eq, Hi; simpl; rewrite Hf.
  - by rewrite list_lookup_alter_ne.
Qed.

Lemma live_holds o :
  holds (bin o) (items_of o) ∨ holds (bin o) [] →
  live o = true → holds (bin o) (items_of o).
Proof.
  intros [?|Hn] Hl; [done|].
  apply holds_isEmpty in Hn. unfold live in Hl.
  destruct (Bin.isEmpty (bin o)); [done|]. by destruct Hn as [_ Hn]; discriminate Hn.
Qed.

Lemma holds_items_live o : holds (bin o) (items_of o) → live o = true.
Proof.
  intros Hh. unfold live. destruct (Bin.isEmpty (bin o)) eqn:He; [|done].
  apply (holds_isEmpty _ _ Hh) in He. unfold items_of in He.
  by apply app_nil in He as [_ ?].
Qed.

(** [destroy()] on an overlay whose bin is empty changes nothing. *)
Lemma destroy_dead w i o :
  objects w !! i = Some o → Bin.isEmpty (bin o) = true →
  ESP.destroy i w = Done tt w.
Proof.
  intros Hi He. unfold ESP.destroy, mbind, M_bind, ESP.self. rewrite Hi.
  rewrite destroy_empty by (unfold Bin.isEmpty in He; by destruct (Bin.head (bin o))).
  f_equal. unfold with_objects.
  rewrite (alter_same _ _ _ o Hi (with_bin_id o)).
  by destruct w.
Qed.

(** [destroy()] on a live overlay releases its items and empties its
    bin. *)
Lemma destroy_live w i o :
  objects w !! i = Some o → holds (bin o) (items_of o) →
  ∃ b', ESP.destroy i w
        = Done tt (with_objects (alter (with_bin b') i) (released o w))
        ∧ holds b' [] ∧ Bin.isEmpty b' = true.
Proof.
  intros Hi Hh. unfold ESP.destroy, mbind, M_bind, ESP.self. rewrite Hi.
  destruct (destroy_holds (bin o) _ w Hh) as (b' & Hd & Hb' & _).
  rewrite release_all_items_of in Hd, Hb'. simpl in *.
  rewrite Hd. exists b'. split_and!; try done.
  by apply (holds_isEmpty _ _ Hb').
Qed.

Lemma world_ok_destroy_live w i o b' :
  world_ok w → objects w !! i = Some o → holds b' [] →
  world_ok (with_objects (alter (with_bin b') i) (released o w)).
Proof.
  intros [Ho Hc Hi] Hio Hb'. split; simpl.
  - intros j o' Hj. destruct (decide (i = j)) as [<-|Hne].
    + rewrite list_lookup_alter_eq, Hio in Hj. injection Hj as <-.
      destruct (Ho i o Hio) as [? ? Hr ? ?]. split; simpl; try done; [|by right].
      intros r Hin. rewrite Destroy_all_length. by apply Hr.
    + rewrite list_lookup_alter_ne in Hj by done.
      destruct (Ho j o' Hj) as [? ? Hr ? ?]. split; simpl; try done.
      intros r Hin. rewrite Destroy_all_length. by apply Hr.
  - intros c Hin. destruct (Hc c Hin) as (? & o' & Ho' & ?). split; [done|].
    destruct (decide (i = this c)) as [Heq|Hne].
    + rewrite <-Heq in *. rewrite list_lookup_alter_eq, Hio. simpl.
      exists (with_bin b' o). split; [done|]. simpl. congruence.
    + rewrite list_lookup_alter_ne by done. eauto.
  - intros e j Hej. apply lookup_delete_Some in Hej as [Hne Hej].
    destruct (Hi e j Hej) as (o' & Ho' & Hinst & Hl).
    assert (i ≠ j) as Hij by (intros <-; congruence).
    rewrite list_lookup_alter_ne by done. eauto.
Qed.

(** [destroy()] returns on every overlay of a reachable world. *)
Lemma destroy_ok w i o :
  world_ok w → objects w !! i = Some o →
  ∃ w', ESP.destroy i w = Done tt w' ∧ world_ok w' ∧
        connections w' = connections w ∧
        (instances w' = delete (instance o) (instances w)
         ∨ instances w' = instances w ∧ live o = false) ∧
        (live o = true → instances w' = delete (instance o) (instances w)).
Proof.
  intros Hw Hio. destruct (ok_objects w Hw i o Hio) as [_ _ _ Hbin _].
  destruct (live o) eqn:Hl.
  - apply live_holds in Hbin; [|done].
    destruct (destroy_live w i o Hio Hbin) as (b' & -> & ? & ?).
    eexists. split_and!; try done; [by apply world_ok_destroy_live|by left].
  - exists w. rewrite (destroy_dead w i o Hio).
    + split_and!; try done. by right.
    + unfold live in Hl. by destruct (Bin.isEmpty (bin o)).
Qed.
End DestroyFacts.

(** Splits a computation that returned at its first bind. *)
Ltac inv_bind H :=
  let a := fresh "a" in
  let w := fresh "w" in
  let H1 := fresh "Hstep" in
  apply bind_inv_Done in H as (a & w & H1 & H).

Tactic Notation "inv_bind_as" hyp(H) simple_intropattern(a) ident(w) ident(Hs) :=
  apply bind_inv_Done in H as (a & w & Hs & H).

Section ConstructorFacts.
Import Points Bones Labels Overlay BinSpec.

Lemma stores_only_Done {A} (m : M A) w a w' :
  stores_only m → m w = Done a w' → same_core w w'.
Proof. intros Hm Hw. specialize (Hm w). by rewrite Hw in Hm. Qed.

Lemma new_Instance_Done cls w r w' :
  new_Instance cls w = Done r w' →
  r = length (gui w) ∧ length (gui w') = S (length (gui w)) ∧ same_core w w'.
Proof.
  intros Hn. pose proof (stores_only_Done _ _ _ _ (stores_only_new_Instance cls) Hn).
  injection Hn as <- <-. split_and!; try done.
  simpl. rewrite length_app. simpl. lia.
Qed.

Lemma new_line_Done w r w' :
  ESP.new_line w = Done r w' →
  r = length (gui w) ∧ length (gui w') = S (length (gui w)) ∧ same_core w w'.
Proof.
  intros Hn. pose proof (stores_only_Done _ _ _ _ stores_only_new_line Hn).
  unfold ESP.new_line in Hn. inv_bind Hn.
  apply new_Instance_Done in Hstep as (-> & Hlen & _).
  injection Hn as <- <-. split_and!; try done.
  simpl. by rewrite !length_alter.
Qed.

Lemma new_lines_Done n : ∀ lines bin w lines' bin' w',
  ESP.new_lines n lines bin w = Done (lines', bin') w' →
  lines' = lines ++ seq (length (gui w)) n ∧
  bin' = add_all (ItemInstance <$> seq (length (gui w)) n) bin ∧
  length (gui w') = length (gui w) + n.
Proof.
  induction n as [|n IH]; intros lines bin w lines' bin' w' Hn; simpl in Hn.
  - injection Hn as <- <- <-. simpl. by rewrite app_nil_r, Nat.add_0_r.
  - inv_bind Hn. apply new_line_Done in Hstep as (-> & Hlen & _).
    apply IH in Hn as (-> & -> & ->). rewrite Hlen. simpl.
    split_and!; [by rewrite <-app_assoc|done|lia].
Qed.

Lemma constructLines_unfold bin :
ESP.constructLines bin =
  ('(box_lines, bin) ← ESP.new_lines 4 [] bin ;
   '(bone_lines, bin) ← ESP.new_lines 10 [] bin ;
   mret (box_lines, bone_lines, bin)).
Proof. reflexivity. Qed.

Lemma constructLines_Done bin w box bone bin' w' :
  ESP.constructLines bin w = Done (box, bone, bin') w' →
  ∃ n, length (gui w) ≤ n ∧
    box = seq (length (gui w)) 4 ∧ bone = seq n 10 ∧
    bin' = add_all (ItemInstance <$> (box ++ bone)) bin ∧
    n + 10 = length (gui w').
Proof.
  intros Hc. rewrite constructLines_unfold in Hc.
  inv_bind Hc. destruct a as [box0 bin0].
  apply new_lines_Done in Hstep as (-> & -> & Hlen0).
  inv_bind Hc. destruct a as [bone0 bin1].
  apply new_lines_Done in Hstep as (-> & -> & Hlen1).
  injection Hc as <- <- <- <-.
  exists (length (gui w0)).
split_and!; [lia|reflexivity|reflexivity| |lia].
cbv [add_all foldl fmap list_fmap app]. reflexivity.
Qed.

Lemma setLabels_Done labels entity humanoid bin w bin' w' :
  ESP.setLabels labels entity humanoid bin w = Done bin' w' →
  bin' = Bin.add (ItemInstance (container labels)) bin.
Proof.
  intros Hs. unfold ESP.setLabels in Hs.
  repeat inv_bind Hs. by injection Hs as <- _.
Qed.
End ConstructorFacts.

Section NewFacts.
Import Points Bones Labels Overlay BinSpec.

Lemma forEach_modify {A} (l : list A) (f : A → World → World) : ∀ w,
  forEach l (λ x, modify (f x)) w = Done tt (foldl (λ w x, f x w) w l).
Proof. induction l as [|x l IH]; intros w; simpl; [done|]. apply IH. Qed.

Lemma foldl_with_gui {A} (l : list A) (F : A → list Gui.t → list Gui.t) : ∀ w,
  foldl (λ w x, with_gui (F x) w) w l
  = with_gui (λ g, foldl (λ g x, F x g) g l) w.
Proof.
  induction l as [|x l IH]; intros w; simpl; [by destruct w|].
  by rewrite IH.
Qed.

Lemma forEach_set_gui (rs : list GuiRef) f w :
  forEach rs (λ r, set_gui r f) w = Done tt (with_gui (write_all f rs) w).
Proof.
  unfold set_gui. rewrite (forEach_modify rs (λ r, with_gui (alter f r))).
  by rewrite foldl_with_gui.
Qed.

Lemma self_Some this w o : objects w !! this = Some o → ESP.self this w = Done o w.
Proof. unfold ESP.self. by intros ->. Qed.

Lemma update_Done host this w o :
  objects w !! this = Some o →
  ∃ w', ESP.update host this w = Done tt w' ∧ same_core w w'.
Proof.
  intros Ho.
  assert (∃ w', ESP.update host this w = Done tt w') as [w' Hw'].
  { unfold ESP.update. rewrite (bind_Done _ _ _ _ _ (self_Some _ _ _ Ho)).
    rewrite (bind_Done _ _ _ _ _ (forEach_set_gui _ _ _)).
    rewrite (bind_Done _ _ _ _ _ (forEach_set_gui _ _ _)). eauto. }
  exists w'. split; [done|].
  by eapply stores_only_Done; [apply stores_only_update|].
Qed.

Lemma unless_Done_bind {A B} (m : M A) (k : A → M B) :
  stores_only m → (∀ a, stores_only_unless_Done (k a)) →
  stores_only_unless_Done (m ≫= k).
Proof.
  intros Hm Hk w. specialize (Hm w). unfold mbind, M_bind.
  destruct (m w) as [a w1|e w1|w1]; simpl in *; [|done..].
  specialize (Hk a w1). destruct (k a w1); eauto using same_core_trans.
Qed.

(** The part of the constructor from [instances.set] on always returns. *)
Lemma initialize_Done host o e w :
  ∃ w',
    (w0 ← get ;
     let this := length (objects w0) in
     modify (with_objects (λ l, l ++ [o])) ;;
     modify (with_instances <[e := this]>) ;;
     modify (with_objects (alter (λ o, with_bin
               (Bin.add (ItemFunction (DeleteInstance e)) (bin o)) o) this)) ;;
     modify (with_connections (λ l, l ++ [mkConnection e this true])) ;;
     ESP.update host this ;;
     mret this) w
    = Done (length (objects w)) w'.
Proof.
  unfold mbind at 1, M_bind at 1. simpl.
  unfold mbind at 1, M_bind at 1. simpl.
  unfold mbind at 1, M_bind at 1. simpl.
  unfold mbind at 1, M_bind at 1. simpl.
  unfold mbind at 1, M_bind at 1. simpl.
  edestruct (update_Done host (length (objects w))) as (w' & Hu & _);
    [|rewrite (bind_Done _ _ _ _ _ Hu); by eexists].
  simpl. by rewrite list_lookup_alter_eq, lookup_app_r, Nat.sub_diag by lia.
Qed.

(** A constructor that does not return has touched the instance stores
    only. *)
Lemma new_unless_Done host character :
  stores_only_unless_Done (ESP.new host character).
Proof.
  unfold ESP.new.
  repeat (apply unless_Done_bind;
    [solve [auto using stores_only_constructPoints, stores_only_constructBones,
              stores_only_constructLines, stores_only_setLabels with stores]
    |intros]).
  match goal with p : (list nat * list nat * Bin.t)%type |- _ =>
    destruct p as [[box bone] bin0] end.
  apply unless_Done_bind; [apply stores_only_setLabels|intros bin1].
  intros w. edestruct initialize_Done as [w' ->]. done.
Qed.

(** What a constructor that returns has done to the registry, the object
    store and the connections. *)
Lemma new_Done host character w this w' :
  ESP.new host character w = Done this w' →
  this = length (objects w) ∧
  ∃ o,
    objects w' = objects w ++ [o] ∧
    instance o = Model.ref character ∧
    length (box_lines o) = 4 ∧ length (bone_lines o) = 10 ∧
    (∀ r, r ∈ data (labels o) :: primitives o → r < length (gui w')) ∧
    holds (bin o) (items_of o) ∧
    instances w' = <[Model.ref character := this]> (instances w) ∧
    connections w' = connections w ++ [mkConnection (Model.ref character) this true] ∧
    CurrentCamera w' = CurrentCamera w ∧
    length (gui w) ≤ length (gui w').
Proof.
  intros Hn. unfold ESP.new in Hn.
  inv_bind_as Hn r0 w0 Hs. apply new_Instance_Done in Hs as (-> & Hl0 & [? ? ? ? _]).
  inv_bind_as Hn r1 w1 Hs. apply new_Instance_Done in Hs as (-> & Hl1 & [? ? ? ? _]).
  inv_bind_as Hn r2 w2 Hs. apply new_Instance_Done in Hs as (-> & Hl2 & [? ? ? ? _]).
  inv_bind_as Hn r3 w3 Hs. apply new_Instance_Done in Hs as (-> & Hl3 & [? ? ? ? _]).
  inv_bind_as Hn hum w4 Hs.
  apply (stores_only_Done _ _ _ _ (stores_only_WaitForChild _ _)) in Hs as [].
  inv_bind_as Hn pts w5 Hs.
  apply (stores_only_Done _ _ _ _ (stores_only_constructPoints _)) in Hs as [].
  inv_bind_as Hn bns w6 Hs.
  apply (stores_only_Done _ _ _ _ (stores_only_constructBones _)) in Hs as [].
  inv_bind_as Hn [[box bone] bin0] w7 Hs.
  pose proof (stores_only_Done _ _ _ _ (stores_only_constructLines _) Hs) as [].
  apply constructLines_Done in Hs as (n & Hn0 & -> & -> & -> & Hl8).
  inv_bind_as Hn bin1 w8 Hs.
  pose proof (stores_only_Done _ _ _ _ (stores_only_setLabels _ _ _ _) Hs) as [].
  apply setLabels_Done in Hs as ->.
  inv_bind_as Hn wg w9 Hs. injection Hs as <- <-. cbv zeta in Hn.
  inv_bind_as Hn u1 w10 Hs. injection Hs as <-.
  inv_bind_as Hn u2 w11 Hs. injection Hs as <-.
  inv_bind_as Hn u3 w12 Hs. injection Hs as <-.
  inv_bind_as Hn u4 w13 Hs. injection Hs as <-.
  inv_bind_as Hn u5 w14 Hs.
  apply (stores_only_Done _ _ _ _ (stores_only_update _ _)) in Hs as [Eo Ei Ec Ecam Eg].
  injection Hn as <- <-. subst w10 w11 w12 w13.
  cbn [objects instances connections CurrentCamera gui with_objects
       with_instances with_connections] in Eo, Ei, Ec, Ecam, Eg.
  assert (objects w8 = objects w) as Eo8 by congruence. rewrite Eo8 in *.
  split; [done|].
  eexists. split_and!.
  - rewrite Eo.
    replace (length (objects w)) with (length (objects w) + 0) by lia.
    rewrite alter_app_r. cbn [alter list_alter app]. reflexivity.
  - done.
  - done.
  - done.
  - cbn [labels data]. intros r Hr. unfold primitives in Hr.
    cbn [box_lines bone_lines labels container with_bin] in Hr.
    cbn [data app] in Hr.
    repeat (apply elem_of_cons in Hr as [->|Hr]); try lia.
    by apply elem_of_nil in Hr.
  - match goal with
    | |- holds _ ?l => exact (holds_add_all l Bin.new [] holds_new)
    end.
  - rewrite Ei. cbn. f_equal; congruence.
  - rewrite Ec. cbn. f_equal; congruence.
  - rewrite Ecam. cbn. congruence.
  - cbn [gui with_objects with_instances with_connections] in Eg. lia.
Qed.
End NewFacts.

(** ** Events *)

Section EventFacts.
Import Points Bones Labels Overlay BinSpec.

Lemma fire_reparented e p cs w : fire_AncestryChanged e (Some p) cs w = w.
Proof.
  revert w. induction cs as [|c cs IH]; intros w; simpl; [done|].
  by destruct (Connected c && bool_decide (entity c = e)); simpl; rewrite IH.
Qed.

(** Firing the removal of [e] on some of the connections. *)
Lemma fire_removed_some e cs : ∀ w,
  world_ok w → (∀ c, c ∈ cs → c ∈ connections w) →
  let w' := fire_AncestryChanged e None cs w in
  world_ok w' ∧ connections w' = connections w ∧
  (∀ e', e' ≠ e → instances w' !! e' = instances w !! e') ∧
  (instances w' !! e = None ∨
   instances w' !! e = instances w !! e ∧
   ∀ i, instances w !! e = Some i → mkConnection e i true ∉ cs).
Proof.
  induction cs as [|c cs IH]; intros w Hw Hcs; simpl.
  { split_and!; try done. right. split; [done|]. by intros i _ ?%elem_of_nil. }
  assert (c ∈ connections w) as Hc by (apply Hcs; left).
  destruct (ok_connections w Hw c Hc) as (Hcon & o & Ho & Hinst).
  destruct (Connected c && bool_decide (entity c = e)) eqn:Hguard.
  - apply andb_prop in Hguard as [_ He%bool_decide_eq_true].
    destruct (destroy_ok w (this c) o Hw Ho) as (w1 & Hd & Hw1 & Ec1 & Hi1 & _).
    simpl. rewrite Hd. simpl.
    destruct (IH w1 Hw1) as (Hw' & Ec' & Hother & He').
    { intros c' Hc'. rewrite Ec1. apply Hcs. by right. }
    split_and!; [done|congruence| |].
    + intros e' Hne. rewrite (Hother e' Hne).
      destruct Hi1 as [->|[-> _]]; [|done].
      rewrite lookup_delete_ne; [done|congruence].
    + destruct He' as [?|[He' Hnot]]; [by left|].
      destruct Hi1 as [Hi1|[Hi1 Hdead]].
      * left. rewrite He', Hi1, Hinst, He. apply lookup_delete_eq.
      * right. rewrite He', Hi1. split; [done|].
        intros i Hi. rewrite <-Hi1 in Hi. apply not_elem_of_cons. split; [|auto].
        intros Heq. rewrite Hi1 in Hi.
        destruct (ok_instances w Hw e i Hi) as (o' & Ho' & _ & Hlive).
        rewrite <-Heq in Ho. simpl in Ho. congruence.
  - destruct (IH w Hw) as (Hw' & Ec' & Hother & He').
    { intros c' Hc'. apply Hcs. by right. }
    split_and!; try done.
    destruct He' as [?|[He' Hnot]]; [by left|]. right. split; [done|].
    intros i Hi. apply not_elem_of_cons. split; [|auto].
    intros Heq. rewrite <-Heq in Hguard. simpl in Hguard.
    by rewrite bool_decide_eq_true_2 in Hguard.
Qed.

(** Firing the removal of [e]: its registry entry is gone, the other
    entries stay. *)
Lemma fire_removed e w :
  world_ok w →
  let w' := fire_AncestryChanged e None (connections w) w in
  world_ok w' ∧ instances w' = delete e (instances w).
Proof.
  intros Hw.
  destruct (fire_removed_some e (connections w) w Hw) as (Hw' & _ & Hother & He);
    [done|].
  split; [done|]. apply map_eq. intros e'.
  destruct (decide (e' = e)) as [->|Hne].
  - rewrite lookup_delete_eq. destruct He as [?|[He Hnot]]; [done|].
    rewrite He. destruct (instances w !! e) as [i|] eqn:Hi; [|done].
    destruct (ok_instances w Hw e i Hi) as (o & Ho & Hinst & _).
    destruct (ok_objects w Hw i o Ho) as [_ _ _ _ Hconn].
    rewrite Hinst in Hconn. by destruct (Hnot i eq_refl).
  - rewrite lookup_delete_ne by done. by apply Hother.
Qed.

Lemma render_each_same_core host todo : ∀ w,
  same_core w (world_of (render_each host todo w).2).
Proof.
  induction todo as [|[e i] todo IH]; intros w; simpl.
  - apply same_core_refl.
  - pose proof (stores_only_render host i w) as Hr.
    destruct (ESP.render host i w) as [[] w1|err w1|w1]; simpl in *; try done.
    specialize (IH w1). destruct (render_each host todo w1) as [called r].
    simpl in *. by eapply same_core_trans.
Qed.
End EventFacts.

Section RunFacts.
Import Points Bones Labels Overlay BinSpec.

Lemma world_ok_new host character w this w' :
  world_ok w → ESP.new host character w = Done this w' → world_ok w'.
Proof.
  intros Hw Hn.
  apply new_Done in Hn
    as (-> & o & Eo & Hinst & Hbox & Hbone & Hrefs & Hbin & Ei & Ec & _ & Hg).
  split.
  - intros i o' Hi. rewrite Eo in Hi. apply lookup_app_Some in Hi as [Hi|[Hge Hi]].
    + destruct (ok_objects w Hw i o' Hi) as [? ? Hr ? ?]. split; try done.
      * intros r Hin. specialize (Hr r Hin). lia.
      * rewrite Ec. apply elem_of_app. by left.
    + apply list_lookup_singleton_Some in Hi as [Hi <-].
      split; try done; [by left|].
      rewrite Ec, Hinst. apply elem_of_app. right. apply list_elem_of_singleton.
      f_equal. lia.
  - intros c Hc. rewrite Ec in Hc. rewrite Eo.
    apply elem_of_app in Hc as [Hc|Hc%list_elem_of_singleton]; [|subst c].
    + destruct (ok_connections w Hw c Hc) as (? & o' & Ho' & ?).
      split; [done|]. exists o'. split; [|done]. by apply lookup_app_l_Some.
    + split; [done|]. exists o. split; [|done]. simpl.
      by rewrite lookup_app_r, Nat.sub_diag by lia.
  - intros e i Hei. rewrite Ei in Hei. rewrite Eo.
    apply lookup_insert_Some in Hei as [[<- <-]|[Hne Hei]].
    + exists o. split_and!; [|done|by apply holds_items_live].
      by rewrite lookup_app_r, Nat.sub_diag by lia.
    + destruct (ok_instances w Hw e i Hei) as (o' & Ho' & ? & ?).
      exists o'. split_and!; try done. by apply lookup_app_l_Some.
Qed.

(** Every event keeps the invariant. *)
Lemma world_ok_step ev w : world_ok w → world_ok (step ev w).
Proof.
  intros Hw. destruct ev as [host character|e parent|camera|host]; simpl.
  - pose proof (new_unless_Done host character w) as Hnew.
    destruct (ESP.new host character w) as [this w'|err w'|w'] eqn:Hn; simpl.
    + by eapply world_ok_new.
    + by eapply world_ok_same_core.
    + by eapply world_ok_same_core.
  - destruct parent as [p|]; [by rewrite fire_reparented|].
    by apply fire_removed.
  - destruct Hw as [Ho Hc Hi]. split; simpl; try done.
    intros i o Hio. by destruct (Ho i o Hio).
  - eapply world_ok_same_core; [done|]. apply render_each_same_core.
Qed.

Lemma world_ok_run events : ∀ w, world_ok w → world_ok (run events w).
Proof.
  induction events as [|ev events IH]; intros w Hw; simpl; [done|].
  by apply IH, world_ok_step.
Qed.

(** The registry after one event. *)
Lemma instances_step ev w :
  world_ok w →
  instances (step ev w) =
    match ev with
    | CharacterAdded host character =>
        match ESP.new host character w with
        | Done this _ => <[Model.ref character := this]> (instances w)
        | _ => instances w
        end
    | AncestryChanged e None => delete e (instances w)
    | _ => instances w
    end.
Proof.
  intros Hw. destruct ev as [host character|e parent|camera|host]; simpl.
  - pose proof (new_unless_Done host character w) as Hnew.
    destruct (ESP.new host character w) as [this w'|err w'|w'] eqn:Hn; simpl.
    + by apply new_Done in Hn as (_ & o & _ & _ & _ & _ & _ & _ & -> & _).
    + by destruct Hnew.
    + by destruct Hnew.
  - destruct parent as [p|]; [by rewrite fire_reparented|].
    by apply fire_removed.
  - done.
  - by destruct (render_each_same_core host (map_to_list (instances w)) w).
Qed.

(** The registry holds exactly the tracked entities. *)
Lemma dom_instances_run events : ∀ w acc,
  world_ok w → dom (instances w) = acc →
  dom (instances (run events w)) = tracked events w acc.
Proof.
  induction events as [|ev events IH]; intros w acc Hw Hdom; simpl; [done|].
  apply IH; [by apply world_ok_step|].
  rewrite (instances_step ev w Hw).
  destruct ev as [host character|e [p|]|camera|host]; try done.
  - destruct (ESP.new host character w); try done.
    by rewrite dom_insert_L, Hdom.
  - by rewrite dom_delete_L, Hdom.
Qed.
End RunFacts.

(* ================================================================== *)
(** * Part IV: the claims                                              *)
(* ================================================================== *)

Section BinClaims.
Context `{ItemKinds} {W : Type} `{!Release W}.
Import BinSpec.

(** What [release_all] leaves over is the tail end of the list: nothing
    when every release returned, the item that threw and those behind it
    otherwise. *)
Lemma release_all_rest l : ∀ w,
  suffix (release_all l w).1 l ∧
  match (release_all l w).2 with
  | Ok _ => (release_all l w).1 = []
  | Raise _ _ => ∃ it rest, (release_all l w).1 = it :: rest
  end.
Proof.
  induction l as [|it l IH]; intros w; simpl; [done|].
  destruct (Bin.release it w) as [w1|e w1]; simpl.
  - destruct (IH w1) as [Hsuf Hcase]. split; [by apply suffix_cons_r|done].
  - split; [done|by eexists _, _].
Qed.

(** C5 (as amended): [destroy()] releases the entries in insertion order
    until a release throws.  [add] puts an item behind those already
    pending; [destroy()] releases the pending items from the front; when a
    release throws, the error leaves [destroy()], and the entry that threw
    and every entry behind it stay in the bin, unreleased. *)
Theorem destroy_in_insertion_order_until_failure (b : Bin.t) (w : W) :
  built (W:=W) b →
  (∀ it, pending (Bin.add it b) = pending b ++ [it]) ∧
  ∃ b',
    Bin.destroy b w = Some (attach b' (release_all (pending b) w).2) ∧
    pending b' = (release_all (pending b) w).1.
Proof.
  intros [l Hl]%built_holds. rewrite (holds_pending b l Hl). split.
  - intros it. by apply holds_pending, holds_add.
  - destruct (destroy_holds b l w Hl) as (b' & Hd & Hb' & _).
    exists b'. split; [done|]. by apply holds_pending.
Qed.

(** C10 (as amended): [destroy()] leaves [tail] as it was, and what it
    leaves pending is what its releases did not get to: nothing when it
    returned, the entry whose release threw and those behind it when it
    threw; no item released is released again.  Items added afterwards go
    behind what is left pending.  So after a [destroy()] that returned the
    added items form a list of their own, and the next [destroy()] releases
    exactly those, oldest first and each once (up to a release that throws);
    after a [destroy()] that threw, the next [destroy()] releases the
    entries left over first.  On every bin the program can build,
    [isEmpty()] is true exactly when no item is pending. *)
Theorem items_added_after_destroy_form_a_fresh_list
    (b : Bin.t) (w : W) (items : list Item) (w2 : W) :
  built (W:=W) b →
  ∃ r b1 w1,
    Bin.destroy b w = Some r ∧ after_destroy r = (b1, w1) ∧
    Bin.tail b1 = Bin.tail b ∧
    pending b1 = (release_all (pending b) w).1 ∧
    match r with
    | Ok _ => pending b1 = [] ∧ pending (add_all items b1) = items
    | Raise _ _ => ∃ it rest, pending b1 = it :: rest ∧
                              suffix (it :: rest) (pending b)
    end ∧
    pending (add_all items b1) = pending b1 ++ items ∧
    (Bin.isEmpty (add_all items b1) = true ↔ pending b1 ++ items = []) ∧
    (Bin.isEmpty b = true ↔ pending b = []) ∧
    ∃ b2,
      Bin.destroy (add_all items b1) w2
      = Some (attach b2 (release_all (pending b1 ++ items) w2).2) ∧
      pending b2 = (release_all (pending b1 ++ items) w2).1.
Proof.
  intros [l Hl]%built_holds.
  destruct (destroy_holds b l w Hl) as (b1 & Hd & Hb1 & _ & Htl).
  rewrite (holds_pending b l Hl).
  pose proof (holds_add_all items b1 _ Hb1) as Hadd.
  pose proof (holds_pending _ _ Hb1) as Hp1.
  pose proof (holds_pending _ _ Hadd) as Hpa.
  destruct (release_all_rest l w) as [Hsuf Hcase].
  destruct (release_all l w) as [rest [w1|e w1]] eqn:Hrel; simpl in *.
  - rewrite Hcase in *. clear Hcase. simpl in Hpa.
    eexists _, b1, w1. split; [exact Hd|]. simpl. rewrite Hpa, Hp1. simpl.
    split_and!; try done.
    + by apply holds_isEmpty.
    + by apply holds_isEmpty.
    + destruct (destroy_holds _ _ w2 Hadd) as (b2 & Hd2 & Hb2 & _).
      exists b2. split; [done|]. by apply holds_pending.
  - destruct Hcase as (it & rest' & ->).
    eexists _, b1, w1. split; [exact Hd|]. simpl. rewrite Hpa, Hp1.
    split_and!; try done.
    + by exists it, rest'.
    + by apply holds_isEmpty.
    + by apply holds_isEmpty.
    + destruct (destroy_holds _ _ w2 Hadd) as (b2 & Hd2 & Hb2 & _).
      exists b2. split; [done|]. by apply holds_pending.
Qed.
End BinClaims.

(** C5 (as stated) fails: with a callback that throws in front of another
    item, [destroy()] throws and the second item is never released. *)
Lemma release_failure_is_not_swallowed :
  ¬ @swallows_failures Probe.log Probe.kinds Probe.release.
Proof.
  intros Hs.
  destruct (Hs [Probe.fn 0; Probe.fn 1] []) as [b Hb].
  vm_compute in Hb. discriminate Hb.
Qed.

Lemma destroy_in_insertion_order_until_failure_witness :
  let b : Probe.bin := Bin.add (Probe.fn 1) (Bin.add (Probe.fn 0) Bin.new) in
  (∀ it, BinSpec.pending (Bin.add it b) = BinSpec.pending b ++ [it]) ∧
  ∃ b',
    Probe.destroy b []
    = Some (BinSpec.attach b' (Probe.release_all (BinSpec.pending b) []).2) ∧
    BinSpec.pending b' = (Probe.release_all (BinSpec.pending b) []).1.
Proof.
  apply (destroy_in_insertion_order_until_failure (W:=Probe.log)).
  repeat constructor.
Defined.

Lemma items_added_after_destroy_form_a_fresh_list_witness :
  let b : Probe.bin :=
    Bin.add (Probe.inst 3) (Bin.add (Probe.fn 0) (Bin.add (Probe.fn 1) Bin.new)) in
  let items : list Probe.item := [Probe.conn 7] in
  ∃ (r : Result (Probe.bin * Probe.log)) (b1 : Probe.bin) (w1 : Probe.log),
    Probe.destroy b [] = Some r ∧ BinSpec.after_destroy r = (b1, w1) ∧
    Bin.tail b1 = Bin.tail b ∧
    BinSpec.pending b1 = (Probe.release_all (BinSpec.pending b) []).1 ∧
    match r with
    | Ok _ => BinSpec.pending b1 = [] ∧
              BinSpec.pending (BinSpec.add_all items b1) = items
    | Raise _ _ => ∃ it rest, BinSpec.pending b1 = it :: rest ∧
                              suffix (it :: rest) (BinSpec.pending b)
    end ∧
    BinSpec.pending (BinSpec.add_all items b1) = BinSpec.pending b1 ++ items ∧
    (Bin.isEmpty (BinSpec.add_all items b1) = true
     ↔ BinSpec.pending b1 ++ items = []) ∧
    (Bin.isEmpty b = true ↔ BinSpec.pending b = []) ∧
    ∃ b2,
      Probe.destroy (BinSpec.add_all items b1) [Probe.fn 1]
      = Some (BinSpec.attach b2
                (Probe.release_all (BinSpec.pending b1 ++ items) [Probe.fn 1]).2) ∧
      BinSpec.pending b2
      = (Probe.release_all (BinSpec.pending b1 ++ items) [Probe.fn 1]).1.
Proof.
  intros b items.
  apply (items_added_after_destroy_form_a_fresh_list (W:=Probe.log)
           b [] items [Probe.fn 1]).
  repeat constructor.
Defined.

(** C10 (as stated) fails: after a [destroy()] that threw at the second of
    three entries, an item added to the bin lands behind the two entries
    left over, and the next [destroy()] comes to those first. *)
Lemma added_items_land_behind_the_entries_left :
  ¬ @added_items_always_a_fresh_list Probe.log Probe.kinds Probe.release.
Proof.
  intros Hclaim.
  set (b := Bin.add (Probe.inst 3) (Bin.add (Probe.fn 0) (Bin.add (Probe.fn 1) Bin.new))
         : Probe.bin).
  assert (@BinSpec.built Probe.kinds Probe.log Probe.release b) as Hb
    by (unfold b; repeat constructor).
  destruct (Probe.destroy b []) as [r|] eqn:Hd; [|vm_compute in Hd; discriminate Hd].
  specialize (Hclaim b [] r [Probe.conn 7] Hb Hd).
  vm_compute in Hd. injection Hd as <-.
  vm_compute in Hclaim. discriminate Hclaim.
Qed.

(** C4 (as stated) fails: a [destroy()] that threw at the second of three
    entries leaves the bin not empty, and the second [destroy()] throws
    again. *)
Lemma second_destroy_after_a_failure_throws_again :
  ¬ @second_destroy_always_a_no_op Probe.log Probe.kinds Probe.release.
Proof.
  intros Hclaim.
  set (b := Bin.add (Probe.inst 3) (Bin.add (Probe.fn 0) (Bin.add (Probe.fn 1) Bin.new))
         : Probe.bin).
  assert (@BinSpec.built Probe.kinds Probe.log Probe.release b) as Hb
    by (unfold b; repeat constructor).
  destruct (Probe.destroy b []) as [r|] eqn:Hd; [|vm_compute in Hd; discriminate Hd].
  specialize (Hclaim b [] r Hb Hd).
  vm_compute in Hd. injection Hd as <-.
  vm_compute in Hclaim. destruct Hclaim as [Hempty _]. discriminate Hempty.
Qed.

Section OverlayLifecycleClaims.
Import Points Bones Labels Overlay BinSpec.

Lemma reachable_ok w : reachable w → world_ok w.
Proof. intros (events & camera & ->). apply world_ok_run, world_ok_start. Qed.

Lemma destroy_twice w this o :
  world_ok w → objects w !! this = Some o →
  ∃ w1, ESP.destroy this w = Done tt w1 ∧ ESP.destroy this w1 = Done tt w1 ∧
        ∃ o1, objects w1 !! this = Some o1 ∧ Bin.isEmpty (bin o1) = true.
Proof.
  intros Hw Ho. destruct (ok_objects w Hw this o Ho) as [_ _ _ Hbin _].
  destruct (live o) eqn:Hl.
  - apply live_holds in Hbin; [|done].
    destruct (destroy_live w this o Ho Hbin) as (b' & Hd & _ & He).
    eexists. split; [done|].
    assert (objects (with_objects (alter (with_bin b') this) (released o w)) !! this
            = Some (with_bin b' o)) as Ho1.
    { simpl. by rewrite list_lookup_alter_eq, Ho. }
    split; [by eapply destroy_dead|by eexists].
  - assert (Bin.isEmpty (bin o) = true) as He
      by (unfold live in Hl; by destruct (Bin.isEmpty (bin o))).
    exists w. rewrite !(destroy_dead w this o Ho He). eauto.
Qed.

(** C4 (as amended): a second [destroy()] is a no-op after a [destroy()]
    that returned.  For every bin, once [destroy()] has returned,
    [isEmpty()] is true and calling [destroy()] again returns at once,
    leaving the bin and the world (whatever it is by then) as they are.
    When [destroy()] threw, the bin is not empty: the entry whose release
    threw and those behind it are pending, and the next [destroy()] starts
    over with that entry.  For every overlay of a reachable world,
    [destroy()] returns, and calling it again changes nothing: the world
    after the second call is the world after the first. *)
Theorem second_destroy_is_a_no_op
    `{ItemKinds} {W : Type} `{!Release W}
    (b : Bin.t) (w w2 : W)
    (world : World) (this : ESPRef) (o : Overlay.t) :
  built (W:=W) b →
  reachable world → objects world !! this = Some o →
  (∃ r b1 w1,
     Bin.destroy b w = Some r ∧ after_destroy r = (b1, w1) ∧
     match r with
     | Ok _ =>
         Bin.isEmpty b1 = true ∧ Bin.destroy b1 w2 = Some (Ok (b1, w2))
     | Raise _ _ =>
         Bin.isEmpty b1 = false ∧
         ∃ it rest b2,
           pending b1 = it :: rest ∧ suffix (it :: rest) (pending b) ∧
           Bin.destroy b1 w2 = Some (attach b2 (release_all (it :: rest) w2).2)
     end) ∧
  (∀ (c c1 : Bin.t) (v v1 : W),
     Bin.destroy c v = Some (Ok (c1, v1)) →
     Bin.isEmpty c1 = true ∧ Bin.destroy c1 w2 = Some (Ok (c1, w2))) ∧
  (∃ world1,
      ESP.destroy this world = Done tt world1 ∧
      ESP.destroy this world1 = Done tt world1 ∧
      ∃ o1, objects world1 !! this = Some o1 ∧ Bin.isEmpty (bin o1) = true).
Proof.
  intros [l Hl]%built_holds Hr Ho.
  assert (∀ (c c1 : Bin.t) (v v1 : W),
            Bin.destroy c v = Some (Ok (c1, v1)) →
            Bin.isEmpty c1 = true ∧ Bin.destroy c1 w2 = Some (Ok (c1, w2)))
    as Hreturned.
  { intros c c1 v v1 Hd. pose proof (destroy_returned _ _ _ _ Hd) as Hhead.
    split; [unfold Bin.isEmpty; by rewrite Hhead|by apply destroy_empty]. }
  split_and!.
  - destruct (destroy_holds b l w Hl) as (b1 & Hd & Hb1 & _).
    rewrite <-(holds_pending b l Hl) in *.
    destruct (release_all_rest (pending b) w) as [Hsuf Hcase].
    destruct (release_all (pending b) w) as [rest [w1|e w1]] eqn:Hrel; simpl in *.
    + eexists _, b1, w1. split; [exact Hd|]. split; [done|]. by eapply Hreturned.
    + destruct Hcase as (it & rest' & ->).
      eexists _, b1, w1. split; [exact Hd|]. split; [done|]. split.
      * destruct (Bin.isEmpty b1) eqn:He; [|done].
        by apply (holds_isEmpty _ _ Hb1) in He.
      * destruct (destroy_holds b1 _ w2 Hb1) as (b2 & Hd2 & _).
        exists it, rest', b2. split_and!; try done. by apply holds_pending.
  - exact Hreturned.
  - by apply (destroy_twice world this o); [apply reachable_ok|].
Qed.

(** C3 (as amended): [destroy()] on a live overlay of a reachable world
    returns and releases what the overlay's bin holds: the registry entry
    of its entity is removed, its 4 box lines, 10 bone lines and label
    container are destroyed, and its bin is empty.  The [AncestryChanged]
    connection is not held in the bin: it stays connected, and the
    attachments of the rig are left as they are. *)
Theorem destroy_releases_what_the_bin_holds
    (w : World) (this : ESPRef) (o : Overlay.t) :
  reachable w → objects w !! this = Some o → live o = true →
  ∃ w',
    ESP.destroy this w = Done tt w' ∧
    instances w' !! instance o = None ∧
    length (box_lines o) = 4 ∧ length (bone_lines o) = 10 ∧
    (∀ r, r ∈ box_lines o ++ bone_lines o ++ [container (labels o)] →
          ∃ g, gui w' !! r = Some g ∧ Gui.Destroyed g = true) ∧
    (∃ o', objects w' !! this = Some o' ∧ Bin.isEmpty (bin o') = true) ∧
    connections w' = connections w ∧
    mkConnection (instance o) this true ∈ connections w' ∧
    attachments w' = attachments w.
Proof.
  intros Hw%reachable_ok Ho Hl.
  destruct (ok_objects w Hw this o Ho) as [Hbox Hbone Hrefs Hbin Hconn].
  apply live_holds in Hbin; [|done].
  destruct (destroy_live w this o Ho Hbin) as (b' & Hd & _ & He).
  eexists. split; [done|]. simpl. split_and!; try done.
  - apply lookup_delete_eq.
  - intros r Hr. apply Destroy_all_destroys; [done|].
    apply Hrefs. by right.
  - exists (with_bin b' o). by rewrite list_lookup_alter_eq, Ho.
Qed.

(** C8 (as amended): in every reachable world each registry entry leads
    to a live overlay of that entity, and there is an entry for an entity
    exactly when it is tracked: an overlay has been constructed for it and
    its removal has not been signalled since.  Constructing an overlay for
    an entity sets the entry of that entity to the new overlay and leaves
    every earlier overlay, also one of the same entity, as it was. *)
Theorem registry_holds_the_tracked_entities
    (events : list Event) (camera : option Camera) :
  let w := run events (start camera) in
  (∀ e i, instances w !! e = Some i →
     ∃ o, objects w !! i = Some o ∧ instance o = e ∧ live o = true) ∧
  (∀ e, is_Some (instances w !! e) ↔ e ∈ tracked events (start camera) ∅) ∧
  (∀ host character this w',
     ESP.new host character w = Done this w' →
     instances w' !! Model.ref character = Some this ∧
     objects w !! this = None ∧
     ∀ i o, objects w !! i = Some o → objects w' !! i = Some o).
Proof.
  intros w. pose proof (world_ok_run events _ (world_ok_start camera)) as Hw.
  fold w in Hw. split_and!.
  - apply (ok_instances w Hw).
  - intros e. rewrite <-elem_of_dom. unfold w.
    rewrite (dom_instances_run events (start camera) ∅); [done| |].
    + apply world_ok_start.
    + apply dom_empty_L.
  - intros host character this w' Hn.
    apply new_Done in Hn as (-> & o & Eo & _ & _ & _ & _ & _ & Ei & _).
    split_and!.
    + rewrite Ei. apply lookup_insert_eq.
    + by apply lookup_ge_None_2.
    + intros i o' Hi. rewrite Eo. by apply lookup_app_l_Some.
Qed.
End OverlayLifecycleClaims.

Lemma second_destroy_is_a_no_op_witness :
  let b : Probe.bin :=
    Bin.add (Probe.inst 3) (Bin.add (Probe.fn 0) (Bin.add (Probe.fn 1) Bin.new)) in
  let world := run [CharacterAdded (sample_host []) (R6_character 7 "Dummy")]
                   (start None) in
  (∃ (r : Result (Probe.bin * Probe.log)) (b1 : Probe.bin) (w1 : Probe.log),
     Probe.destroy b [] = Some r ∧ BinSpec.after_destroy r = (b1, w1) ∧
     match r with
     | Ok _ =>
         Bin.isEmpty b1 = true ∧ Probe.destroy b1 [Probe.fn 1] = Some (Ok (b1, [Probe.fn 1]))
     | Raise _ _ =>
         Bin.isEmpty b1 = false ∧
         ∃ it rest b2,
           BinSpec.pending b1 = it :: rest ∧
           suffix (it :: rest) (BinSpec.pending b) ∧
           Probe.destroy b1 [Probe.fn 1]
           = Some (BinSpec.attach b2 (Probe.release_all (it :: rest) [Probe.fn 1]).2)
     end) ∧
  (∀ (c c1 : Probe.bin) (v v1 : Probe.log),
     Probe.destroy c v = Some (Ok (c1, v1)) →
     Bin.isEmpty c1 = true ∧ Probe.destroy c1 [Probe.fn 1] = Some (Ok (c1, [Probe.fn 1]))) ∧
  (∃ world1,
      ESP.destroy 0 world = Done tt world1 ∧
      ESP.destroy 0 world1 = Done tt world1 ∧
      ∃ o1, objects world1 !! 0 = Some o1 ∧ Bin.isEmpty (Overlay.bin o1) = true).
Proof.
  intros b world.
  destruct (objects world !! 0) as [o|] eqn:Ho; [|vm_compute in Ho; discriminate Ho].
  apply (second_destroy_is_a_no_op (W:=Probe.log) b [] [Probe.fn 1] world 0 o).
  - repeat constructor.
  - by eexists _, _.
  - exact Ho.
Defined.

Lemma destroy_releases_what_the_bin_holds_witness :
  let w := run [CharacterAdded (sample_host []) (R6_character 7 "Dummy")]
               (start None) in
  ∃ o, objects w !! 0 = Some o ∧
  ∃ w',
    ESP.destroy 0 w = Done tt w' ∧
    instances w' !! Overlay.instance o = None ∧
    length (Overlay.box_lines o) = 4 ∧ length (Overlay.bone_lines o) = 10 ∧
    (∀ r, r ∈ Overlay.box_lines o ++ Overlay.bone_lines o
              ++ [Labels.container (Overlay.labels o)] →
          ∃ g, gui w' !! r = Some g ∧ Gui.Destroyed g = true) ∧
    (∃ o', objects w' !! 0 = Some o' ∧ Bin.isEmpty (Overlay.bin o') = true) ∧
    connections w' = connections w ∧
    mkConnection (Overlay.instance o) 0 true ∈ connections w' ∧
    attachments w' = attachments w.
Proof.
  intros w.
  destruct (objects w !! 0) as [o|] eqn:Ho; [|vm_compute in Ho; discriminate Ho].
  exists o. split; [reflexivity|].
  apply (destroy_releases_what_the_bin_holds w 0 o).
  - by eexists _, _.
  - exact Ho.
  - vm_compute in Ho. injection Ho as <-. vm_compute. reflexivity.
Defined.

(** C3 (as stated) fails: after [destroy()] the connection that the
    constructor made on [AncestryChanged] is still connected. *)
Lemma connection_survives_destroy :
  let w := run [CharacterAdded (sample_host []) (R6_character 7 "Dummy")]
               (start None) in
  ∃ w', ESP.destroy 0 w = Done tt w' ∧ ¬ subscription_cancelled 0 w'.
Proof.
  intros w. eexists. split; [vm_compute; reflexivity|].
  intros Hc. specialize (Hc (mkConnection 7 0 true)).
  discriminate Hc; [|reflexivity]. simpl. left.
Qed.

(** C8 (as stated) fails: constructing a second overlay for an entity leaves
    two live overlays of that entity. *)
Lemma second_overlay_for_the_same_entity :
  ¬ ∀ events camera, one_live_overlay_per_entity (run events (start camera)).
Proof.
  intros Hone.
  set (character := R6_character 7 "Dummy").
  set (events := [CharacterAdded (sample_host []) character;
                  CharacterAdded (sample_host []) character]).
  assert (∃ o0 o1, objects (run events (start None)) !! 0 = Some o0 ∧
                   objects (run events (start None)) !! 1 = Some o1 ∧
                   Overlay.instance o0 = Overlay.instance o1 ∧
                   live o0 = true ∧ live o1 = true)
    as (o0 & o1 & H0 & H1 & Hi & Hl0 & Hl1).
  { destruct (objects (run events (start None)) !! 0) as [o0|] eqn:H0;
      [|vm_compute in H0; discriminate H0].
    destruct (objects (run events (start None)) !! 1) as [o1|] eqn:H1;
      [|vm_compute in H1; discriminate H1].
    exists o0, o1. split; [done|]. split; [done|].
    vm_compute in H0, H1. injection H0 as <-. injection H1 as <-.
    split_and!; vm_compute; reflexivity. }
  discriminate (Hone events None 0 1 o0 o1 H0 H1 Hi Hl0 Hl1).
Qed.

(** ** Frames *)

Section FrameClaims.
Import Points Bones Labels Overlay BinSpec.

Lemma render_without_camera host i w :
CurrentCamera w = None → ∃ e, ESP.render host i w = Fault e w.
Proof.
intros Hcam. unfold ESP.render, mbind at 1, M_bind at 1, ESP.self.
destruct (objects w !! i) as [o|]; [|by eexists].
cbv zeta. unfold mbind at 1, M_bind at 1, ESP.project. rewrite Hcam. by eexists.
Qed.

(** The loop of the handler: the calls that return thread the world along;
    the first call that does not return ends the loop with its outcome. *)
Lemma render_each_in_turn host todo : ∀ w,
∃ before w1,
  rendered_in_turn host before w w1 ∧
  (todo.*2 = before ∧ render_each host todo w = (before, Done tt w1)
   ∨ ∃ i rest r,
       todo.*2 = before ++ i :: rest ∧
       ESP.render host i w1 = r ∧ (∀ u w2, r ≠ Done u w2) ∧
       render_each host todo w = (before ++ [i], r)).
Proof.
induction todo as [|[e i] todo IH]; intros w; simpl.
- exists [], w. split; [constructor|by left].
- destruct (ESP.render host i w) as [[] w1|err w1|w1] eqn:Hr.
  + destruct (IH w1) as (before & w2 & Hturn & Hcase).
    exists (i :: before), w2. split; [by econstructor|].
    destruct Hcase as [[Hall Heach]|(j & rest & r & Hall & Hj & Hr' & Heach)];
      rewrite Heach; [left|right].
    * split; [exact (f_equal (cons i) Hall)|done].
    * exists j, rest, r. split_and!; try done. exact (f_equal (cons i) Hall).
  + exists [], w. split; [constructor|]. right.
    exists i, todo.*2, (Fault err w1). by split_and!.
  + exists [], w. split; [constructor|]. right.
    exists i, todo.*2, (Blocked w1). by split_and!.
Qed.

(** C9 (as amended): in a frame tick [render()] is called on the registered
    overlays in iteration order, each call starting in the world the call
    before it left, as long as the calls return; when all of them return,
    every overlay has been rendered and the handler returns.  A [render()]
    that raises ends the handler: the handler's outcome is that very
    failure, the overlay that raised is the last one [render()] was called
    on, and [render()] is not called on the overlays that come after it in
    that frame. *)
Theorem render_failure_ends_the_frame (host : Host) (w : World) :
∃ before w1,
  rendered_in_turn host before w w1 ∧
  ((map_to_list (instances w)).*2 = before ∧
   on_RenderStepped host w = (before, Done tt w1)
   ∨ ∃ i rest r,
       (map_to_list (instances w)).*2 = before ++ i :: rest ∧
       ESP.render host i w1 = r ∧ (∀ u w2, r ≠ Done u w2) ∧
       on_RenderStepped host w = (before ++ [i], r)).
Proof. apply render_each_in_turn. Qed.
End FrameClaims.

(** C9 (as stated) fails: with two overlays registered and no current
    camera, the first [render()] throws and the second overlay is not
    rendered. *)
Lemma render_failure_skips_the_other_overlays :
¬ ∀ host w, reachable w → renders_every_overlay host w.
Proof.
intros Hall.
set (events := [CharacterAdded (sample_host []) (R6_character 7 "Dummy");
                CharacterAdded (sample_host []) (R6_character 8 "Other")]).
assert (reachable (run events (start None))) as Hr by by eexists _, _.
specialize (Hall (sample_host []) _ Hr). unfold renders_every_overlay in Hall.
vm_compute in Hall. discriminate Hall.
Qed.

(** ** [render()] *)

Section RenderFacts.
Import Points Bones Labels Overlay BinSpec.
Local Open Scope R_scope.

Lemma project_first {B} host a (k : Vector3.t → M B) w camera :
CurrentCamera w = Some camera →
(ESP.project host a ≫= k) w
= k (camera (WorldPosition host a)) (with_projections (λ l, l ++ [a]) w).
Proof. intros Hcam. unfold mbind, M_bind, ESP.project. by rewrite Hcam. Qed.

Lemma project_next {B} host a (k : Vector3.t → M B) w camera calls :
CurrentCamera w = Some camera →
(ESP.project host a ≫= k) (with_projections (λ l, l ++ calls) w)
= k (camera (WorldPosition host a))
    (with_projections (λ l, l ++ (calls ++ [a])) w).
Proof.
intros Hcam. unfold mbind, M_bind, ESP.project. simpl. rewrite Hcam.
f_equal. destruct w. unfold with_projections. simpl. by rewrite app_assoc.
Qed.

(** What the cull finds. *)
Lemma culled_behind host camera points :
culled host camera points = true →
∃ before a rest,
  points = before ++ a :: rest ∧
  (∀ p, p ∈ before → ESP.behind (camera (WorldPosition host p)) = false) ∧
  ESP.behind (camera (WorldPosition host a)) = true ∧
  projected_until host camera points = before ++ [a].
Proof.
induction points as [|p points IH]; simpl; [done|].
destruct (ESP.behind (camera (WorldPosition host p))) eqn:Hp; simpl.
- intros _. exists [], p, points. split_and!; try done. by intros ? ?%elem_of_nil.
- intros (before & a & rest & -> & Hfront & Ha & ->)%IH.
  exists (p :: before), a, rest. split_and!; try done.
  intros q [->|Hq]%elem_of_cons; auto.
Qed.

Lemma culled_finds host camera points a :
a ∈ points → ESP.behind (camera (WorldPosition host a)) = true →
culled host camera points = true.
Proof.
induction points as [|p points IH]; simpl; [by intros ?%elem_of_nil|].
intros Hin Ha.
destruct (ESP.behind (camera (WorldPosition host p))) eqn:Hp; [done|].
apply elem_of_cons in Hin as [->|Hin]; [congruence|auto].
Qed.

Lemma behind_depth host camera a :
ESP.behind (camera (WorldPosition host a)) = true ↔ depth host camera a < 0.
Proof.
unfold ESP.behind, depth. destruct (Rlt_dec _ _); split; (done || lra).
Qed.

(** Writing a property into some instances keeps what the write keeps. *)
Lemma write_all_keeps (Q : Gui.t → Prop) f rs :
(∀ x, Q x → Q (f x)) →
∀ g r x, g !! r = Some x → Q x →
  ∃ x', write_all f rs g !! r = Some x' ∧ Q x'.
Proof.
intros Hf. induction rs as [|r0 rs IH]; intros g r x Hr Hx; simpl; [eauto|].
apply IH with (x := if decide (r0 = r) then f x else x).
- destruct (decide (r0 = r)) as [->|Hne].
  + by rewrite list_lookup_alter_eq, Hr.
  + by rewrite list_lookup_alter_ne.
- destruct (decide (r0 = r)); auto.
Qed.

(** Writing a property into the instances [rs] sets it in each of them. *)
Lemma write_all_sets (Q : Gui.t → Prop) f rs :
(∀ x, Q (f x)) →
∀ g r, r ∈ rs → (r < length g)%nat →
  ∃ x', write_all f rs g !! r = Some x' ∧ Q x'.
Proof.
intros Hf. induction rs as [|r0 rs IH]; intros g r Hin Hlt; simpl.
- by apply elem_of_nil in Hin.
- destruct (decide (r = r0)) as [->|Hne].
  + destruct (lookup_lt_is_Some_2 g r0 Hlt) as [x Hx].
    apply (write_all_keeps Q f rs (λ x HQ, Hf x) _ r0 (f x)); [|done].
    by rewrite list_lookup_alter_eq, Hx.
  + apply elem_of_cons in Hin as [?|Hin]; [done|].
    apply IH; [done|]. by rewrite length_alter.
Qed.

Lemma write_all_app f rs1 rs2 g :
write_all f (rs1 ++ rs2) g = write_all f rs2 (write_all f rs1 g).
Proof. unfold write_all. by rewrite foldl_app. Qed.

(** [setVisible(visible)] in closed form. *)
Lemma setVisible_Done this visible w o :
objects w !! this = Some o →
ESP.setVisible this visible w
= Done tt (with_gui (write_all (Gui.with_Visible visible)
                       (container (labels o) :: box_lines o ++ bone_lines o)) w).
Proof.
intros Ho. unfold ESP.setVisible.
rewrite (bind_Done _ _ _ _ _ (self_Some _ _ _ Ho)).
unfold mbind at 1, M_bind at 1. simpl.
rewrite (bind_Done _ _ _ _ _ (forEach_set_gui _ _ _)).
rewrite forEach_set_gui. f_equal. destruct w. unfold with_gui. simpl.
f_equal. symmetry. apply (write_all_app _ (_ :: _)).
Qed.

(** When the cull finds a point behind the camera, [render()] has
    projected the points up to that one, and goes on to do what
    [setVisible(false)] does and nothing else. *)
Lemma render_cull_behind host this w o camera :
objects w !! this = Some o → CurrentCamera w = Some camera →
culled host camera (projected_points o) = true →
ESP.render host this w
= ESP.setVisible this false
    (with_projections
       (λ l, l ++ projected_until host camera (projected_points o)) w).
Proof.
intros Ho Hcam Hcull.
unfold ESP.render. rewrite (bind_Done _ _ _ _ _ (self_Some _ _ _ Ho)). cbv zeta.
unfold projected_points, skeleton_joints in Hcull |- *.
cbv zeta in Hcull |- *. cbn [app culled projected_until] in Hcull |- *.
rewrite (project_first _ _ _ _ _ Hcam).
match goal with
| |- (if ESP.behind ?p then _ else _) _ = _ =>
    destruct (ESP.behind p); [reflexivity|]
end.
repeat (
  rewrite (project_next _ _ _ _ _ _ Hcam); cbn [app];
  match goal with
  | |- (if ESP.behind ?p then _ else _) _ = _ =>
      destruct (ESP.behind p); [reflexivity|]
  end).
discriminate Hcull.
Qed.
End RenderFacts.

Section RenderVisibleFacts.
Import Points Bones Labels Overlay BinSpec.
Local Open Scope R_scope.

Lemma keeps_shape_run {B} objs n (m : M unit) (k : unit → M B) w :
keeps_shape objs n m → objects w = objs → length (gui w) = n →
∃ w1, (m ≫= k) w = k tt w1 ∧ objects w1 = objs ∧ length (gui w1) = n
      ∧ projections w1 = projections w.
Proof.
intros Hm Ho Hn. destruct (Hm w Ho Hn) as (w1 & Hw1 & [Eo _ _ Ec _] & Hl & Hp).
exists w1. rewrite (bind_Done _ _ _ _ _ Hw1). split_and!; congruence.
Qed.

Lemma keeps_shape_set_gui objs n r f : keeps_shape objs n (set_gui r f).
Proof.
intros w Ho Hn. eexists. split; [reflexivity|].
split; [apply (stores_only_set_gui r f w)|]. simpl. by rewrite length_alter.
Qed.

Lemma set_gui_run {B} r f (k : unit → M B) w :
(set_gui r f ≫= k) w = k tt (with_gui (alter f r) w).
Proof. reflexivity. Qed.

Lemma get_gui_run {B} r (k : Gui.t → M B) w g :
gui w !! r = Some g → (get_gui r ≫= k) w = k g w.
Proof. intros Hg. unfold mbind, M_bind, get_gui. by rewrite Hg. Qed.

Lemma alter_thrice {A} (f1 f2 f3 : A → A) (l : list A) i x :
l !! i = Some x →
alter f3 i (alter f2 i (alter f1 i l)) = <[i := f3 (f2 (f1 x))]> l.
Proof.
intros Hi. apply list_eq. intros j. destruct (decide (i = j)) as [<-|Hne].
- rewrite !list_lookup_alter_eq, Hi, list_lookup_insert_eq; [done|].
  by eapply lookup_lt_Some.
- by rewrite !list_lookup_alter_ne, list_lookup_insert_ne.
Qed.

(** [updateLineFromPoints] in closed form: the three writes to the line. *)
Lemma updateLineFromPoints_Done line from to w g :
gui w !! line = Some g →
let displacement := Vector2.sub to from in
let distance := Vector2.Magnitude displacement in
let midpoint := Vector2.add from (Vector2.div displacement 2) in
let angle := math.deg (math.atan2 (Vector2.Y displacement) (Vector2.X displacement)) in
updateLineFromPoints line from to w
= Done tt (with_gui
    <[line := Gui.with_Rotation angle
       (Gui.with_Size (UDim2.new 0 distance 0 (UDim.Offset (UDim2.Y (Gui.Size g))))
         (Gui.with_Position
            (UDim2.new 0 (Vector2.X midpoint) 0 (Vector2.Y midpoint)) g))]> w).
Proof.
intros Hg. cbv zeta. unfold updateLineFromPoints. cbv zeta.
rewrite set_gui_run.
erewrite get_gui_run; [|simpl; by rewrite list_lookup_alter_eq, Hg].
rewrite set_gui_run. unfold set_gui, modify. f_equal.
destruct w. unfold with_gui. simpl. f_equal. simpl in Hg.
by apply alter_thrice.
Qed.

Lemma keeps_shape_updateLineFromPoints objs n l from to :
(l < n)%nat → keeps_shape objs n (updateLineFromPoints l from to).
Proof.
intros Hl w Ho Hn.
destruct (lookup_lt_is_Some_2 (gui w) l) as [g Hg]; [lia|].
rewrite (updateLineFromPoints_Done l from to w g Hg).
eexists. split; [done|]. split; [|simpl; by rewrite length_insert].
split; simpl; try done. by rewrite length_insert.
Qed.

Lemma index_run {A B} (arr : list A) i x (k : A → M B) w :
arr !! i = Some x → (index arr i ≫= k) w = k x w.
Proof. intros Hi. unfold index. by rewrite Hi. Qed.

(** When none of the points that [render()] projects is behind the camera,
    [render()] has projected them all, returns, and every primitive of the
    overlay is visible. *)
Lemma render_in_front host this w o camera :
world_ok w → objects w !! this = Some o → CurrentCamera w = Some camera →
(∀ a, a ∈ projected_points o →
      ESP.behind (camera (WorldPosition host a)) = false) →
∃ w', ESP.render host this w = Done tt w' ∧
      (∀ r, r ∈ primitives o → ∃ g, gui w' !! r = Some g ∧ Gui.Visible g = true) ∧
      projections w' = projections w ++ projected_points o.
Proof.
intros Hw Ho Hcam Hfront.
destruct (ok_objects w Hw this o Ho) as [Hbox Hbone Hrefs _ _].
unfold ESP.render. rewrite (bind_Done _ _ _ _ _ (self_Some _ _ _ Ho)). cbv zeta.
unfold projected_points, skeleton_joints in Hfront |- *. cbv zeta in Hfront |- *.
rewrite (project_first _ _ _ _ _ Hcam).
rewrite Hfront by (simpl; rewrite !elem_of_cons; tauto).
repeat (
  rewrite (project_next _ _ _ _ _ _ Hcam); cbn [app];
  rewrite Hfront by (simpl; rewrite !elem_of_cons; tauto)).
clear Hfront.
assert (∀ r, r ∈ primitives o → (r < length (gui w))%nat) as Hprim.
{ intros r Hr. apply Hrefs. by right. }
assert (data (labels o) < length (gui w))%nat as Hdata by (apply Hrefs; left).
unfold primitives in Hprim.
destruct (box_lines o) as [|b0 [|b1 [|b2 [|b3 [|]]]]] eqn:Ebox; try done.
destruct (bone_lines o)
  as [|s0 [|s1 [|s2 [|s3 [|s4 [|s5 [|s6 [|s7 [|s8 [|s9 [|]]]]]]]]]]] eqn:Ebone;
  try done.
set (objs := objects w). set (n := length (gui w)).
match goal with
| |- context [projections w ++ ?ps] => set (calls := ps)
end.
match goal with
| |- context [with_projections ?f w] => set (wp := with_projections f w)
end.
assert (objects wp = objs) as Eo by done.
assert (length (gui wp) = n) as En by done.
assert (projections wp = projections w ++ calls) as Ep by done.
assert (∀ r, r ∈ primitives o → (r < n)%nat) as Hprim'.
{ intros r Hr. apply Hrefs. by right. }
assert (objs !! this = Some o) as Ho' by done.
clearbody objs n wp calls. clear Ho Hcam Hw Hrefs.
repeat (
  erewrite index_run by reflexivity;
  match goal with
  | |- ∃ w', (@mbind M _ _ _ ?k ?m) ?w0 = _ ∧ _ =>
      let w1 := fresh "w" in
      let E := fresh "E" in
      destruct (keeps_shape_run objs n m k w0) as (w1 & E & ? & ? & ?);
      [ apply keeps_shape_updateLineFromPoints, Hprim'; unfold primitives;
        rewrite Ebox, Ebone; simpl; rewrite !elem_of_cons; tauto
      | assumption | assumption | rewrite E; clear E ]
  end).
repeat (
  match goal with
  | |- ∃ w', (@mbind M _ _ _ ?k ?m) ?w0 = _ ∧ _ =>
      let w1 := fresh "w" in
      let E := fresh "E" in
      destruct (keeps_shape_run objs n m k w0) as (w1 & E & ? & ? & ?);
      [ apply keeps_shape_set_gui | assumption | assumption | rewrite E; clear E ]
  end).
match goal with
| |- ∃ w', ESP.setVisible _ _ ?w0 = _ ∧ _ =>
    rewrite (setVisible_Done this true w0 o) by congruence
end.
eexists. split; [reflexivity|]. split.
- intros r Hr.
  apply (write_all_sets (λ g, Gui.Visible g = true) _
           (container (labels o) :: box_lines o ++ bone_lines o)); [done| |].
  + unfold primitives in Hr. rewrite !elem_of_app, list_elem_of_singleton in Hr.
    rewrite elem_of_cons, elem_of_app. tauto.
  + specialize (Hprim' r Hr). simpl. lia.
- simpl. congruence.
Qed.
End RenderVisibleFacts.

Section RenderClaim.
Import Points Bones Labels Overlay BinSpec.
Local Open Scope R_scope.

Lemma in_front_depth host camera a :
0 <= depth host camera a → ESP.behind (camera (WorldPosition host a)) = false.
Proof.
intros Hd. destruct (ESP.behind _) eqn:Hb; [|done].
apply behind_depth in Hb. lra.
Qed.

(** The bottom centre is not behind the camera unless one of the two bottom
    corners is. *)
Lemma behind_bottom_centre host camera o :
bottom_centre_halfway host o → affine_depth camera →
depth host camera (B (points o)) < 0 →
depth host camera (BL (points o)) < 0 ∨ depth host camera (BR (points o)) < 0.
Proof.
unfold bottom_centre_halfway, depth. cbv zeta.
intros Hmid (nx & ny & nz & d & Haff) HB.
rewrite Hmid in HB. rewrite Haff in HB. rewrite !Haff.
unfold halfway in HB. cbn [Vector3.X Vector3.Y Vector3.Z] in HB.
destruct (WorldPosition host (BL (points o))) as [lx ly lz].
destruct (WorldPosition host (BR (points o))) as [rx ry rz].
cbn [Vector3.X Vector3.Y Vector3.Z] in *.
destruct (Rlt_dec (nx * lx + ny * ly + nz * lz + d) 0) as [?|Hl]; [by left|].
right. lra.
Qed.

(** C1 (as amended): for every overlay of a reachable world and every
    frame, if any of the 18 rig points (the 7 box points and the 11
    skeleton joints) projects with depth < 0, then [render()] returns with
    all 14 line primitives (4 box lines, 10 bone lines) and the label
    container invisible, and position, size, rotation and text of every GUI
    instance are what they were before the call.  [render()] projects 17 of
    the 18 points, never the bottom centre B: the box points C, T, BL, BR,
    TL, TR and then the 11 joints, in this order, and it stops at the first
    negative depth: the calls it makes to the camera are those for the
    points in front of the first one behind, and the one for that point.
    For B the rule holds by what the engine does: B lies halfway between
    its children BL and BR and the depth is affine, so B is not behind the
    camera unless BL or BR is. *)
Theorem render_hides_when_a_rig_point_is_behind
    (w : World) (host : Host) (this : ESPRef) (o : Overlay.t)
    (camera : Camera) (a : AttachmentRef) :
reachable w → objects w !! this = Some o → CurrentCamera w = Some camera →
a ∈ rig_points o → depth host camera a < 0 →
(a = B (points o) → bottom_centre_halfway host o ∧ affine_depth camera) →
∃ w' before first rest,
  ESP.render host this w = Done tt w' ∧
  length (rig_points o) = 18%nat ∧
  length (box_lines o) = 4%nat ∧ length (bone_lines o) = 10%nat ∧
  (∀ r, r ∈ box_lines o ++ bone_lines o ++ [container (labels o)] →
        ∃ g, gui w' !! r = Some g ∧ Gui.Visible g = false) ∧
  (∀ r g, gui w !! r = Some g →
          ∃ g', gui w' !! r = Some g' ∧
                Gui.Position g' = Gui.Position g ∧ Gui.Size g' = Gui.Size g ∧
                Gui.Rotation g' = Gui.Rotation g ∧ Gui.Text g' = Gui.Text g) ∧
  (let p := points o in
   let b := bones o in
   [C p; T p; BL p; BR p; TL p; TR p;
    face b; neck b; waist b; right_shoulder b; right_hand b; right_hip b;
    right_foot b; left_shoulder b; left_hand b; left_hip b; left_foot b]
   = before ++ first :: rest) ∧
  (∀ q, q ∈ before → 0 <= depth host camera q) ∧
  depth host camera first < 0 ∧
  projections w' = projections w ++ before ++ [first].
Proof.
intros Hw%reachable_ok Ho Hcam Hin Hdepth Hengine.
destruct (ok_objects w Hw this o Ho) as [Hbox Hbone Hrefs _ _].
assert (∃ a', a' ∈ projected_points o ∧ depth host camera a' < 0)
  as (a' & Hin' & Hdepth').
{ unfold rig_points, box_points, skeleton_joints in Hin. cbv zeta in Hin.
  unfold projected_points, skeleton_joints. cbv zeta.
  cbn [app] in Hin |- *.
  apply elem_of_cons in Hin as [->|Hin]; [exists (C (points o)); split; [left|done]|].
  apply elem_of_cons in Hin as [->|Hin];
    [exists (T (points o)); split; [right; left|done]|].
  apply elem_of_cons in Hin as [->|Hin].
  - destruct (Hengine eq_refl) as [Hmid Haff].
    destruct (behind_bottom_centre host camera o Hmid Haff Hdepth) as [Hl|Hr];
      [exists (BL (points o))|exists (BR (points o))];
      (split; [rewrite !elem_of_cons; tauto|done]).
  - exists a. split; [|done]. by do 2 right. }
apply behind_depth in Hdepth'.
pose proof (culled_finds host camera _ a' Hin' Hdepth') as Hcull.
destruct (culled_behind host camera _ Hcull)
  as (before & first & rest & Hsplit & Hfront & Hfirst & Hcalls).
rewrite (render_cull_behind host this w o camera Ho Hcam Hcull).
rewrite (setVisible_Done this false _ o) by done.
eexists _, before, first, rest. split; [reflexivity|]. split_and!; try done.
- intros r Hr. simpl.
  apply (write_all_sets (λ g, Gui.Visible g = false) _
           (container (labels o) :: box_lines o ++ bone_lines o)); [done| |].
  + rewrite !elem_of_app, list_elem_of_singleton in Hr.
    rewrite elem_of_cons, elem_of_app. tauto.
  + apply Hrefs. by right.
- intros r g Hg. simpl.
  destruct (write_all_keeps (λ g', geometry g' = geometry g)
              (Gui.with_Visible false)
              (container (labels o) :: box_lines o ++ bone_lines o)
              ltac:(by intros []) (gui w) r g Hg eq_refl) as (g' & Hg' & Hgeo).
  exists g'. split; [done|]. unfold geometry in Hgeo.
  by injection Hgeo as -> -> -> ->.
- intros q Hq. specialize (Hfront q Hq).
  destruct (Rlt_dec (depth host camera q) 0) as [Hlt|Hge]; [|lra].
  apply behind_depth in Hlt. congruence.
- by apply behind_depth.
- cbn [projections with_gui with_projections]. by rewrite Hcalls.
Qed.
End RenderClaim.

Lemma identity_camera_affine : affine_depth identity_camera.
Proof. exists 0%R, 0%R, 1%R, 0%R. intros p. unfold identity_camera. lra. Qed.

Lemma render_hides_when_a_rig_point_is_behind_witness :
let camera := identity_camera in
let w := run [CharacterAdded (sample_host []) (R6_character 7 "Dummy")]
             (start (Some camera)) in
let host := upright_host (Vector3.new 0 0 (-5)) w in
∃ o, objects w !! 0 = Some o ∧
∃ w' before first rest,
  ESP.render host 0 w = Done tt w' ∧
  length (rig_points o) = 18 ∧
  length (Overlay.box_lines o) = 4 ∧ length (Overlay.bone_lines o) = 10 ∧
  (∀ r, r ∈ Overlay.box_lines o ++ Overlay.bone_lines o
            ++ [Labels.container (Overlay.labels o)] →
        ∃ g, gui w' !! r = Some g ∧ Gui.Visible g = false) ∧
  (∀ r g, gui w !! r = Some g →
          ∃ g', gui w' !! r = Some g' ∧
                Gui.Position g' = Gui.Position g ∧ Gui.Size g' = Gui.Size g ∧
                Gui.Rotation g' = Gui.Rotation g ∧ Gui.Text g' = Gui.Text g) ∧
  (let p := Overlay.points o in
   let b := Overlay.bones o in
   [Points.C p; Points.T p; Points.BL p; Points.BR p; Points.TL p; Points.TR p;
    Bones.face b; Bones.neck b; Bones.waist b; Bones.right_shoulder b;
    Bones.right_hand b; Bones.right_hip b; Bones.right_foot b;
    Bones.left_shoulder b; Bones.left_hand b; Bones.left_hip b; Bones.left_foot b]
   = before ++ first :: rest) ∧
  (∀ q, q ∈ before → (0 <= depth host camera q)%R) ∧
  (depth host camera first < 0)%R ∧
  projections w' = projections w ++ before ++ [first].
Proof.
intros camera w host.
destruct (objects w !! 0) as [o|] eqn:Ho; [|vm_compute in Ho; discriminate Ho].
exists o. split; [reflexivity|].
assert (o = o) as Eo by done. revert Eo.
vm_compute in Ho. injection Ho as Ho. rewrite <-Ho at 1. intros Eo.
apply (render_hides_when_a_rig_point_is_behind w host 0 o camera 2).
- by eexists _, _.
- rewrite <-Eo. reflexivity.
- reflexivity.
- rewrite <-Eo. vm_compute. do 2 right. left.
- vm_compute. lra.
- intros _. split; [|apply identity_camera_affine].
  rewrite <-Eo. unfold bottom_centre_halfway, halfway. vm_compute. f_equal; lra.
Defined.

(** C1 (as stated) fails: in a frame in which every rig point is in front
    of the camera, [render()] hands 17 points to the camera and the bottom
    centre B is not one of them. *)
Lemma render_does_not_project_the_bottom_centre : ¬ projects_every_rig_point.
Proof.
intros Hclaim.
set (camera := identity_camera).
set (w := run [CharacterAdded (sample_host []) (R6_character 7 "Dummy")]
              (start (Some camera))).
set (host := upright_host (Vector3.new 0 0 10) w).
assert (reachable w) as Hw by by eexists _, _.
destruct (objects w !! 0) as [o|] eqn:Ho; [|vm_compute in Ho; discriminate Ho].
assert (CurrentCamera w = Some camera) as Hcam by reflexivity.
assert (o = o) as Eo by done. revert Eo.
vm_compute in Ho. injection Ho as Ho. rewrite <-Ho at 1. intros Eo.
assert (objects w !! 0 = Some o) as Ho' by (rewrite <-Eo; reflexivity).
assert (∀ a, a ∈ rig_points o → (0 <= depth host camera a)%R) as Hdepth.
{ intros a Ha. rewrite <-Eo in Ha. vm_compute in Ha.
  repeat (apply elem_of_cons in Ha as [->|Ha]; [vm_compute; lra|]).
  apply elem_of_nil in Ha. destruct Ha. }
destruct (render_in_front host 0 w o camera) as (w' & Hr & _ & Hcalls);
  [by apply reachable_ok|done|done| |].
{ intros a Ha. apply in_front_depth, Hdepth.
  unfold rig_points, box_points. unfold projected_points in Ha. cbv zeta in *.
  cbn [app] in *. rewrite !elem_of_cons in *. tauto. }
specialize (Hclaim w host 0 o camera w' Hw Ho' Hcam Hdepth Hr 2).
rewrite Hcalls in Hclaim. rewrite <-Eo in Hclaim. vm_compute in Hclaim.
assert (2 ∈ [0; 1; 2; 3; 4; 5; 6; 7; 8; 9; 10; 11; 12; 13; 14; 15; 16; 17]) as HB
  by (do 2 right; left).
specialize (Hclaim HB).
repeat (apply elem_of_cons in Hclaim as [Hclaim|Hclaim]; [discriminate Hclaim|]).
by apply elem_of_nil in Hclaim.
Qed.

(** ** The rig builder *)

Section RigFacts.
Import Points Bones Labels Overlay BinSpec.
Local Open Scope R_scope.

Lemma new_Attachment_run {B} (k : nat → M B) w :
(new_Attachment ≫= k) w
= k (length (attachments w)) (with_attachments (λ l, l ++ [Attachment.fresh]) w).
Proof. reflexivity. Qed.

Lemma set_attachment_run {B} a f (k : unit → M B) w :
(set_attachment a f ≫= k) w = k tt (with_attachments (alter f a) w).
Proof. reflexivity. Qed.

Lemma WaitForChild_timeOut_run {B} entity name t
    (k : option (string * Child) → M B) w :
(WaitForChild_timeOut entity name t ≫= k) w
= k (pair name <$> Model.FindFirstChild name entity) w.
Proof. reflexivity. Qed.

Lemma with_attachments_mk f a g o i c cam calls :
with_attachments f (mkWorld a g o i c cam calls)
= mkWorld (f a) g o i c cam calls.
Proof. reflexivity. Qed.

Lemma WaitForChild_inv {B} entity name (k : string * Child → M B) w b w' :
(WaitForChild entity name ≫= k) w = Done b w' →
∃ c, Model.FindFirstChild name entity = Some c ∧ k (name, c) w = Done b w'.
Proof.
unfold WaitForChild, mbind, M_bind.
destruct (Model.FindFirstChild name entity) as [c|]; [eauto|done].
Qed.

Lemma Size_of_inv {B} c (k : Vector3.t → M B) w b w' :
(Size_of c ≫= k) w = Done b w' →
∃ size, c.2 = Part size ∧ k size w = Done b w'.
Proof.
unfold Size_of, mbind, M_bind. destruct (c.2) as [size|]; [eauto|done].
Qed.

Lemma root_inv {B} entity (k : string * Child → M B) w b w' :
(match pair "HumanoidRootPart"%string <$>
         Model.FindFirstChild "HumanoidRootPart" entity with
 | Some r => mret r
 | None => WaitForChild entity "Torso"
 end ≫= k) w = Done b w' →
∃ rootName root,
  (Model.FindFirstChild "HumanoidRootPart" entity = Some root ∧
   rootName = "HumanoidRootPart"%string
   ∨ Model.FindFirstChild "HumanoidRootPart" entity = None ∧
     Model.FindFirstChild "Torso" entity = Some root ∧ rootName = "Torso"%string) ∧
  k (rootName, root) w = Done b w'.
Proof.
destruct (Model.FindFirstChild "HumanoidRootPart" entity) as [r|]; simpl; intros Hc.
- exists "HumanoidRootPart"%string, r. split; [by left|]. exact Hc.
- apply WaitForChild_inv in Hc as (r & Hr & Hc).
  exists "Torso"%string, r. split; [by right|]. exact Hc.
Qed.

Lemma alter_app_here {A} (f : A → A) (l : list A) x xs :
alter f (length l) (l ++ x :: xs) = l ++ f x :: xs.
Proof.
replace (length l) with (length l + 0)%nat by lia. by rewrite alter_app_r.
Qed.

Lemma lookup_app_plus {A} (l1 l2 : list A) k :
(l1 ++ l2) !! (length l1 + k)%nat = l2 !! k.
Proof. rewrite lookup_app_r by lia. f_equal. lia. Qed.

Lemma lookup_app_here {A} (l1 l2 : list A) : (l1 ++ l2) !! length l1 = l2 !! 0%nat.
Proof. by rewrite lookup_app_r, Nat.sub_diag by lia. Qed.
End RigFacts.

(** Brings the attachment store of a finished rig builder into the form
    [old ++ [new attachments]]. *)
Ltac rig_store H :=
  rewrite ?with_attachments_mk in H; cbn [fst] in H;
  rewrite <- ?app_assoc in H; cbn [app] in H;
  rewrite ?length_app in H; cbn [length] in H;
  repeat (first [rewrite alter_app_r in H | rewrite alter_app_here in H];
          cbn [alter list_alter fmap list_fmap] in H);
  unfold Attachment.with_Parent, Attachment.with_Position, Attachment.fresh in H;
  cbn [Attachment.Position Attachment.Parent] in H.

Section RigClaims.
Import Points Bones Labels Overlay BinSpec.
Local Open Scope R_scope.

(** C7: the box points of every rig.  The centre is attached to the root
    part (HumanoidRootPart, or Torso when that is absent); top and bottom
    are children of the centre at half the root height plus the head height
    plus 0.4, and at minus half the root height minus the leg height minus
    0.3; the four corners are children of top and bottom at plus or minus
    the horizontal offset, half the root width plus the arm width plus
    0.2. *)
Theorem box_points_of_the_rig
    (entity : Model.t) (w : World) (pts : Points.t) (w' : World) :
ESP.constructPoints entity w = Done pts w' →
∃ rootName root head arm leg,
  (Model.FindFirstChild "HumanoidRootPart" entity = Some (Part root) ∧
   rootName = "HumanoidRootPart"%string
   ∨ Model.FindFirstChild "HumanoidRootPart" entity = None ∧
     Model.FindFirstChild "Torso" entity = Some (Part root) ∧
     rootName = "Torso"%string) ∧
  Model.FindFirstChild "Head" entity = Some (Part head) ∧
  Model.FindFirstChild "Right Arm" entity = Some (Part arm) ∧
  Model.FindFirstChild "Right Leg" entity = Some (Part leg) ∧
  let top := Vector3.Y root / 2 + Vector3.Y head + 0.4 in
  let bottom := - Vector3.Y root / 2 - Vector3.Y leg - 0.3 in
  let side := Vector3.X root / 2 + Vector3.X arm + 0.2 in
  attached w' (C pts) (Vector3.new 0 0 0) (InPart (Model.ref entity) rootName) ∧
  attached w' (T pts) (Vector3.new 0 top 0) (InAttachment (C pts)) ∧
  attached w' (B pts) (Vector3.new 0 bottom 0) (InAttachment (C pts)) ∧
  attached w' (TL pts) (Vector3.new (- side) 0 0) (InAttachment (T pts)) ∧
  attached w' (TR pts) (Vector3.new side 0 0) (InAttachment (T pts)) ∧
  attached w' (BL pts) (Vector3.new (- side) 0 0) (InAttachment (B pts)) ∧
  attached w' (BR pts) (Vector3.new side 0 0) (InAttachment (B pts)).
Proof.
intros Hc. destruct w as [atts g objs inst conns cam calls].
unfold ESP.constructPoints in Hc.
rewrite !new_Attachment_run in Hc. rewrite !with_attachments_mk in Hc.
cbn [attachments] in Hc.
apply WaitForChild_inv in Hc as (head & Hhead & Hc).
rewrite WaitForChild_timeOut_run in Hc.
apply root_inv in Hc as (rootName & root & Hroot & Hc).
apply WaitForChild_inv in Hc as (right_arm & Hra & Hc).
apply WaitForChild_inv in Hc as (right_leg & Hrl & Hc).
apply Size_of_inv in Hc as (root_Size & Eroot & Hc).
apply Size_of_inv in Hc as (head_Size & Ehead & Hc).
apply Size_of_inv in Hc as (leg_Size & Eleg & Hc).
apply Size_of_inv in Hc as (arm_Size & Earm & Hc).
simpl in Eroot, Ehead, Eleg, Earm. subst.
rewrite !set_attachment_run in Hc. rig_store Hc.
injection Hc as <- <-.
exists rootName, root_Size, head_Size, arm_Size, leg_Size.
unfold attached. cbn [attachments C T B TL TR BL BR].
rewrite !lookup_app_plus, lookup_app_here. by split_and!.
Qed.

(** C6 (as amended): each of the 11 skeleton joints of every rig is
    attached directly to its owning part, the upper joint of a part (face,
    neck, shoulders, hips) at plus and the lower joint (waist, hands, feet)
    at minus half a vertical extent.  For the face, neck, waist and the
    right limbs that extent is the one of the owning part; for the left
    shoulder and hand it is the extent of the right arm, and for the left
    hip and foot the extent of the right leg: the size of the left limbs is
    not read. *)
Theorem skeleton_joints_of_the_rig
    (entity : Model.t) (w : World) (bns : Bones.t) (w' : World)
    (joint : Bones.t → AttachmentRef) (owner measured : string) (upper : bool) :
ESP.constructBones entity w = Done bns w' →
(joint, owner, measured, upper) ∈ joint_table →
∃ size,
  Model.FindFirstChild measured entity = Some (Part size) ∧
  is_Some (Model.FindFirstChild owner entity) ∧
  attached w' (joint bns) (half_extent upper size)
           (InPart (Model.ref entity) owner).
Proof.
intros Hc Hin. destruct w as [atts g objs inst conns cam calls].
unfold ESP.constructBones in Hc.
apply WaitForChild_inv in Hc as (head & Hhead & Hc).
apply WaitForChild_inv in Hc as (torso & Htorso & Hc).
apply WaitForChild_inv in Hc as (right_arm & Hra & Hc).
apply WaitForChild_inv in Hc as (right_leg & Hrl & Hc).
apply WaitForChild_inv in Hc as (left_arm & Hla & Hc).
apply WaitForChild_inv in Hc as (left_leg & Hll & Hc).
apply Size_of_inv in Hc as (head_size & Ehead & Hc).
apply Size_of_inv in Hc as (torso_size & Etorso & Hc).
apply Size_of_inv in Hc as (arm_size & Earm & Hc).
apply Size_of_inv in Hc as (leg_size & Eleg & Hc).
simpl in Ehead, Etorso, Earm, Eleg. subst. cbv zeta in Hc.
rewrite !new_Attachment_run in Hc. rewrite !with_attachments_mk in Hc.
cbn [attachments] in Hc.
rewrite !set_attachment_run in Hc. rig_store Hc.
injection Hc as <- <-.
unfold joint_table in Hin. unfold attached, half_extent.
repeat (apply elem_of_cons in Hin as [Hin|Hin];
  [ injection Hin as -> -> -> ->;
    eexists; split; [eassumption|]; split; [by eexists|];
    cbn [attachments face neck waist right_shoulder right_hand right_hip
         right_foot left_shoulder left_hand left_hip left_foot];
    rewrite ?lookup_app_plus, ?lookup_app_here; reflexivity
  | ]).
by apply elem_of_nil in Hin.
Qed.
End RigClaims.

Lemma box_points_of_the_rig_witness :
let entity := R6_character 7 "Dummy" in
∃ pts w',
  ESP.constructPoints entity (start None) = Done pts w' ∧
  ∃ rootName root head arm leg,
    (Model.FindFirstChild "HumanoidRootPart" entity = Some (Part root) ∧
     rootName = "HumanoidRootPart"%string
     ∨ Model.FindFirstChild "HumanoidRootPart" entity = None ∧
       Model.FindFirstChild "Torso" entity = Some (Part root) ∧
       rootName = "Torso"%string) ∧
    Model.FindFirstChild "Head" entity = Some (Part head) ∧
    Model.FindFirstChild "Right Arm" entity = Some (Part arm) ∧
    Model.FindFirstChild "Right Leg" entity = Some (Part leg) ∧
    let top := (Vector3.Y root / 2 + Vector3.Y head + 0.4)%R in
    let bottom := (- Vector3.Y root / 2 - Vector3.Y leg - 0.3)%R in
    let side := (Vector3.X root / 2 + Vector3.X arm + 0.2)%R in
    attached w' (Points.C pts) (Vector3.new 0 0 0)
             (InPart (Model.ref entity) rootName) ∧
    attached w' (Points.T pts) (Vector3.new 0 top 0) (InAttachment (Points.C pts)) ∧
    attached w' (Points.B pts) (Vector3.new 0 bottom 0) (InAttachment (Points.C pts)) ∧
    attached w' (Points.TL pts) (Vector3.new (- side) 0 0) (InAttachment (Points.T pts)) ∧
    attached w' (Points.TR pts) (Vector3.new side 0 0) (InAttachment (Points.T pts)) ∧
    attached w' (Points.BL pts) (Vector3.new (- side) 0 0) (InAttachment (Points.B pts)) ∧
    attached w' (Points.BR pts) (Vector3.new side 0 0) (InAttachment (Points.B pts)).
Proof.
intros entity.
destruct (ESP.constructPoints entity (start None)) as [pts w'| |] eqn:Hc;
  [|vm_compute in Hc; discriminate Hc..].
exists pts, w'. split; [reflexivity|].
exact (box_points_of_the_rig entity (start None) pts w' Hc).
Defined.

Lemma skeleton_joints_of_the_rig_witness :
let entity := long_left_arm_character in
∃ bns w',
  ESP.constructBones entity (start None) = Done bns w' ∧
  ∃ size,
    Model.FindFirstChild "Right Arm" entity = Some (Part size) ∧
    is_Some (Model.FindFirstChild "Left Arm" entity) ∧
    attached w' (Bones.left_shoulder bns) (half_extent true size)
             (InPart (Model.ref entity) "Left Arm").
Proof.
intros entity.
destruct (ESP.constructBones entity (start None)) as [bns w'| |] eqn:Hc;
  [|vm_compute in Hc; discriminate Hc..].
exists bns, w'. split; [reflexivity|].
apply (skeleton_joints_of_the_rig entity (start None) bns w'
         Bones.left_shoulder "Left Arm" "Right Arm" true Hc).
unfold joint_table. do 7 right. left.
Defined.

(** C6 (as stated) fails: on a rig whose left arm is twice as long as the
    right one, the left shoulder sits at half the height of the right arm,
    not of the left arm it is attached to. *)
Lemma left_joints_use_the_right_limb : ¬ joints_at_half_extent_of_owning_part.
Proof.
intros Hclaim.
set (entity := long_left_arm_character).
destruct (ESP.constructBones entity (start None)) as [bns w'| |] eqn:Hc;
  [|vm_compute in Hc; discriminate Hc..].
destruct (Hclaim entity (start None) bns w' Hc
            Bones.left_shoulder "Left Arm"%string "Right Arm"%string true)
  as (size & Hsize & Hat).
{ unfold joint_table. do 7 right. left. }
destruct (skeleton_joints_of_the_rig entity (start None) bns w'
            Bones.left_shoulder "Left Arm" "Right Arm" true Hc)
  as (size' & Hsize' & _ & Hat').
{ unfold joint_table. do 7 right. left. }
vm_compute in Hsize, Hsize'. injection Hsize as <-. injection Hsize' as <-.
unfold attached in Hat, Hat'. rewrite Hat in Hat'.
unfold half_extent in Hat'. cbn [Vector3.Y] in Hat'.
injection Hat' as Heq. lra.
Qed.

(** ** Line geometry *)

Section LineFacts.
Local Open Scope R_scope.

(** Partial sums of the arctangent series bracket [atan x] on (0, 1). *)
Lemma atan_series_bounds x N :
0 < x < 1 →
sum_f_R0 (tg_alt (Ratan_seq x)) (S (2 * N)) <= atan x
  <= sum_f_R0 (tg_alt (Ratan_seq x)) (2 * N).
Proof.
intros Hx. rewrite (atan_eq_ps_atan x Hx). unfold ps_atan.
destruct (Ratan.in_int x) as [Hin|Hout]; [|lra].
destruct (ps_atan_exists_1 x Hin) as [v Hv].
apply alternated_series_ineq; [| |exact Hv].
- apply Ratan_seq_decreasing; lra.
- apply Ratan_seq_converging; lra.
Qed.

Lemma atan_half_bounds : 4636398 / 10000000 < atan (/ 2) < 4636843 / 10000000.
Proof.
assert (0 < / 2 < 1) as Hx by lra.
pose proof (atan_series_bounds (/ 2) 2 Hx) as [Hlo Hhi].
unfold sum_f_R0, tg_alt, Ratan_seq in Hlo, Hhi. simpl in Hlo, Hhi.
field_simplify in Hlo. field_simplify in Hhi.
split; lra.
Qed.

Lemma atan_third_bounds : 3217453 / 10000000 < atan (/ 3) < 3218108 / 10000000.
Proof.
assert (0 < / 3 < 1) as Hx by lra.
pose proof (atan_series_bounds (/ 3) 1 Hx) as [Hlo Hhi].
unfold sum_f_R0, tg_alt, Ratan_seq in Hlo, Hhi. simpl in Hlo, Hhi.
field_simplify in Hlo. field_simplify in Hhi.
split; lra.
Qed.

Lemma atan_4_3 : atan (4 / 3) = 2 * atan (/ 2).
Proof.
assert (atan (/ 2) < atan (4 / 3)) as Hlt by (apply atan_increasing; lra).
pose proof (atan_bound (4 / 3)) as [? ?].
pose proof (atan_bound (/ 2)) as [? ?].
assert (0 < atan (/ 2)) as Hpos by (rewrite <-atan_0; apply atan_increasing; lra).
rewrite (atan_sub_correct (4 / 3) (/ 2)).
- unfold atan_sub.
  replace ((4 / 3 - / 2) / (1 + 4 / 3 * / 2)) with (/ 2) by field. lra.
- lra.
- lra.
- apply atan_bound.
Qed.

(** The angle of the 3-4-5 triangle, in degrees, rounds to 53.13. *)
Lemma angle_3_4 : 53.125 < math.deg (atan (4 / 3)) < 53.135.
Proof.
unfold math.deg. rewrite atan_4_3.
pose proof atan_half_bounds as [Ha1 Ha2].
pose proof atan_third_bounds as [Hb1 Hb2].
pose proof Machin_2_3 as HPI.
set (a := atan (/ 2)) in *. set (b := atan (/ 3)) in *.
assert (PI = 4 * (a + b)) as -> by lra.
assert (0 < a + b) as Hs by lra.
replace (2 * a * (180 / (4 * (a + b)))) with (90 * a / (a + b)) by (field; lra).
split.
- apply Rmult_lt_reg_r with (a + b); [exact Hs|].
  replace (90 * a / (a + b) * (a + b)) with (90 * a) by (field; lra). lra.
- apply Rmult_lt_reg_r with (a + b); [exact Hs|].
  replace (90 * a / (a + b) * (a + b)) with (90 * a) by (field; lra). lra.
Qed.

Lemma hypot_pos x y : x ≠ 0 ∨ y ≠ 0 → 0 < sqrt (x * x + y * y).
Proof.
intros Hxy. apply sqrt_lt_R0.
destruct Hxy as [Hx|Hy]; [pose proof (Rsqr_pos_lt x Hx)|pose proof (Rsqr_pos_lt y Hy)];
  pose proof (Rle_0_sqr x); pose proof (Rle_0_sqr y); unfold Rsqr in *; lra.
Qed.

Lemma sqrt_slope x y :
x ≠ 0 → sqrt (1 + (y / x)²) = sqrt (x * x + y * y) / Rabs x.
Proof.
intros Hx. rewrite <-(sqrt_Rsqr_abs x), <-sqrt_div_alt.
- f_equal. unfold Rsqr. by field.
- apply Rsqr_pos_lt. done.
Qed.

(** [math.atan2 y x] is the polar angle of the point [(x, y)]. *)
Lemma atan2_polar x y :
x ≠ 0 ∨ y ≠ 0 →
let r := sqrt (x * x + y * y) in
r * cos (math.atan2 y x) = x ∧ r * sin (math.atan2 y x) = y ∧
- PI < math.atan2 y x <= PI.
Proof.
intros Hxy r. pose proof (hypot_pos x y Hxy) as Hr. fold r in Hr.
pose proof PI_RGT_0 as HPI. unfold math.atan2.
destruct (Rlt_dec 0 x) as [Hx|Hx].
- pose proof (atan_bound (y / x)) as [? ?].
  rewrite cos_atan, sin_atan, sqrt_slope by lra.
  rewrite Rabs_pos_eq by lra. fold r. split_and!; try lra; field; lra.
- destruct (Rlt_dec x 0) as [Hx'|Hx'].
  + assert (Rabs x = - x) as Habs by (apply Rabs_left; lra).
    destruct (Rle_dec 0 y) as [Hy|Hy].
    * assert (y / x <= 0) as Hneg.
      { assert (0 <= y * / (- x)) by
          (apply Rmult_le_pos; [lra|apply Rlt_le, Rinv_0_lt_compat; lra]).
        replace (y / x) with (- (y * / (- x))) by (field; lra). lra. }
      assert (atan (y / x) <= 0) as Hat.
      { destruct Hneg as [Hlt|Heq]; [|rewrite Heq, atan_0; lra].
        apply Rlt_le. rewrite <-atan_0. by apply atan_increasing. }
      pose proof (atan_bound (y / x)) as [? ?].
      rewrite neg_cos, neg_sin, cos_atan, sin_atan, sqrt_slope, Habs by lra.
      fold r. split_and!; try lra; field; lra.
    * assert (0 < y / x) as Hpos.
      { unfold Rdiv. replace (y * / x) with ((- y) * / (- x)) by (field; lra).
        apply Rmult_lt_0_compat; [lra|]. apply Rinv_0_lt_compat. lra. }
      assert (0 < atan (y / x)) as Hat.
      { rewrite <-atan_0. by apply atan_increasing. }
      pose proof (atan_bound (y / x)) as [? ?].
      replace (atan (y / x) - PI) with (- (PI - atan (y / x))) by ring.
      rewrite cos_neg, sin_neg.
      replace (PI - atan (y / x)) with (- atan (y / x) + PI) by ring.
      rewrite neg_cos, neg_sin, cos_neg, sin_neg, cos_atan, sin_atan, sqrt_slope, Habs by lra.
      fold r. split_and!; try lra; field; lra.
  + assert (x = 0) as -> by lra. destruct Hxy as [?|Hy]; [done|].
    unfold r in *. rewrite Rmult_0_l, Rplus_0_l in *.
    destruct (Rlt_dec 0 y) as [Hy'|Hy'].
    * rewrite sqrt_square by lra. rewrite cos_PI2, sin_PI2. split_and!; lra.
    * destruct (Rlt_dec y 0) as [Hy''|Hy'']; [|lra].
      rewrite cos_neg, sin_neg, cos_PI2, sin_PI2.
      replace (y * y) with ((- y) * (- y)) by ring. rewrite sqrt_square by lra.
      split_and!; lra.
Qed.

Lemma atan2_right y x : 0 < x → math.atan2 y x = atan (y / x).
Proof. intros Hx. unfold math.atan2. by destruct (Rlt_dec 0 x). Qed.

(** C2: for every pair of screen points the line is placed at their
    arithmetic mean, gets their Euclidean distance as its length (its
    thickness is kept) and is rotated by [atan2] of the displacement, in
    degrees.  For (0,0) and (3,4): midpoint (1.5, 2), length 5, and an angle
    between 53.125 and 53.135 degrees. *)
Theorem line_from_points
    (line : GuiRef) (from to : Vector2.t) (w : World) (g : Gui.t) :
gui w !! line = Some g →
∃ g',
  updateLineFromPoints line from to w = Done tt (with_gui <[line := g']> w) ∧
  Gui.Position g'
  = UDim2.new 0 ((Vector2.X from + Vector2.X to) / 2)
              0 ((Vector2.Y from + Vector2.Y to) / 2) ∧
  Gui.Size g'
  = UDim2.new 0 (sqrt ((Vector2.X to - Vector2.X from) ^ 2
                       + (Vector2.Y to - Vector2.Y from) ^ 2))
              0 (UDim.Offset (UDim2.Y (Gui.Size g))) ∧
  Gui.Rotation g'
  = math.deg (math.atan2 (Vector2.Y to - Vector2.Y from)
                         (Vector2.X to - Vector2.X from)) ∧
  (from = Vector2.new 0 0 → to = Vector2.new 3 4 →
   Gui.Position g' = UDim2.new 0 1.5 0 2 ∧
   Gui.Size g' = UDim2.new 0 5 0 (UDim.Offset (UDim2.Y (Gui.Size g))) ∧
   53.125 < Gui.Rotation g' < 53.135).
Proof.
intros Hg. eexists. split; [exact (updateLineFromPoints_Done line from to w g Hg)|].
cbn [Gui.Position Gui.Size Gui.Rotation Gui.with_Position Gui.with_Size
     Gui.with_Rotation Vector2.X Vector2.Y Vector2.add Vector2.sub Vector2.div
     Vector2.Magnitude].
split_and!.
- unfold UDim2.new. f_equal; f_equal; lra.
- unfold UDim2.new. f_equal. f_equal.
  unfold Vector2.Magnitude, Vector2.sub. cbn [Vector2.X Vector2.Y]. f_equal. ring.
- reflexivity.
- intros -> ->. cbn [Vector2.X Vector2.Y]. split_and!.
  + unfold UDim2.new. f_equal; f_equal; lra.
  + unfold UDim2.new. f_equal. f_equal.
    unfold Vector2.Magnitude, Vector2.sub. cbn [Vector2.X Vector2.Y].
    replace ((3 - 0) * (3 - 0) + (4 - 0) * (4 - 0)) with (5 * 5) by ring.
    apply sqrt_square. lra.
  + rewrite atan2_right by lra.
    replace ((4 - 0) / (3 - 0)) with (4 / 3) by field. apply angle_3_4.
  + rewrite atan2_right by lra.
    replace ((4 - 0) / (3 - 0)) with (4 / 3) by field. apply angle_3_4.
Qed.
End LineFacts.

Lemma line_from_points_witness :
let w := run [CharacterAdded (sample_host []) (R6_character 7 "Dummy")]
             (start None) in
let from := Vector2.new 0 0 in
let to := Vector2.new 3 4 in
∃ g, gui w !! 4 = Some g ∧
∃ g',
  updateLineFromPoints 4 from to w = Done tt (with_gui <[4 := g']> w) ∧
  Gui.Position g'
  = UDim2.new 0 ((Vector2.X from + Vector2.X to) / 2)
              0 ((Vector2.Y from + Vector2.Y to) / 2) ∧
  Gui.Size g'
  = UDim2.new 0 (sqrt ((Vector2.X to - Vector2.X from) ^ 2
                       + (Vector2.Y to - Vector2.Y from) ^ 2))
              0 (UDim.Offset (UDim2.Y (Gui.Size g))) ∧
  Gui.Rotation g'
  = math.deg (math.atan2 (Vector2.Y to - Vector2.Y from)
                         (Vector2.X to - Vector2.X from)) ∧
  (from = Vector2.new 0 0 → to = Vector2.new 3 4 →
   Gui.Position g' = UDim2.new 0 1.5 0 2 ∧
   Gui.Size g' = UDim2.new 0 5 0 (UDim.Offset (UDim2.Y (Gui.Size g))) ∧
   (53.125 < Gui.Rotation g' < 53.135)%R).
Proof.
intros w from to.
destruct (gui w !! 4) as [g|] eqn:Hg; [|vm_compute in Hg; discriminate Hg].
exists g. split; [reflexivity|].
exact (line_from_points 4 from to w g Hg).
Defined.

(* ================================================================== *)
(** * Part V: further properties of the script                         *)
(* ================================================================== *)

(** ** Lines between two screen points *)

Section LineGeometry.
Local Open Scope R_scope.

Lemma atan2_range y x : - PI < math.atan2 y x <= PI.
Proof.
destruct (Req_dec x 0) as [Hx|Hx]; [destruct (Req_dec y 0) as [Hy|Hy]|].
- subst. unfold math.atan2. pose proof PI_RGT_0.
  repeat (destruct (Rlt_dec _ _); try lra).
- by apply (atan2_polar x y); right.
- by apply (atan2_polar x y); left.
Qed.

Lemma deg_range y x : - 180 < math.deg (math.atan2 y x) <= 180.
Proof.
pose proof (atan2_range y x) as [Hlo Hhi]. pose proof PI_RGT_0 as HPI.
unfold math.deg.
assert (0 < 180 / PI) as Hk by (apply Rdiv_lt_0_compat; lra).
assert (PI * (180 / PI) = 180) as Hpi by (field; lra).
pose proof (Rmult_lt_compat_r _ _ _ Hk Hlo).
pose proof (Rmult_le_compat_r (180 / PI) _ _ (Rlt_le _ _ Hk) Hhi).
split; lra.
Qed.



(** X2: whatever the two points, the line gets a length that is not
    negative and a rotation above -180 and at most 180 degrees.  Two
    coinciding points give a line of length 0 and rotation 0 at that
    point. *)
Theorem line_length_and_rotation_bounds
    (line : GuiRef) (from to : Vector2.t) (w : World) (g : Gui.t) :
gui w !! line = Some g →
∃ w' g',
  updateLineFromPoints line from to w = Done tt w' ∧
  gui w' !! line = Some g' ∧
  0 <= UDim.Offset (UDim2.X (Gui.Size g')) ∧
  - 180 < Gui.Rotation g' <= 180 ∧
  (from = to →
   Gui.Position g' = UDim2.new 0 (Vector2.X from) 0 (Vector2.Y from) ∧
   UDim.Offset (UDim2.X (Gui.Size g')) = 0 ∧
   Gui.Rotation g' = 0).
Proof.
intros Hg. pose proof (lookup_lt_Some _ _ _ Hg) as Hlt.
rewrite (updateLineFromPoints_Done line from to w g Hg).
do 2 eexists. split; [reflexivity|]. split; [simpl; by apply list_lookup_insert_eq|].
destruct from as [ax ay], to as [bx by'].
unfold Vector2.Magnitude, Vector2.sub, Vector2.add, Vector2.div.
cbn [Gui.Position Gui.Size Gui.Rotation Gui.with_Position Gui.with_Size
     Gui.with_Rotation Vector2.X Vector2.Y UDim2.new UDim2.X UDim.Offset].
split_and!.
- apply sqrt_pos.
- apply deg_range.
- apply deg_range.
- intros [= -> ->]. split_and!.
  + f_equal; f_equal; lra.
  + replace ((bx - bx) * (bx - bx) + (by' - by') * (by' - by')) with 0 by ring.
    apply sqrt_0.
  + unfold math.deg, math.atan2. rewrite !Rminus_diag.
    repeat (destruct (Rlt_dec _ _); try lra).
Qed.
End LineGeometry.


Lemma line_length_and_rotation_bounds_witness :
let w := run [CharacterAdded (sample_host []) (R6_character 7 "Dummy")]
             (start None) in
let p := Vector2.new 3 4 in
∃ g, gui w !! 4 = Some g ∧
∃ w' g',
  updateLineFromPoints 4 p p w = Done tt w' ∧
  gui w' !! 4 = Some g' ∧
  (0 <= UDim.Offset (UDim2.X (Gui.Size g')))%R ∧
  (- 180 < Gui.Rotation g' <= 180)%R ∧
  (p = p →
   Gui.Position g' = UDim2.new 0 (Vector2.X p) 0 (Vector2.Y p) ∧
   UDim.Offset (UDim2.X (Gui.Size g')) = 0%R ∧
   Gui.Rotation g' = 0%R).
Proof.
intros w p.
destruct (gui w !! 4) as [g|] eqn:Hg; [|vm_compute in Hg; discriminate Hg].
exists g. split; [reflexivity|].
exact (line_length_and_rotation_bounds 4 p p w g Hg).
Defined.

(** ** Invariants of computations *)

Section Keeps.
Context {A B : Type} (I : World → Prop).

Lemma keeps_ret (P : A → Prop) a : P a → keeps I P (mret a).
Proof. by intros Ha w Hw. Qed.

Lemma keeps_bind (P : A → Prop) (Q : B → Prop) (m : M A) (k : A → M B) :
keeps I P m → (∀ a, P a → keeps I Q (k a)) → keeps I Q (m ≫= k).
Proof.
intros Hm Hk w Hw. specialize (Hm w Hw). unfold mbind, M_bind.
destruct (m w) as [a w1|e w1|w1]; [|done..].
destruct Hm as [Hw1 Ha]. apply (Hk a Ha w1 Hw1).
Qed.

Lemma keeps_weaken (P Q : A → Prop) (m : M A) :
keeps I P m → (∀ a, P a → Q a) → keeps I Q m.
Proof.
intros Hm HPQ w Hw. specialize (Hm w Hw).
destruct (m w); [|done..]. destruct Hm. auto.
Qed.

Lemma keeps_throw (P : A → Prop) e : keeps I P (throw e).
Proof. by intros w Hw. Qed.

Lemma keeps_block (P : A → Prop) : keeps I P block.
Proof. by intros w Hw. Qed.

Lemma keeps_index (arr : list A) i : keeps I (λ a, a ∈ arr) (index arr i).
Proof.
intros w Hw. unfold index. destruct (arr !! i) as [a|] eqn:Ha; [|done].
split; [done|]. by eapply list_elem_of_lookup_2.
Qed.

Lemma keeps_modify (f : World → World) :
(∀ w, I w → I (f w)) → keeps I (λ _, True) (modify f).
Proof. intros Hf w Hw. split; [auto|done]. Qed.
End Keeps.

Lemma keeps_forEach {A} (I : World → Prop) (l : list A) (f : A → M unit) :
(∀ x, x ∈ l → keeps I (λ _, True) (f x)) → keeps I (λ _, True) (forEach l f).
Proof.
induction l as [|x l IH]; intros Hf; simpl.
- by apply keeps_ret.
- apply keeps_bind with (P := λ _, True); [apply Hf; left|].
  intros _ _. apply IH. intros y Hy. apply Hf. by right.
Qed.

Lemma keeps_project (I : World → Prop) host a :
(∀ f w, I w → I (with_projections f w)) →
keeps I (λ _, True) (ESP.project host a).
Proof.
intros Hcalls w Hw. unfold ESP.project.
destruct (CurrentCamera w); [|exact Hw]. split; [by apply Hcalls|done].
Qed.

(** *** Computations that write properties of GUI instances *)

Section GuiFrame.
Context (R : GuiRef → Gui.t → Gui.t → Prop) (w0 : World).

Lemma gui_frame_refl : (∀ r g, R r g g) → gui_frame R w0 w0.
Proof. intros HR. split; try done. eauto. Qed.

Lemma gui_frame_projections f w :
gui_frame R w0 w → gui_frame R w0 (with_projections f w).
Proof. intros []. by split. Qed.

Lemma gui_frame_alter r f w :
(∀ g0 g, R r g0 g → R r g0 (f g)) →
gui_frame R w0 w → gui_frame R w0 (with_gui (alter f r) w).
Proof.
intros Hf [? ? ? ? ? Hlen Hgui]. split; simpl; try done.
- by rewrite length_alter.
- intros r' g0 Hg0. destruct (Hgui r' g0 Hg0) as (g & Hg & HR).
  destruct (decide (r = r')) as [<-|Hne].
  + exists (f g). rewrite list_lookup_alter_eq, Hg. auto.
  + exists g. by rewrite list_lookup_alter_ne.
Qed.

Lemma keeps_set_gui r f :
(∀ g0 g, R r g0 g → R r g0 (f g)) →
keeps (gui_frame R w0) (λ _, True) (set_gui r f).
Proof. intros Hf. apply keeps_modify. intros w. by apply gui_frame_alter. Qed.

Lemma keeps_self this :
keeps (gui_frame R w0) (λ o, objects w0 !! this = Some o) (ESP.self this).
Proof.
intros w Hw. unfold ESP.self. destruct (objects w !! this) as [o|] eqn:Ho; [|done].
split; [done|]. by rewrite <-(frame_objects R w0 w Hw).
Qed.

Lemma keeps_updateLineFromPoints line from to :
(∀ g0 g p d a, R line g0 g → R line g0 (placed p d a g)) →
keeps (gui_frame R w0) (λ _, True) (updateLineFromPoints line from to).
Proof.
intros Hline w Hw.
destruct (gui w !! line) as [g|] eqn:Hg.
- rewrite (updateLineFromPoints_Done line from to w g Hg). split; [|done].
  destruct Hw as [? ? ? ? ? Hlen Hgui]. split; simpl; try done.
  + by rewrite length_insert.
  + intros r g0 Hg0. destruct (Hgui r g0 Hg0) as (g1 & Hg1 & HR).
    destruct (decide (line = r)) as [<-|Hne].
    * eexists. rewrite list_lookup_insert_eq by (by eapply lookup_lt_Some).
      split; [done|]. apply Hline. congruence.
    * exists g1. by rewrite list_lookup_insert_ne.
- unfold updateLineFromPoints. rewrite set_gui_run.
  unfold mbind, M_bind, get_gui. simpl.
  rewrite list_lookup_alter_eq, Hg. simpl.
  destruct Hw as [? ? ? ? ? Hlen Hgui]. split; simpl; try done.
  + by rewrite length_alter.
  + intros r g0 Hg0. destruct (Hgui r g0 Hg0) as (g1 & Hg1 & HR).
    exists g1. split; [|done].
    destruct (decide (line = r)) as [<-|Hne]; [congruence|].
    by rewrite list_lookup_alter_ne.
Qed.
End GuiFrame.

Section RenderFrame.
Import Points Bones Labels Overlay.
Context (R : GuiRef → Gui.t → Gui.t → Prop) (w0 : World) (this : ESPRef).
Hypothesis writable : ∀ o r g0 g g',
  objects w0 !! this = Some o → r ∈ written o →
  R r g0 g → render_writes g g' → R r g0 g'.

Lemma keeps_setVisible visible :
keeps (gui_frame R w0) (λ _, True) (ESP.setVisible this visible).
Proof using writable.
unfold ESP.setVisible.
eapply keeps_bind; [apply keeps_self|]. intros o Ho.
assert (∀ r, r ∈ primitives o →
          keeps (gui_frame R w0) (λ _, True) (set_gui r (Gui.with_Visible visible)))
  as Hset.
{ intros r Hr. apply keeps_set_gui. intros g0 g Hg.
  eapply (writable o r); [done|by right|done|constructor]. }
eapply keeps_bind; [apply Hset|intros _ _].
{ unfold primitives. rewrite !elem_of_app, list_elem_of_singleton. tauto. }
eapply keeps_bind; [apply keeps_forEach|intros _ _].
{ intros r Hr. apply Hset. unfold primitives. rewrite !elem_of_app. tauto. }
apply keeps_forEach.
intros r Hr. apply Hset. unfold primitives. rewrite !elem_of_app. tauto.
Qed.

Lemma keeps_render host :
keeps (gui_frame R w0) (λ _, True) (ESP.render host this).
Proof using writable.
unfold ESP.render.
eapply keeps_bind; [apply keeps_self|]. intros o Ho. cbv zeta.
assert (∀ l from to, l ∈ box_lines o ∨ l ∈ bone_lines o →
          keeps (gui_frame R w0) (λ _, True) (updateLineFromPoints l from to))
  as Hline.
{ intros l from to Hl. apply keeps_updateLineFromPoints. intros g0 g p d a Hg.
  eapply (writable o l); [done| |done|constructor].
  right. unfold primitives. rewrite !elem_of_app. tauto. }
repeat first
  [ apply keeps_setVisible
  | match goal with
    | |- keeps _ _ (if ?b then _ else _) => destruct b
    | |- keeps _ _ (ESP.project _ _ ≫= _) =>
        eapply keeps_bind;
          [apply keeps_project, gui_frame_projections|intros ? _]
    | |- keeps _ _ (index _ _ ≫= _) =>
        eapply keeps_bind; [apply keeps_index|intros ? ?]
    | |- keeps _ _ (updateLineFromPoints _ _ _ ≫= _) =>
        eapply keeps_bind; [apply Hline; tauto|intros _ _]
    | |- keeps _ _ (set_gui _ _ ≫= _) =>
        eapply keeps_bind;
          [ apply keeps_set_gui; intros g0 g Hg;
            eapply (writable o); [done| |done|constructor]
          | intros _ _ ]
    end ].
- right. unfold primitives. rewrite !elem_of_app, list_elem_of_singleton. tauto.
- left.
Qed.
End RenderFrame.

(** ** Frame ticks *)

Section FrameTicks.
Import Points Bones Labels Overlay.

Lemma same_structure_writes g0 g g' :
same_structure g0 g → render_writes g g' → same_structure g0 g'.
Proof. intros (? & ? & ? & ?) []; by split_and!. Qed.

Lemma render_each_keeps (R : GuiRef → Gui.t → Gui.t → Prop) w0 host todo :
(∀ this o r g0 g g', objects w0 !! this = Some o → r ∈ written o →
   R r g0 g → render_writes g g' → R r g0 g') →
∀ w, gui_frame R w0 w → gui_frame R w0 (world_of (render_each host todo w).2).
Proof.
intros writable. induction todo as [|[e i] todo IH]; intros w Hw; simpl; [done|].
pose proof (keeps_render R w0 i (λ o r, writable i o r) host w Hw) as Hr.
destruct (ESP.render host i w) as [[] w1|err w1|w1]; simpl; try done.
destruct Hr as [Hw1 _]. specialize (IH w1 Hw1).
by destruct (render_each host todo w1).
Qed.

(** X3: a frame tick writes properties of GUI instances and nothing else,
    however it ends.  Attachments, overlays, registry, connections and
    camera are as before; no GUI instance is created or removed; and every
    GUI instance keeps its class, its parent, its destroyed flag and its
    thickness. *)
Theorem frame_tick_writes_properties_only (host : Host) (w : World) :
let w' := step (RenderStepped host) w in
attachments w' = attachments w ∧
objects w' = objects w ∧
instances w' = instances w ∧
connections w' = connections w ∧
CurrentCamera w' = CurrentCamera w ∧
length (gui w') = length (gui w) ∧
∀ r g, gui w !! r = Some g →
  ∃ g', gui w' !! r = Some g' ∧ same_structure g g'.
Proof.
intros w'.
destruct (render_each_keeps (λ _, same_structure) w host (map_to_list (instances w))
            (λ _ _ _ g0 g g' _ _, same_structure_writes g0 g g') w) as [];
  [by apply gui_frame_refl|].
by split_and!.
Qed.

Lemma culled_none host camera points a :
culled host camera points = false → a ∈ points →
ESP.behind (camera (WorldPosition host a)) = false.
Proof.
induction points as [|p points IH]; simpl; [by intros _ ?%elem_of_nil|].
destruct (ESP.behind (camera (WorldPosition host p))) eqn:Hp; [done|].
intros Hc [->|Hin]%elem_of_cons; auto.
Qed.

Lemma render_returns host i w o camera :
world_ok w → objects w !! i = Some o → CurrentCamera w = Some camera →
∃ w', ESP.render host i w = Done tt w'.
Proof.
intros Hw Ho Hcam.
destruct (culled host camera (projected_points o)) eqn:Hc.
- rewrite (render_cull_behind host i w o camera Ho Hcam Hc).
  rewrite (setVisible_Done i false _ o) by exact Ho. by eexists.
- destruct (render_in_front host i w o camera Hw Ho Hcam) as (w' & Hr & _);
    [|by eexists].
  intros a Ha. by eapply culled_none.
Qed.

Lemma render_each_returns host camera todo : ∀ w,
world_ok w → CurrentCamera w = Some camera →
(∀ e i, (e, i) ∈ todo → is_Some (objects w !! i)) →
∃ w', render_each host todo w = (todo.*2, Done tt w').
Proof.
induction todo as [|[e i] todo IH]; intros w Hw Hcam Hobj; simpl; [by eexists|].
destruct (Hobj e i) as [o Ho]; [left|].
destruct (render_returns host i w o camera Hw Ho Hcam) as (w1 & Hr).
pose proof (stores_only_render host i w) as Hcore. rewrite Hr in *. simpl in Hcore.
destruct (IH w1) as (w' & ->).
- by eapply world_ok_same_core.
- destruct Hcore. congruence.
- intros e' i' Hin. destruct Hcore as [-> _ _ _ _]. apply (Hobj e' i'). by right.
- by eexists.
Qed.

(** X4: with a current camera, a frame tick of a reachable world calls
    [render()] on every registered overlay, in iteration order, and every
    call returns: an undefined camera is the only reason for a frame to
    fail. *)
Theorem frame_with_a_camera_renders_every_overlay
    (host : Host) (w : World) (camera : Camera) :
reachable w → CurrentCamera w = Some camera →
∃ w', on_RenderStepped host w = ((map_to_list (instances w)).*2, Done tt w').
Proof.
intros Hw%reachable_ok Hcam. apply (render_each_returns host camera); try done.
intros e i Hin%elem_of_map_to_list.
destruct (ok_instances w Hw e i Hin) as (o & Ho & _). by exists o.
Qed.

(** X5: in a reachable world a frame tick calls [render()] on live
    overlays only, each the registered overlay of its entity: an overlay
    whose [destroy()] has run is not rendered again. *)
Theorem frame_renders_live_overlays_only
    (host : Host) (w : World) (i : ESPRef) :
reachable w → i ∈ (on_RenderStepped host w).1 →
∃ o, objects w !! i = Some o ∧ live o = true ∧
     instances w !! instance o = Some i.
Proof.
intros Hw%reachable_ok Hin.
assert (i ∈ (map_to_list (instances w)).*2) as Hi.
{ unfold on_RenderStepped in Hin.
  destruct (render_each_in_turn host (map_to_list (instances w)) w)
    as (before & w1 & _ & [[Hall Heq]|(j & rest & r & Hall & _ & _ & Heq)]);
    rewrite Heq in Hin; rewrite Hall; simpl in Hin; [done|].
  apply elem_of_app in Hin as [Hin|Hin%list_elem_of_singleton].
  - apply elem_of_app. by left.
  - subst i. apply elem_of_app. right. left. }
apply list_elem_of_fmap in Hi as ([e i'] & -> & He%elem_of_map_to_list).
destruct (ok_instances w Hw e i' He) as (o & Ho & Hinst & Hl).
exists o. simpl. by rewrite Hinst.
Qed.
End FrameTicks.

Lemma frame_with_a_camera_renders_every_overlay_witness :
let host := sample_host [5] in
let w := run [CharacterAdded host (R6_character 7 "Dummy");
              CharacterAdded host (R6_character 8 "Other")]
             (start (Some identity_camera)) in
∃ w', on_RenderStepped host w = ((map_to_list (instances w)).*2, Done tt w').
Proof.
intros host w.
apply (frame_with_a_camera_renders_every_overlay host w identity_camera).
- by eexists _, _.
- reflexivity.
Defined.

Lemma frame_renders_live_overlays_only_witness :
let host := sample_host [] in
let w := run [CharacterAdded host (R6_character 7 "Dummy")]
             (start (Some identity_camera)) in
∃ o, objects w !! 0 = Some o ∧ live o = true ∧
     instances w !! Overlay.instance o = Some 0.
Proof.
intros host w.
apply (frame_renders_live_overlays_only host w 0).
- by eexists _, _.
- unfold on_RenderStepped.
  assert (map_to_list (instances w) = [(7, 0)]) as -> by (vm_compute; reflexivity).
  cbn [render_each].
  destruct (ESP.render host 0 w) as [[] w1|err w1|w1]; cbn [render_each fst]; left.
Defined.

(** ** [render()] with every projected point in front of the camera *)

Section RenderInFront.
Import Points Bones Labels Overlay.
Local Open Scope R_scope.





End RenderInFront.

Section RenderLabel.
Import Points Bones Labels Overlay.
Local Open Scope R_scope.


End RenderLabel.



(** ** Removal of an entity *)

Section Removal.
Import Points Bones Labels Overlay BinSpec.

Lemma removed_so_far_refl e w : removed_so_far e w w.
Proof.
split; eauto.
intros i o Ho. exists (bin o). by rewrite with_bin_id.
Qed.

Lemma removed_so_far_trans e w1 w2 w3 :
removed_so_far e w1 w2 → removed_so_far e w2 w3 → removed_so_far e w1 w3.
Proof.
intros [Hl1 Hd1 Ho1 Hx1] [Hl2 Hd2 Ho2 Hx2]. split.
- congruence.
- intros r g Hg Hdead. destruct (Hd1 r g Hg Hdead) as (g' & Hg' & Hdead'). eauto.
- intros i o Ho. destruct (Ho1 i o Ho) as (b1 & Hb1 & Hdead1).
  destruct (Ho2 i _ Hb1) as (b2 & Hb2 & Hdead2).
  exists b2. split; [by destruct o|].
  intros Hl. specialize (Hdead1 Hl). subst b1. rewrite with_bin_id in Hdead2. auto.
- intros i o Ho Hne. apply Hx2; [by apply Hx1|done].
Qed.

(** One [destroy()] of an overlay of [e]. *)
Lemma destroy_removes w i o :
world_ok w → objects w !! i = Some o →
∃ w1,
  ESP.destroy i w = Done tt w1 ∧ world_ok w1 ∧ connections w1 = connections w ∧
  removed_so_far (instance o) w w1 ∧
  (∀ j, j ≠ i → objects w1 !! j = objects w !! j) ∧
  (∃ o1, objects w1 !! i = Some o1 ∧ live o1 = false) ∧
  (live o = true →
   ∀ r, r ∈ primitives o → ∃ g, gui w1 !! r = Some g ∧ Gui.Destroyed g = true).
Proof.
intros Hw Ho. destruct (ok_objects w Hw i o Ho) as [_ _ Hrefs Hbin _].
destruct (live o) eqn:Hl.
- apply live_holds in Hbin; [|done].
  destruct (destroy_live w i o Ho Hbin) as (b' & Hd & Hb' & He).
  eexists. split; [exact Hd|]. split; [by apply world_ok_destroy_live|].
  split; [done|]. split_and!.
  + split; simpl.
    * apply Destroy_all_length.
    * intros r g. apply Destroy_all_keeps.
    * intros j oj Hj. destruct (decide (j = i)) as [->|Hne].
      -- exists b'. rewrite list_lookup_alter_eq, Ho. simpl.
         assert (oj = o) as -> by congruence. split; [done|congruence].
      -- exists (bin oj). rewrite list_lookup_alter_ne by done.
         by rewrite with_bin_id.
    * intros j oj Hj Hne. rewrite list_lookup_alter_ne; [done|].
      intros ->. congruence.
  + intros j Hne. simpl. by rewrite list_lookup_alter_ne.
  + exists (with_bin b' o). simpl. rewrite list_lookup_alter_eq, Ho. simpl.
    split; [done|]. unfold live. simpl. by rewrite He.
  + intros _ r Hr. simpl. apply Destroy_all_destroys; [done|].
    apply Hrefs. by right.
- exists w. rewrite (destroy_dead w i o Ho)
    by (unfold live in Hl; by destruct (Bin.isEmpty (bin o))).
  split_and!; try done; [apply removed_so_far_refl|by exists o].
Qed.

(** Firing the removal of [e] on some of the connections. *)
Lemma fire_removes e cs : ∀ w,
world_ok w → (∀ c, c ∈ cs → c ∈ connections w) →
let w' := fire_AncestryChanged e None cs w in
removed_so_far e w w' ∧
∀ c o, c ∈ cs → entity c = e → objects w !! this c = Some o →
  (∃ o', objects w' !! this c = Some o' ∧ live o' = false) ∧
  (live o = true →
   ∀ r, r ∈ primitives o → ∃ g, gui w' !! r = Some g ∧ Gui.Destroyed g = true).
Proof.
induction cs as [|c cs IH]; intros w Hw Hcs; simpl.
{ split; [apply removed_so_far_refl|]. by intros c o ?%elem_of_nil. }
assert (c ∈ connections w) as Hc by (apply Hcs; left).
destruct (ok_connections w Hw c Hc) as (Hcon & o & Ho & Hinst).
rewrite Hcon. simpl.
destruct (decide (entity c = e)) as [He|Hne].
- rewrite bool_decide_eq_true_2 by done. simpl.
  destruct (destroy_removes w (this c) o Hw Ho)
    as (w1 & Hd & Hw1 & Ec1 & Hrem1 & Hother1 & (o1 & Ho1 & Hl1) & Hprim1).
  rewrite Hd. simpl. rewrite Hinst, He in Hrem1.
  destruct (IH w1 Hw1) as (Hrem & Hdone).
  { intros c' Hc'. rewrite Ec1. apply Hcs. by right. }
  split; [by eapply removed_so_far_trans|].
  intros c' o' Hc' He' Ho'.
  destruct (decide (this c' = this c)) as [Hsame|Hdiff].
  + rewrite Hsame in *. assert (o' = o) as -> by congruence.
    destruct (rs_objects _ _ _ Hrem _ _ Ho1) as (b & Hb & Hdead).
    rewrite (Hdead Hl1), with_bin_id in Hb. split; [by exists o1|].
    intros Hl r Hr. destruct (Hprim1 Hl r Hr) as (g & Hg & Hgd).
    by apply (rs_destroyed _ _ _ Hrem r g).
  + apply elem_of_cons in Hc' as [->|Hc']; [done|].
    apply (Hdone c' o' Hc' He'). by rewrite Hother1.
- rewrite bool_decide_eq_false_2 by done. simpl.
  destruct (IH w Hw) as (Hrem & Hdone).
  { intros c' Hc'. apply Hcs. by right. }
  split; [done|]. intros c' o' Hc' He' Ho'.
  apply elem_of_cons in Hc' as [->|Hc']; [done|]. by apply Hdone.
Qed.

(** X7: when an entity leaves the world ([AncestryChanged] with an
    undefined parent), its registry entry is removed and every live
    overlay of the entity is destroyed: its bin is emptied and its 14 lines
    and its label container are destroyed.  The overlays of other entities,
    and overlays destroyed before, are left as they are, and so are the
    connections.  When the entity is moved under another parent, nothing
    happens. *)
Theorem entity_removal_destroys_its_overlays (w : World) (e : ModelRef) :
reachable w →
(∀ p, step (AncestryChanged e (Some p)) w = w) ∧
let w' := step (AncestryChanged e None) w in
instances w' = delete e (instances w) ∧
connections w' = connections w ∧
(∀ i o, objects w !! i = Some o → instance o = e → live o = true →
   (∃ o', objects w' !! i = Some o' ∧ live o' = false) ∧
   ∀ r, r ∈ primitives o →
        ∃ g, gui w' !! r = Some g ∧ Gui.Destroyed g = true) ∧
(∀ i o, objects w !! i = Some o → instance o ≠ e ∨ live o = false →
   objects w' !! i = Some o).
Proof.
intros Hw%reachable_ok. split; [intros p; apply fire_reparented|].
cbn [step].
destruct (fire_removed e w Hw) as [_ Hinst].
destruct (fire_removed_some e (connections w) w Hw) as (_ & Hconn & _); [done|].
destruct (fire_removes e (connections w) w Hw) as (Hrem & Hdone); [done|].
split_and!; try done.
- intros i o Ho He Hl.
  destruct (ok_objects w Hw i o Ho) as [_ _ _ _ Hc].
  destruct (Hdone (mkConnection (instance o) i true) o Hc He Ho) as [Hdead Hprim].
  split; [exact Hdead|]. by apply Hprim.
- intros i o Ho [Hne|Hl].
  + by apply (rs_others _ _ _ Hrem).
  + destruct (rs_objects _ _ _ Hrem i o Ho) as (b & Hb & Hdead).
    by rewrite (Hdead Hl), with_bin_id in Hb.
Qed.
End Removal.

Lemma entity_removal_destroys_its_overlays_witness :
let w := run [CharacterAdded (sample_host []) (R6_character 7 "Dummy");
              CharacterAdded (sample_host []) (R6_character 8 "Other")]
             (start None) in
(∀ p, step (AncestryChanged 7 (Some p)) w = w) ∧
let w' := step (AncestryChanged 7 None) w in
instances w' = delete 7 (instances w) ∧
connections w' = connections w ∧
(∀ i o, objects w !! i = Some o → Overlay.instance o = 7 → live o = true →
   (∃ o', objects w' !! i = Some o' ∧ live o' = false) ∧
   ∀ r, r ∈ primitives o →
        ∃ g, gui w' !! r = Some g ∧ Gui.Destroyed g = true) ∧
(∀ i o, objects w !! i = Some o → Overlay.instance o ≠ 7 ∨ live o = false →
   objects w' !! i = Some o).
Proof.
intros w. apply (entity_removal_destroys_its_overlays w 7). by eexists _, _.
Defined.

(** ** When the constructor returns *)

Section Returns.
Import Points Bones Labels Overlay BinSpec.

Lemma returns_ret {A} (P : A → Prop) a : P a → returns P (mret a).
Proof. intros Ha w. by exists a, w. Qed.

Lemma returns_ret_eq {A} (a : A) : returns (λ x, x = a) (mret a).
Proof. by apply returns_ret. Qed.

Lemma returns_bind {A B} (P : A → Prop) (Q : B → Prop) (m : M A) (k : A → M B) :
returns P m → (∀ a, P a → returns Q (k a)) → returns Q (m ≫= k).
Proof.
intros Hm Hk w. destruct (Hm w) as (a & w1 & Hw1 & Ha).
destruct (Hk a Ha w1) as (b & w2 & Hw2 & Hb).
exists b, w2. by rewrite (bind_Done _ _ _ _ _ Hw1).
Qed.

Lemma returns_new_Attachment : returns (λ _, True) new_Attachment.
Proof. intros w. by eexists _, _. Qed.

Lemma returns_set_attachment a f : returns (λ _, True) (set_attachment a f).
Proof. intros w. by eexists _, _. Qed.

Lemma returns_set_gui r f : returns (λ _, True) (set_gui r f).
Proof. intros w. by eexists _, _. Qed.

Lemma returns_WaitForChild entity name c :
Model.FindFirstChild name entity = Some c →
returns (λ x, x = (name, c)) (WaitForChild entity name).
Proof. intros Hc w. unfold WaitForChild. rewrite Hc. by eexists _, _. Qed.

Lemma returns_Size_of name size :
returns (λ _, True) (Size_of (name, Part size)).
Proof. intros w. by eexists _, _. Qed.

Lemma returns_constructPoints entity :
constructible entity → returns (λ _, True) (ESP.constructPoints entity).
Proof.
intros (_ & [head Hhead] & [torso Htorso] & [arm Harm] & [leg Hleg] & _ & _ & Hroot).
unfold ESP.constructPoints.
do 7 (eapply returns_bind; [apply returns_new_Attachment|intros ? _]).
eapply returns_bind; [by apply returns_WaitForChild|intros ? ->].
unfold WaitForChild_timeOut.
eapply returns_bind; [apply returns_ret_eq|intros ? ->].
assert (∃ name size,
          returns (λ x, x = (name, Part size))
            match pair "HumanoidRootPart"%string <$>
                    Model.FindFirstChild "HumanoidRootPart" entity with
            | Some r => mret r
            | None => WaitForChild entity "Torso"
            end) as (name & size & Hr).
{ destruct Hroot as [->|[size ->]]; simpl.
  - exists "Torso"%string, torso. by apply returns_WaitForChild.
  - exists "HumanoidRootPart"%string, size. apply returns_ret_eq. }
eapply returns_bind; [exact Hr|intros ? ->].
eapply returns_bind; [by apply returns_WaitForChild|intros ? ->].
eapply returns_bind; [by apply returns_WaitForChild|intros ? ->].
do 4 (eapply returns_bind; [apply returns_Size_of|intros ? _]).
do 13 (eapply returns_bind; [apply returns_set_attachment|intros ? _]).
by apply returns_ret.
Qed.

Lemma returns_constructBones entity :
constructible entity → returns (λ _, True) (ESP.constructBones entity).
Proof.
intros (_ & [head Hhead] & [torso Htorso] & [arm Harm] & [leg Hleg]
        & [larm Hlarm] & [lleg Hlleg] & _).
unfold ESP.constructBones.
do 6 (eapply returns_bind; [by apply returns_WaitForChild|intros ? ->]).
do 4 (eapply returns_bind; [apply returns_Size_of|intros ? _]).
cbv zeta.
do 11 (eapply returns_bind; [apply returns_new_Attachment|intros ? _]).
do 22 (eapply returns_bind; [apply returns_set_attachment|intros ? _]).
by apply returns_ret.
Qed.

Lemma returns_setLabels labels entity displayName bin :
returns (λ _, True)
  (ESP.setLabels labels entity ("Humanoid"%string, Humanoid displayName) bin).
Proof.
unfold ESP.setLabels.
do 2 (eapply returns_bind; [apply returns_set_gui|intros ? _]).
eapply returns_bind; [apply returns_ret_eq|intros ? _].
do 7 (eapply returns_bind; [apply returns_set_gui|intros ? _]).
by apply returns_ret.
Qed.
End Returns.

Section ConstructorOutcome.
Import Points Bones Labels Overlay BinSpec.

Lemma returns_new_Instance cls : returns (λ _, True) (new_Instance cls).
Proof. intros w. by eexists _, _. Qed.

Lemma returns_new_lines n : ∀ lines bin,
returns (λ _, True) (ESP.new_lines n lines bin).
Proof.
induction n as [|n IH]; intros lines bin; simpl; [by apply returns_ret|].
eapply returns_bind; [|intros ? _; apply IH].
unfold ESP.new_line.
eapply returns_bind; [apply returns_new_Instance|intros ? _].
do 2 (eapply returns_bind; [apply returns_set_gui|intros ? _]).
by apply returns_ret with (P := λ _, True).
Qed.

Lemma returns_constructLines bin : returns (λ _, True) (ESP.constructLines bin).
Proof.
rewrite constructLines_unfold.
eapply returns_bind; [apply returns_new_lines|intros [? ?] _].
eapply returns_bind; [apply returns_new_lines|intros [? ?] _].
by apply returns_ret.
Qed.

Lemma constructible_returns host character :
constructible character → returns (λ _, True) (ESP.new host character).
Proof.
intros Hc. pose proof Hc as ([displayName Hhum] & _).
unfold ESP.new.
do 4 (eapply returns_bind; [apply returns_new_Instance|intros ? _]).
eapply returns_bind; [by apply returns_WaitForChild|intros ? ->].
eapply returns_bind; [by apply returns_constructPoints|intros ? _].
eapply returns_bind; [by apply returns_constructBones|intros ? _].
eapply returns_bind; [apply returns_constructLines|intros [[? ?] ?] _].
eapply returns_bind; [apply returns_setLabels|intros ? _].
intros w. edestruct initialize_Done as [w' ->]. by eexists _, _.
Qed.

Lemma constructPoints_parts entity w pts w' :
ESP.constructPoints entity w = Done pts w' →
is_part "Head" entity ∧ is_part "Right Arm" entity ∧ is_part "Right Leg" entity ∧
(Model.FindFirstChild "HumanoidRootPart" entity = None
 ∨ is_part "HumanoidRootPart" entity).
Proof.
intros Hc. unfold ESP.constructPoints in Hc.
rewrite !new_Attachment_run in Hc.
apply WaitForChild_inv in Hc as (head & Hhead & Hc).
rewrite WaitForChild_timeOut_run in Hc.
apply root_inv in Hc as (rootName & root & Hroot & Hc).
apply WaitForChild_inv in Hc as (right_arm & Hra & Hc).
apply WaitForChild_inv in Hc as (right_leg & Hrl & Hc).
apply Size_of_inv in Hc as (root_Size & Eroot & Hc).
apply Size_of_inv in Hc as (head_Size & Ehead & Hc).
apply Size_of_inv in Hc as (leg_Size & Eleg & Hc).
apply Size_of_inv in Hc as (arm_Size & Earm & _).
simpl in Eroot, Ehead, Eleg, Earm. subst.
split_and!; try by eexists.
destruct Hroot as [[Hr _]|[Hr _]]; [right; by eexists|by left].
Qed.

Lemma constructBones_parts entity w bns w' :
ESP.constructBones entity w = Done bns w' →
is_part "Torso" entity ∧
is_Some (Model.FindFirstChild "Left Arm" entity) ∧
is_Some (Model.FindFirstChild "Left Leg" entity).
Proof.
intros Hc. unfold ESP.constructBones in Hc.
apply WaitForChild_inv in Hc as (head & Hhead & Hc).
apply WaitForChild_inv in Hc as (torso & Htorso & Hc).
apply WaitForChild_inv in Hc as (right_arm & Hra & Hc).
apply WaitForChild_inv in Hc as (right_leg & Hrl & Hc).
apply WaitForChild_inv in Hc as (left_arm & Hla & Hc).
apply WaitForChild_inv in Hc as (left_leg & Hll & Hc).
apply Size_of_inv in Hc as (head_size & Ehead & Hc).
apply Size_of_inv in Hc as (torso_size & Etorso & _).
simpl in Etorso. subst. split_and!; by eexists.
Qed.

Lemma setLabels_humanoid labels entity humanoid bin w bin' w' :
ESP.setLabels labels entity humanoid bin w = Done bin' w' →
∃ displayName, humanoid.2 = Humanoid displayName.
Proof.
intros Hs. unfold ESP.setLabels in Hs.
do 2 inv_bind Hs. inv_bind Hs.
unfold DisplayName_of in Hstep1. destruct (humanoid.2); [done|by eexists].
Qed.

(** X8: [new ESP(character)] returns exactly for the characters that have
    a humanoid, a head, a torso, a right arm and a right leg that are
    parts, a left arm and a left leg, and a root part that is a part if
    there is one.  For every other character the constructor blocks or
    throws, and then it has registered nothing: overlay objects, registry,
    connections and camera are as before. *)
Theorem constructor_returns_for_complete_characters
    (host : Host) (character : Model.t) (w : World) :
((∃ this w', ESP.new host character w = Done this w') ↔ constructible character) ∧
match ESP.new host character w with
| Done this w' =>
    this = length (objects w) ∧ instances w' !! Model.ref character = Some this
| Fault _ w' | Blocked w' =>
    objects w' = objects w ∧ instances w' = instances w ∧
    connections w' = connections w ∧ CurrentCamera w' = CurrentCamera w
end.
Proof.
split; [split|].
- intros (this & w' & Hn). unfold ESP.new in Hn.
  do 4 inv_bind Hn.
  apply WaitForChild_inv in Hn as (hum & Hhum & Hn).
  inv_bind_as Hn pts w5 Hpts.
  apply constructPoints_parts in Hpts as (? & ? & ? & ?).
  inv_bind_as Hn bns w6 Hbns.
  apply constructBones_parts in Hbns as (? & ? & ?).
  inv_bind_as Hn [[box bone] bin0] w7 Hlines.
  inv_bind_as Hn bin1 w8 Hlabels.
  apply setLabels_humanoid in Hlabels as [displayName Hd]. simpl in Hd. subst hum.
  split_and!; try done. by eexists.
- intros Hc. destruct (constructible_returns host character Hc w) as (this & w' & Hn & _).
  by eexists _, _.
- pose proof (new_unless_Done host character w) as Hframe.
  destruct (ESP.new host character w) as [this w'|err w'|w'] eqn:Hn.
  + apply new_Done in Hn as (-> & o & _ & _ & _ & _ & _ & _ & Ei & _).
    split; [done|]. rewrite Ei. apply lookup_insert_eq.
  + by destruct Hframe.
  + by destruct Hframe.
Qed.
End ConstructorOutcome.

(** ** The lines of an overlay *)

Section Lines.
Import Points Bones Labels Overlay BinSpec.

Lemma new_Instance_run {B} cls (k : GuiRef → M B) w :
(new_Instance cls ≫= k) w
= k (length (gui w)) (with_gui (λ l, l ++ [Gui.fresh cls]) w).
Proof. reflexivity. Qed.

(** One line of [constructLines()] in closed form. *)
Lemma new_line_closed w :
ESP.new_line w
= Done (length (gui w)) (with_gui (λ l, l ++ [hidden_line]) w).
Proof.
unfold ESP.new_line. rewrite new_Instance_run, !set_gui_run.
destruct w as [a g o i c cam calls]. unfold with_gui, mret, M_ret. simpl.
rewrite !alter_app_here. reflexivity.
Qed.

(** A loop of [constructLines()] in closed form. *)
Lemma new_lines_closed n : ∀ lines bin w,
ESP.new_lines n lines bin w
= Done (lines ++ seq (length (gui w)) n,
        add_all (ItemInstance <$> seq (length (gui w)) n) bin)
       (with_gui (λ l, l ++ replicate n hidden_line) w).
Proof.
induction n as [|n IH]; intros lines bin w; simpl.
- rewrite app_nil_r. destruct w. unfold with_gui. simpl. by rewrite app_nil_r.
- rewrite (bind_Done _ _ _ _ _ (new_line_closed w)). rewrite IH.
  destruct w as [a g o i c cam calls]. unfold with_gui. simpl.
  rewrite length_app, Nat.add_1_r, <-!app_assoc. reflexivity.
Qed.

Lemma add_all_app (l1 l2 : list Item) (bin : Bin.t) :
add_all (l1 ++ l2) bin = add_all l2 (add_all l1 bin).
Proof. unfold add_all. by rewrite foldl_app. Qed.

(** X9: [constructLines()] always returns.  It creates 14 frames, each
    hidden and in the screen GUI, behind the GUI instances there are: the
    first four are the box lines, the next ten the bone lines.  It adds
    them to the bin in that order and leaves everything else as it is. *)
Theorem constructLines_creates_hidden_lines (bin : Bin.t) (w : World) :
let n := length (gui w) in
let line := Gui.mk Frame false (UDim2.new 0 0 0 0) (UDim2.new 0 0 0 0) 0 []
              (Some InScreenGui) false in
ESP.constructLines bin w
= Done (seq n 4, seq (n + 4) 10, add_all (ItemInstance <$> seq n 14) bin)
       (with_gui (λ g, g ++ replicate 14 line) w).
Proof.
intros n line. rewrite constructLines_unfold.
rewrite (bind_Done _ _ _ _ _ (new_lines_closed 4 [] bin w)).
rewrite (bind_Done _ _ _ _ _ (new_lines_closed 10 [] _ _)).
destruct w as [a g o i c cam calls]. unfold with_gui, mret, M_ret.
cbn [gui app] in *. rewrite length_app, length_replicate. fold n.
replace (seq n 14) with (seq n 4 ++ seq (n + 4) 10) by (by rewrite <-seq_app).
rewrite fmap_app, add_all_app, <-app_assoc, <-replicate_add.
reflexivity.
Qed.
End Lines.
